(** * WeeChat relay codec of [py3status/modules/weechat_hotbar.py]

    A shallow embedding of the frame reader ([Py3status._receive]) and of the
    binary decoder ([Protocol]) of the module, together with the Python 3
    builtins they rely on, followed by the properties of the codec.

    The decoder keeps its cursor in the attribute [self.data], which holds
    either a [bytes] object or, after an underflow, the [str] object [''];
    decoders read it, replace it and may raise.  They are modelled in a state
    and exception monad over that attribute. *)

From Stdlib Require Import ZArith NArith List Bool Lia.
From Stdlib Require Import Strings.Byte Strings.String Strings.Ascii.
Import ListNotations.

#[local] Abbreviation length := List.length.

Set Implicit Arguments.
Set Warnings "-register-all".

(* ================================================================== *)
(** * Python values and builtins used by the module *)
(* ================================================================== *)

Module Py.

(** A Python [str]: a sequence of code points. *)
Definition str := list N.

(** A [str] literal. *)
Definition u (s : string) : str := map N_of_ascii (list_ascii_of_string s).

(** The two kinds of sequence the attribute [self.data] can hold. *)
Inductive pyseq :=
| PyBytes (b : list byte)
| PyStr (s : str).

(** The exceptions that the modelled code can raise. *)
Inductive exn :=
| KeyError | TypeError | ValueError | IndexError | AttributeError
| UnicodeDecodeError | struct_error | zlib_error | socket_error (errno : Z).

(** Result of a builtin call: a value or a raised exception. *)
Inductive res (A : Type) :=
| Val (a : A)
| Exn (e : exn).
Arguments Exn {A} e.

Definition byteval (b : byte) : Z := Z.of_N (Byte.to_N b).

Definition byte_of_Z (z : Z) : byte :=
  match Byte.of_N (Z.to_N (z mod 256)) with
  | Some b => b
  | None => x00
  end.

(** ** [len] and slicing *)

Definition len (d : pyseq) : nat :=
  match d with
  | PyBytes b => length b
  | PyStr s => length s
  end.

(** Python normalises a slice bound [i] against the length [n]: a negative
    bound counts from the end, and everything is clipped to [0..n]. *)
Definition clamp (n i : Z) : Z :=
  if (i <? 0)%Z then Z.max 0 (n + i) else Z.min i n.

(** [l[lo:hi]] *)
Definition slice {A} (l : list A) (lo hi : Z) : list A :=
  let n := Z.of_nat (length l) in
  let lo' := clamp n lo in
  let hi' := clamp n hi in
  firstn (Z.to_nat (hi' - lo')) (skipn (Z.to_nat lo') l).

(** [l[lo:]] *)
Definition slice_from {A} (l : list A) (lo : Z) : list A :=
  skipn (Z.to_nat (clamp (Z.of_nat (length l)) lo)) l.

Definition seq_slice (d : pyseq) (lo hi : Z) : pyseq :=
  match d with
  | PyBytes b => PyBytes (slice b lo hi)
  | PyStr s => PyStr (slice s lo hi)
  end.

Definition seq_from (d : pyseq) (lo : Z) : pyseq :=
  match d with
  | PyBytes b => PyBytes (slice_from b lo)
  | PyStr s => PyStr (slice_from s lo)
  end.

(** ** [struct.unpack] and [struct.pack] *)

(** Big-endian unsigned value of a byte string. *)
Definition be_unsigned (bs : list byte) : Z :=
  fold_left (fun acc b => (acc * 256 + byteval b)%Z) bs 0%Z.

(** Two's complement reading of an unsigned [bits]-bit value. *)
Definition to_signed (bits x : Z) : Z :=
  if (x <? 2 ^ (bits - 1))%Z then x else (x - 2 ^ bits)%Z.

(** [struct.unpack(fmt, d)[0]] for a format of [size] bytes: a [str] argument
    is a [TypeError], a buffer of another size a [struct.error]. *)
Definition unpack (size : nat) (conv : Z -> Z) (d : pyseq) : res Z :=
  match d with
  | PyStr _ => Exn TypeError
  | PyBytes b =>
      if Nat.eqb (length b) size then Val (conv (be_unsigned b))
      else Exn struct_error
  end.

(** [struct.unpack('B', d)[0]] *)
Definition unpack_B : pyseq -> res Z := unpack 1 (fun x => x).
(** [struct.unpack('b', d)[0]] *)
Definition unpack_b : pyseq -> res Z := unpack 1 (to_signed 8).
(** [struct.unpack('>i', d)[0]] *)
Definition unpack_i : pyseq -> res Z := unpack 4 (to_signed 32).

(** [struct.pack('>i', n)] *)
Definition pack_i (n : Z) : res (list byte) :=
  if ((-2147483648 <=? n) && (n <=? 2147483647))%Z then
    let x := (n mod 2 ^ 32)%Z in
    Val [byte_of_Z (x / 2 ^ 24); byte_of_Z (x / 2 ^ 16);
         byte_of_Z (x / 2 ^ 8); byte_of_Z x]
  else Exn struct_error.

(** [struct.pack('b', n)] *)
Definition pack_b (n : Z) : res (list byte) :=
  if ((-128 <=? n) && (n <=? 127))%Z then Val [byte_of_Z n]
  else Exn struct_error.

(** ** [bytes.decode()]: strict UTF-8 *)

Definition between (lo x hi : N) : bool := ((lo <=? x) && (x <=? hi))%N.

(** Continuation byte. *)
Definition cont (x : N) : bool := between 128 x 191.

(** Allowed range of the second byte after a three-byte lead [x0] (no
    overlong forms, no surrogates). *)
Definition second3 (x0 x1 : N) : bool :=
  if (x0 =? 224)%N then between 160 x1 191
  else if (x0 =? 237)%N then between 128 x1 159
  else cont x1.

(** Allowed range of the second byte after a four-byte lead [x0] (no
    overlong forms, nothing above U+10FFFF). *)
Definition second4 (x0 x1 : N) : bool :=
  if (x0 =? 240)%N then between 144 x1 191
  else if (x0 =? 244)%N then between 128 x1 143
  else cont x1.

Fixpoint utf8_decode (bs : list byte) : option str :=
  match bs with
  | [] => Some []
  | b0 :: r0 =>
      let x0 := Byte.to_N b0 in
      if (x0 <? 128)%N then option_map (cons x0) (utf8_decode r0)
      else
        match r0 with
        | [] => None
        | b1 :: r1 =>
            let x1 := Byte.to_N b1 in
            if between 194 x0 223 then
              if cont x1
              then option_map (cons ((x0 - 192) * 64 + (x1 - 128))%N)
                              (utf8_decode r1)
              else None
            else
              match r1 with
              | [] => None
              | b2 :: r2 =>
                  let x2 := Byte.to_N b2 in
                  if between 224 x0 239 then
                    if second3 x0 x1 && cont x2
                    then option_map
                           (cons ((x0 - 224) * 4096 + (x1 - 128) * 64
                                  + (x2 - 128))%N)
                           (utf8_decode r2)
                    else None
                  else
                    match r2 with
                    | [] => None
                    | b3 :: r3 =>
                        let x3 := Byte.to_N b3 in
                        if between 240 x0 244 && second4 x0 x1
                           && cont x2 && cont x3
                        then option_map
                               (cons ((x0 - 240) * 262144 + (x1 - 128) * 4096
                                      + (x2 - 128) * 64 + (x3 - 128))%N)
                               (utf8_decode r3)
                        else None
                    end
              end
        end
  end.

(** [d.decode()]: only [bytes] has the method. *)
Definition bytes_decode (d : pyseq) : res str :=
  match d with
  | PyStr _ => Exn AttributeError
  | PyBytes b =>
      match utf8_decode b with
      | Some s => Val s
      | None => Exn UnicodeDecodeError
      end
  end.

(** ** [chr] mapped over a sequence *)

(** [chr(b)] of a byte. *)
Definition chr (b : byte) : N := Byte.to_N b.

(** ["".join(map(chr, list(value)))]: iterating [bytes] yields integers;
    iterating a [str] yields one-character strings, which [chr] rejects. *)
Definition join_map_chr (value : pyseq) : res str :=
  match value with
  | PyBytes b => Val (map chr b)
  | PyStr [] => Val []
  | PyStr (_ :: _) => Exn TypeError
  end.

(** ** [int(s)] on text

    Restricted to code points below 256, which is all that [chr] of a byte
    produces: optional white space, an optional sign, decimal digits that may
    be separated by single underscores, optional white space. *)

Definition is_space (c : N) : bool :=
  between 9 c 13 || (c =? 32)%N || (c =? 133)%N || (c =? 160)%N.

Definition is_digit (c : N) : bool := between 48 c 57.

Fixpoint skip_space (s : str) : str :=
  match s with
  | c :: r => if is_space c then skip_space r else s
  | [] => []
  end.

(** Scans the digits; [prev_us] tells that the previous character was an
    underscore. *)
Fixpoint scan_digits (s : str) (acc : Z) (prev_us : bool) : option (Z * str) :=
  match s with
  | c :: r =>
      if is_digit c then scan_digits r (acc * 10 + (Z.of_N c - 48))%Z false
      else if (c =? 95)%N then
             if prev_us then None else scan_digits r acc true
      else if prev_us then None else Some (acc, s)
  | [] => if prev_us then None else Some (acc, [])
  end.

Definition split_sign (s : str) : Z * str :=
  match s with
  | c :: r =>
      if (c =? 43)%N then (1%Z, r)
      else if (c =? 45)%N then ((-1)%Z, r)
      else (1%Z, s)
  | [] => (1%Z, [])
  end.

Definition int (s : str) : res Z :=
  let (sign, body) := split_sign (skip_space s) in
  match body with
  | c :: _ =>
      if is_digit c then
        match scan_digits body 0 false with
        | Some (n, rest) =>
            match skip_space rest with
            | [] => Val (sign * n)%Z
            | _ :: _ => Exn ValueError
            end
        | None => Exn ValueError
        end
      else Exn ValueError
  | [] => Exn ValueError
  end.

(** ** [str.split(sep)] for a one-character separator *)

Fixpoint split (sep : N) (s : str) : list str :=
  match s with
  | [] => [[]]
  | c :: r =>
      if (c =? sep)%N then [] :: split sep r
      else
        match split sep r with
        | w :: ws => (c :: w) :: ws
        | [] => [[c]]
        end
  end.

Fixpoint str_eqb (a b : str) : bool :=
  match a, b with
  | [], [] => true
  | x :: a', y :: b' => (x =? y)%N && str_eqb a' b'
  | _, _ => false
  end.

End Py.

(* ================================================================== *)
(** * class Protocol: the decoder *)
(* ================================================================== *)

Module Protocol.
Import Py.

(** ** Decoded values *)

(** The Python objects the decoders return: [None], [int], [str], the tuple
    of an info, the [list] of an array, and dictionaries ([WeechatDict] is an
    [OrderedDict]; the plain [dict] of an hdata or infolist also keeps
    insertion order).  A dictionary is the list of its items in insertion
    order. *)
Inductive value :=
| VNone
| VInt (z : Z)
| VStr (s : str)
| VTuple (vs : list value)
| VList (vs : list value)
| VDict (items : list (value * value)).

Definition list_eqb {A} (eqb : A -> A -> bool) : list A -> list A -> bool :=
  fix go (l1 l2 : list A) : bool :=
    match l1, l2 with
    | [], [] => true
    | x :: l1', y :: l2' => eqb x y && go l1' l2'
    | _, _ => false
    end.

(** Python's [==] on the values that can be dictionary keys. *)
Fixpoint value_eqb (a b : value) {struct a} : bool :=
  match a, b with
  | VNone, VNone => true
  | VInt x, VInt y => (x =? y)%Z
  | VStr s, VStr t => str_eqb s t
  | VTuple xs, VTuple ys => list_eqb value_eqb xs ys
  | VList xs, VList ys => list_eqb value_eqb xs ys
  | VDict xs, VDict ys =>
      list_eqb (fun p q : value * value =>
                  let (k, v) := p in
                  let (k', v') := q in
                  value_eqb k k' && value_eqb v v') xs ys
  | _, _ => false
  end.

(** Lists and dictionaries are unhashable; a tuple is hashable when its
    components are. *)
Fixpoint hashable (v : value) : bool :=
  match v with
  | VNone | VInt _ | VStr _ => true
  | VTuple vs => forallb hashable vs
  | VList _ | VDict _ => false
  end.

Definition WeechatDict := list (value * value).

(** [d[k] = v] on an ordered dictionary: an existing key keeps its place. *)
Fixpoint dict_update (d : WeechatDict) (k v : value) : WeechatDict :=
  match d with
  | [] => [(k, v)]
  | (k', v') :: r =>
      if value_eqb k' k then (k', v) :: r else (k', v') :: dict_update r k v
  end.

Definition setitem (d : WeechatDict) (k v : value) : res WeechatDict :=
  if hashable k then Val (dict_update d k v) else Exn TypeError.

(** [None] or a wrapped result. *)
Definition of_option {A} (inj : A -> value) (o : option A) : value :=
  match o with
  | Some a => inj a
  | None => VNone
  end.

(** ** The monad of the decoders: state [self.data], exceptions *)

Inductive outcome (A : Type) :=
| Ok (a : A) (data : pyseq)
| Raise (e : exn)
| OutOfFuel.
Arguments Raise {A} e.
Arguments OutOfFuel {A}.

Definition M (A : Type) := pyseq -> outcome A.

Definition ret {A} (a : A) : M A := fun data => Ok a data.

Definition bind {A B} (m : M A) (k : A -> M B) : M B :=
  fun data =>
    match m data with
    | Ok a data' => k a data'
    | Raise e => Raise e
    | OutOfFuel => OutOfFuel
    end.

Definition raise {A} (e : exn) : M A := fun _ => Raise e.
Definition out_of_fuel {A} : M A := fun _ => OutOfFuel.

(** Reads [self.data]. *)
Definition get : M pyseq := fun data => Ok data data.
(** [self.data = d] *)
Definition set (d : pyseq) : M unit := fun _ => Ok tt d.

(** A builtin call inside a decoder. *)
Definition lift {A} (r : res A) : M A :=
  match r with
  | Val a => ret a
  | Exn e => raise e
  end.

Declare Scope dec_scope.
Delimit Scope dec_scope with dec.
Notation "x <- m ;; k" := (bind m (fun x => k))
  (at level 61, m at next level, right associativity) : dec_scope.
Notation "m ;;; k" := (bind m (fun _ => k))
  (at level 61, right associativity) : dec_scope.
Local Open Scope dec_scope.

(** [for _ in range(n)] threading the variables the body updates. *)
Fixpoint for_range {S} (n : nat) (body : S -> M S) (acc : S) : M S :=
  match n with
  | O => ret acc
  | S n' => acc' <- body acc ;; for_range n' body acc'
  end.

(** [for x in l] threading the variables the body updates. *)
Fixpoint for_each {X S} (l : list X) (body : X -> S -> M S) (acc : S) : M S :=
  match l with
  | [] => ret acc
  | x :: l' => acc' <- body x acc ;; for_each l' body acc'
  end.

(** Number of iterations of [range(count)]. *)
Definition range (count : Z) : nat := Z.to_nat count.

(** ** Primitive decoders *)

(** Read type in data (3 chars). *)
Definition _obj_type : M str :=
  data <- get ;;
  if (len data <? 3)%nat then
    set (PyStr []) ;;; ret []
  else
    objtype <- lift (bytes_decode (seq_slice data 0 3)) ;;
    set (seq_from data 3) ;;;
    ret objtype.

(** Read an integer in data (4 bytes). *)
Definition _obj_int : M Z :=
  data <- get ;;
  if (len data <? 4)%nat then
    set (PyStr []) ;;; ret 0%Z
  else
    value <- lift (unpack_i (seq_slice data 0 4)) ;;
    set (seq_from data 4) ;;;
    ret value.

(** Read a char in data. *)
Definition _obj_char : M Z :=
  data <- get ;;
  if (len data <? 1)%nat then ret 0%Z
  else
    value <- lift (unpack_b (seq_slice data 0 1)) ;;
    set (seq_from data 1) ;;;
    ret value.

(** Read length (1 or 4 bytes), then value with this length. *)
Definition _obj_len_data (length_size : Z) : M (option str) :=
  data <- get ;;
  if (Z.of_nat (len data) <? length_size)%Z then
    set (PyStr []) ;;; ret None
  else
    length <- (if (length_size =? 1)%Z then
                 l <- lift (unpack_B (seq_slice data 0 1)) ;;
                 set (seq_from data 1) ;;;
                 ret l
               else _obj_int) ;;
    if (length <? 0)%Z then ret None
    else
      value <- (if (0 <? length)%Z then
                  data <- get ;;
                  set (seq_from data length) ;;;
                  ret (seq_slice data 0 length)
                else ret (PyStr [])) ;;
      text <- lift (join_map_chr value) ;;
      ret (Some text).

(** Read a long integer in data (length on 1 byte + value as string). *)
Definition _obj_long : M (option Z) :=
  value <- _obj_len_data 1 ;;
  match value with
  | None => ret None
  | Some value => n <- lift (int value) ;; ret (Some n)
  end.

(** Read a string in data (length on 4 bytes + content). *)
Definition _obj_str : M (option str) :=
  value <- _obj_len_data 4 ;;
  match value with
  | None => ret None
  | Some value => ret (Some value)
  end.

(** Read a buffer in data (length on 4 bytes + data). *)
Definition _obj_buffer : M (option str) := _obj_len_data 4.

(** Read a pointer in data (length on 1 byte + value as string). *)
Definition _obj_ptr : M (option str) :=
  value <- _obj_len_data 1 ;;
  match value with
  | None => ret None
  | Some value => ret (Some (u "0x" ++ value))
  end.

(** Read a time in data (length on 1 byte + value as string). *)
Definition _obj_time : M (option Z) :=
  value <- _obj_len_data 1 ;;
  match value with
  | None => ret None
  | Some value => n <- lift (int value) ;; ret (Some n)
  end.

(** ** Composite decoders

    A composite decoder calls other decoders through the table
    [self._obj_cb]; here the table is the argument [_obj_cb], a lookup that
    raises [KeyError] on a tag that is not in it. *)

(** [l[i]] on a list. *)
Definition getitem {A} (l : list A) (i : nat) : res A :=
  match nth_error l i with
  | Some a => Val a
  | None => Exn IndexError
  end.

(** [s.split(sep) if s else []] *)
Definition split_if (s : option str) (sep : N) : list str :=
  match s with
  | Some (c :: r) => split sep (c :: r)
  | _ => []
  end.

(** Read a hashtable in data
    (type for keys + type for values + count + items). *)
Definition _obj_hashtable (_obj_cb : str -> M value) : M value :=
  type_keys <- _obj_type ;;
  type_values <- _obj_type ;;
  count <- _obj_int ;;
  hashtable <- for_range (range count)
    (fun hashtable : WeechatDict =>
       key <- _obj_cb type_keys ;;
       value <- _obj_cb type_values ;;
       lift (setitem hashtable key value)) [] ;;
  ret (VDict hashtable).

(** The first loop of [_obj_hdata]: the declared [name:type] entries. *)
Definition hdata_keys (list_keys : list str)
  : M (list (list str) * WeechatDict) :=
  for_each list_keys
    (fun key (acc : list (list str) * WeechatDict) =>
       let (keys_types, dict_keys) := acc in
       let items := split 58 key in
       let keys_types := keys_types ++ [items] in
       name <- lift (getitem items 0) ;;
       type <- lift (getitem items 1) ;;
       dict_keys <- lift (setitem dict_keys (VStr name) (VStr type)) ;;
       ret (keys_types, dict_keys)) ([], []).

(** The pointers of one item: one per path segment. *)
Definition hdata_pointers (list_path : list str) : M (list value) :=
  for_each list_path
    (fun _ pointers =>
       p <- _obj_ptr ;;
       ret (pointers ++ [of_option VStr p])) [].

(** The fields of one item: [for key, objtype in keys_types]. *)
Definition hdata_fields (_obj_cb : str -> M value)
    (keys_types : list (list str)) (item : WeechatDict) : M WeechatDict :=
  for_each keys_types
    (fun entry item =>
       match entry with
       | [key; objtype] =>
           v <- _obj_cb objtype ;;
           lift (setitem item (VStr key) v)
       | _ => raise ValueError
       end) item.

(** The body of the item loop of [_obj_hdata]. *)
Definition hdata_item (_obj_cb : str -> M value) (list_path : list str)
    (keys_types : list (list str)) : M WeechatDict :=
  item <- lift (setitem [] (VStr (u "__path")) (VList [])) ;;
  pointers <- hdata_pointers list_path ;;
  item <- hdata_fields _obj_cb keys_types item ;;
  lift (setitem item (VStr (u "__path")) (VList pointers)).

(** Read a hdata in data. *)
Definition _obj_hdata (_obj_cb : str -> M value) : M value :=
  path <- _obj_str ;;
  keys <- _obj_str ;;
  count <- _obj_int ;;
  let list_path := split_if path 47 in
  let list_keys := split_if keys 44 in
  kd <- hdata_keys list_keys ;;
  let (keys_types, dict_keys) := kd : list (list str) * WeechatDict in
  items <- for_range (range count)
    (fun items =>
       item <- hdata_item _obj_cb list_path keys_types ;;
       ret (items ++ [VDict item])) [] ;;
  ret (VDict [(VStr (u "path"), VList (map VStr list_path));
              (VStr (u "keys"), VDict dict_keys);
              (VStr (u "count"), VInt count);
              (VStr (u "items"), VList items)]).

(** Read an info in data. *)
Definition _obj_info : M value :=
  name <- _obj_str ;;
  value <- _obj_str ;;
  ret (VTuple [of_option VStr name; of_option VStr value]).

(** Read an infolist in data. *)
Definition _obj_infolist (_obj_cb : str -> M value) : M value :=
  name <- _obj_str ;;
  count_items <- _obj_int ;;
  items <- for_range (range count_items)
    (fun items =>
       count_vars <- _obj_int ;;
       variables <- for_range (range count_vars)
         (fun variables : WeechatDict =>
            var_name <- _obj_str ;;
            var_type <- _obj_type ;;
            var_value <- _obj_cb var_type ;;
            lift (setitem variables (of_option VStr var_name) var_value)) [] ;;
       ret (items ++ [VDict variables])) [] ;;
  ret (VDict [(VStr (u "name"), of_option VStr name);
              (VStr (u "items"), VList items)]).

(** Read an array of values in data. *)
Definition _obj_array (_obj_cb : str -> M value) : M value :=
  type_values <- _obj_type ;;
  count_values <- _obj_int ;;
  values <- for_range (range count_values)
    (fun values =>
       v <- _obj_cb type_values ;;
       ret (values ++ [v])) [] ;;
  ret (VList values).

(** ** The table [self._obj_cb] *)

Inductive decoder :=
| D_char | D_int | D_long | D_str | D_buffer | D_ptr | D_time
| D_hashtable | D_hdata | D_info | D_infolist | D_array.

Definition _obj_cb_table : list (str * decoder) :=
  [ (u "chr", D_char); (u "int", D_int); (u "lon", D_long);
    (u "str", D_str); (u "buf", D_buffer); (u "ptr", D_ptr);
    (u "tim", D_time); (u "htb", D_hashtable); (u "hda", D_hdata);
    (u "inf", D_info); (u "inl", D_infolist); (u "arr", D_array) ].

Fixpoint lookup (table : list (str * decoder)) (objtype : str)
  : option decoder :=
  match table with
  | [] => None
  | (k, d) :: r => if str_eqb k objtype then Some d else lookup r objtype
  end.

Definition fmap {A B} (f : A -> B) (m : M A) : M B :=
  a <- m ;; ret (f a).

(** [self._obj_cb[objtype]()].  The composite decoders call back into the
    table; [fuel] bounds the depth of that nesting. *)
Fixpoint _obj_cb (fuel : nat) (objtype : str) : M value :=
  match lookup _obj_cb_table objtype with
  | None => raise KeyError
  | Some D_char => fmap VInt _obj_char
  | Some D_int => fmap VInt _obj_int
  | Some D_long => fmap (of_option VInt) _obj_long
  | Some D_str => fmap (of_option VStr) _obj_str
  | Some D_buffer => fmap (of_option VStr) _obj_buffer
  | Some D_ptr => fmap (of_option VStr) _obj_ptr
  | Some D_time => fmap (of_option VInt) _obj_time
  | Some D_info => _obj_info
  | Some D_hashtable =>
      match fuel with
      | O => out_of_fuel
      | S fuel' => _obj_hashtable (_obj_cb fuel')
      end
  | Some D_hdata =>
      match fuel with
      | O => out_of_fuel
      | S fuel' => _obj_hdata (_obj_cb fuel')
      end
  | Some D_infolist =>
      match fuel with
      | O => out_of_fuel
      | S fuel' => _obj_infolist (_obj_cb fuel')
      end
  | Some D_array =>
      match fuel with
      | O => out_of_fuel
      | S fuel' => _obj_array (_obj_cb fuel')
      end
  end.

(** ** Messages *)

Record WeechatObject := mkWeechatObject {
  objtype : str;
  value_of : value;
  obj_separator : str
}.

Record WeechatMessage := mkWeechatMessage {
  size : Z;
  size_uncompressed : Z;
  compression : Z;
  uncompressed : pyseq;
  msgid : str;
  objects : list WeechatObject
}.

(** [str(b)] of a [bytes] object, as [%s] formats it: its [repr]. *)
Definition hexdigit (n : N) : N := if (n <? 10)%N then (48 + n)%N else (87 + n)%N.

Definition repr_byte (quote : N) (b : byte) : str :=
  let x := Byte.to_N b in
  if (x =? quote)%N then [92; quote]%N
  else if (x =? 92)%N then [92; 92]%N
  else if (x =? 9)%N then [92; 116]%N
  else if (x =? 10)%N then [92; 110]%N
  else if (x =? 13)%N then [92; 114]%N
  else if ((x <? 32) || (127 <=? x))%N
       then [92; 120; hexdigit (x / 16); hexdigit (x mod 16)]%N
  else [x].

Definition repr_bytes (b : list byte) : str :=
  let has c := existsb (fun y => (Byte.to_N y =? c)%N) b in
  let quote := if has 39%N && negb (has 34%N) then 34%N else 39%N in
  (98 :: quote :: flat_map (repr_byte quote) b ++ [quote])%N.

Section Decode.

(** [zlib.decompress], from the zlib library. *)
Variable zlib_decompress : list byte -> res (list byte).

Definition decompress (d : pyseq) : res (list byte) :=
  match d with
  | PyBytes b => zlib_decompress b
  | PyStr _ => Exn TypeError
  end.

(** The loop [while len(self.data) > 0] of [decode]. *)
Fixpoint decode_loop (fuel : nat) (cb : str -> M value) (separator : str)
    (objects : list WeechatObject) : M (list WeechatObject) :=
  data <- get ;;
  if (0 <? len data)%nat then
    match fuel with
    | O => out_of_fuel
    | S fuel' =>
        objtype <- _obj_type ;;
        value <- cb objtype ;;
        decode_loop fuel' cb separator
          (objects ++ [mkWeechatObject objtype value separator])
    end
  else ret objects.

(** Decode binary data and return list of objects. *)
Definition decode_body (fuel : nat) (separator : str) : M WeechatMessage :=
  data <- get ;;
  let size := Z.of_nat (len data) in
  compression <- lift (unpack_b (seq_slice data 4 5)) ;;
  su <- (if (compression =? 0)%Z then
           ret (size, data)
         else
           uncompressed <- lift (decompress (seq_from data 5)) ;;
           let size_uncompressed := (Z.of_nat (length uncompressed) + 5)%Z in
           header <- lift (pack_i size_uncompressed) ;;
           flag <- lift (pack_b 0) ;;
           let uncompressed :=
             PyStr (repr_bytes header ++ repr_bytes flag
                    ++ repr_bytes uncompressed) in
           set uncompressed ;;;
           ret (size_uncompressed, uncompressed)) ;;
  let (size_uncompressed, uncompressed) := su : Z * pyseq in
  data <- get ;;
  set (seq_from data 5) ;;;
  msgid <- _obj_str ;;
  let msgid := match msgid with None => [] | Some s => s end in
  objects <- decode_loop fuel (_obj_cb fuel) separator [] ;;
  ret (mkWeechatMessage size size_uncompressed compression uncompressed
         msgid objects).

(** [Protocol.decode(data, separator)]: [self.data = data], then the body.
    One unit of fuel per byte of the message is enough for the loop and for
    the nesting of composite values. *)
Definition decode (data : pyseq) (separator : str) : outcome WeechatMessage :=
  decode_body (S (len data)) separator data.

End Decode.

End Protocol.

(* ================================================================== *)
(** * class Py3status: the frame reader *)
(* ================================================================== *)

Module Py3status.
Import Py.

(** What one call [sock.recv(1024)] does on the non-blocking socket: it
    returns a chunk of bytes or raises [socket.error] with an [errno]. *)
Inductive recv_event :=
| Recv (chunk : list byte)
| RecvError (errno : Z).

Definition EWOULDBLOCK : Z := 11.

(** The loop [while continue_recv] over the successive outcomes of [recv].
    Only an exception ends the loop: [None] tells that the listed outcomes
    ran out with the loop still reading. *)
Fixpoint recv_loop (sock : list recv_event) (buffer : list byte)
  : option (res (list byte)) :=
  match sock with
  | [] => None
  | Recv chunk :: sock' => recv_loop sock' (buffer ++ chunk)
  | RecvError errno :: _ =>
      if (errno =? EWOULDBLOCK)%Z then Some (Val buffer)
      else Some (Exn (socket_error errno))
  end.

(** [_receive(sock)]; [ready] tells whether [select] reported the socket. *)
Definition _receive (ready : bool) (sock : list recv_event)
  : option (res (list byte)) :=
  match (if ready then recv_loop sock [] else Some (Val [])) with
  | None => None
  | Some (Exn e) => Some (Exn e)
  | Some (Val buffer) =>
      match unpack_i (PyBytes (slice buffer 0 4)) with
      | Exn e => Some (Exn e)
      | Val length => Some (Val (slice buffer 0 length))
      end
  end.

End Py3status.


(* ================================================================== *)
(** * class Py3status: counting and formatting *)
(* ================================================================== *)

Module Py3statusHotbar.
Import Py Protocol.

(** The symbols of the class. *)
Definition SOLID_CIRCLE : str := [11044%N].
Definition SINGLE_SPEECH_BUBBLE : str := [128489%N].
Definition DOUBLE_SPEECH_BUBBLE : str := [128490%N].
Definition MULTI_SPEECH_BUBBLE : str := [128491%N].
Definition ANGER_BUBBLE : str := [128495%N].
Definition THOUGHT_BUBBLE : str := [128492%N].

(** What [_organize] and [_format] can raise: the exceptions of the
    builtins, and [re.error] from [re.compile]. *)
Inductive failure :=
| Builtin (e : exn)
| re_error.

Definition bind_res {A B} (r : res A) (k : A -> res B) : res B :=
  match r with
  | Val a => k a
  | Exn e => Exn e
  end.

Notation "x <~ r ; k" := (bind_res r (fun x => k))
  (at level 61, r at next level, right associativity).

(** [sep.join(l)] *)
Fixpoint join (sep : str) (l : list str) : str :=
  match l with
  | [] => []
  | [x] => x
  | x :: r => x ++ sep ++ join sep r
  end.

(** A dictionary with [str] keys, in insertion order: [server_colors], and
    the dictionaries of counts. *)
Fixpoint lookup_str {V} (d : list (str * V)) (k : str) : option V :=
  match d with
  | [] => None
  | (k', v) :: r => if str_eqb k' k then Some v else lookup_str r k
  end.

(** [k in d] *)
Definition mem_str {V} (d : list (str * V)) (k : str) : bool :=
  match lookup_str d k with
  | Some _ => true
  | None => false
  end.

(** The value of [d[k]] replaced. *)
Fixpoint replace_str {V} (d : list (str * V)) (k : str) (v : V)
  : list (str * V) :=
  match d with
  | [] => []
  | (k', v') :: r =>
      if str_eqb k' k then (k', v) :: r else (k', v') :: replace_str r k v
  end.

(** [l[k] = x] on a list, for an index in range. *)
Fixpoint list_set (l : list Z) (k : nat) (x : Z) : list Z :=
  match l, k with
  | [], _ => []
  | _ :: r, O => x :: r
  | y :: r, S k' => y :: list_set r k' x
  end.

(** [post_config_hook]: [self.servers = self.server_colors.keys()] *)
Definition post_config_hook (server_colors : list (str * str)) : list str :=
  map fst server_colors.

(** [x[key]] for a [str] key. *)
Definition subscript_str (x : value) (key : str) : res value :=
  match x with
  | VDict items =>
      match find (fun kv => value_eqb (fst kv) (VStr key)) items with
      | Some kv => Val (snd kv)
      | None => Exn KeyError
      end
  | _ => Exn TypeError
  end.

(** The elements that [for j in x] goes through. *)
Definition iterate (x : value) : res (list value) :=
  match x with
  | VList l | VTuple l => Val l
  | VDict items => Val (map fst items)
  | VStr s => Val (map (fun c => VStr [c]) s)
  | VInt _ | VNone => Exn TypeError
  end.

(** [j.get(key, default)]: only a dictionary has the method. *)
Definition get_method (j : value) (key : str) (default : value) : res value :=
  match j with
  | VDict items =>
      match find (fun kv => value_eqb (fst kv) (VStr key)) items with
      | Some kv => Val (snd kv)
      | None => Val default
      end
  | _ => Exn AttributeError
  end.

(** ['count_0' + str(k)] *)
Definition count_key (k : nat) : str := u "count_0" ++ [(48 + N.of_nat k)%N].

(** [l[k] += v] on a list of integers. *)
Definition add_at (l : list Z) (k : nat) (v : value) : res (list Z) :=
  match nth_error l k with
  | None => Exn IndexError
  | Some x =>
      match v with
      | VInt z => Val (list_set l k (x + z))
      | _ => Exn TypeError
      end
  end.

Definition count_dict := list (str * list Z).

(** [if name not in d: d[name] = [0, 0, 0]] *)
Definition ensure (d : count_dict) (name : str) : count_dict :=
  if mem_str d name then d else d ++ [(name, [0; 0; 0]%Z)].

(** [d[name][k] += v] *)
Definition bump (d : count_dict) (name : str) (k : nat) (v : value)
  : res count_dict :=
  match lookup_str d name with
  | None => Exn KeyError
  | Some l => l' <~ add_at l k v ; Val (replace_str d name l')
  end.

(** The counters that [_organize] builds and stores in [data]. *)
Record organized := mkOrganized {
  total_counts : list Z;
  buffer_counts : count_dict;
  server_counts : count_dict
}.

Section Organize.

(** [re.compile(pattern)]: [None] when the pattern does not compile
    ([re.error]), else the function that gives, for a subject, the groups 1
    and 2 of [search], or [None] when there is no match. *)
Variable re_compile : str -> option (str -> option (str * str)).

(** The pattern built from the server names. *)
Definition server_re (servers : list str) : str :=
  u "^(" ++ join (u "|") servers ++ u ")\.(.*)".

(** The loop [for k in [0,1,2]] for one matching item. *)
Fixpoint count_loop (ks : list nat) (j : value)
    (buffer_server_name buffer_short_name : str) (st : organized)
  : res organized :=
  match ks with
  | [] => Val st
  | k :: ks' =>
      v <~ get_method j (count_key k) (VInt 0) ;
      total <~ add_at (total_counts st) k v ;
      v <~ get_method j (count_key k) (VInt 0) ;
      buffers <~ bump (buffer_counts st) buffer_short_name k v ;
      v <~ get_method j (count_key k) (VInt 0) ;
      servers <~ bump (server_counts st) buffer_server_name k v ;
      count_loop ks' j buffer_server_name buffer_short_name
        (mkOrganized total buffers servers)
  end.

(** The body of [for j in i.value['items']]. *)
Definition organize_item (search : str -> option (str * str))
    (st : organized) (j : value) : res organized :=
  buffer_name <~ get_method j (u "buffer_name") (VStr (u "unknown")) ;
  matches <~ match buffer_name with
             | VStr s => Val (search s)
             | _ => Exn TypeError
             end ;
  match matches with
  | None => Val st
  | Some (buffer_server_name, buffer_short_name) =>
      let buffers := ensure (buffer_counts st) buffer_short_name in
      let servers := ensure (server_counts st) buffer_server_name in
      count_loop [0; 1; 2]%nat j buffer_server_name buffer_short_name
        (mkOrganized (total_counts st) buffers servers)
  end.

Fixpoint organize_items (search : str -> option (str * str))
    (st : organized) (js : list value) : res organized :=
  match js with
  | [] => Val st
  | j :: js' =>
      st' <~ organize_item search st j ; organize_items search st' js'
  end.

(** The body of [for i in hotbar_items]. *)
Definition organize_object (search : str -> option (str * str))
    (st : organized) (i : WeechatObject) : res organized :=
  items <~ subscript_str (value_of i) (u "items") ;
  js <~ iterate items ;
  organize_items search st js.

Fixpoint organize_objects (search : str -> option (str * str))
    (st : organized) (hotbar_items : list WeechatObject) : res organized :=
  match hotbar_items with
  | [] => Val st
  | i :: rest =>
      st' <~ organize_object search st i ; organize_objects search st' rest
  end.

(** [_organize(data)] for [data['message'] = message]: the counters it
    stores in [data] (it also sets [data['message'] = {}] and leaves
    [data['status']]), or what it raises. *)
Definition _organize (servers : list str) (message : WeechatMessage)
  : organized + failure :=
  match re_compile (server_re servers) with
  | None => inr re_error
  | Some search =>
      match organize_objects search
              (mkOrganized [0; 0; 0]%Z [] []) (objects message) with
      | Val st => inl st
      | Exn e => inr (Builtin e)
      end
  end.

End Organize.

(** One entry of the composite: [{'full_text': text, 'color': color}]. *)
Definition colored (text color : str) : value :=
  VDict [(VStr (u "full_text"), VStr text); (VStr (u "color"), VStr color)].

(** [{'full_text': ' '}] *)
Definition blank : value := VDict [(VStr (u "full_text"), VStr (u " "))].

(** The chain of tests on [data['server_counts'][server]]. *)
Definition bubble (c : list Z) : res str :=
  c2 <~ getitem c 2 ;
  if negb (c2 =? 0)%Z then Val ANGER_BUBBLE
  else
    c1 <~ getitem c 1 ;
    if (c1 =? 1)%Z then Val SINGLE_SPEECH_BUBBLE
    else if (c1 =? 2)%Z then Val DOUBLE_SPEECH_BUBBLE
    else if (2 <? c1)%Z then Val MULTI_SPEECH_BUBBLE
    else
      c0 <~ getitem c 0 ;
      if negb (c0 =? 0)%Z then Val THOUGHT_BUBBLE
      else Val SOLID_CIRCLE.

(** [self.server_colors[server]] *)
Definition color_of (server_colors : list (str * str)) (server : str)
  : res str :=
  match lookup_str server_colors server with
  | Some c => Val c
  | None => Exn KeyError
  end.

(** The loop [for server in self.servers] of [_format]. *)
Fixpoint format_loop (server_colors : list (str * str)) (data : organized)
    (servers : list str) (composite : list value) : res (list value) :=
  match servers with
  | [] => Val composite
  | server :: rest =>
      text <~ match lookup_str (server_counts data) server with
              | Some c => bubble c
              | None => Val SOLID_CIRCLE
              end ;
      color <~ color_of server_colors server ;
      format_loop server_colors data rest
        (composite ++ [colored text color] ++ [blank])
  end.

(** [_format(data)]: the list it stores under [data['composite']]. *)
Definition _format (servers : list str) (server_colors : list (str * str))
    (data : organized) : res (list value) :=
  composite <~ format_loop server_colors data servers [] ;
  match composite with
  | [] => Exn IndexError
  | _ :: _ => Val (removelast composite)
  end.

End Py3statusHotbar.
Import Py Protocol Py3status.
Local Open Scope dec_scope.

(** The default [separator] of [decode]. *)
Definition newline : str := [10%N].

(* ================================================================== *)
(** * Vocabulary of the statements *)
(* ================================================================== *)

(** The 32-bit big-endian signed integer held by four bytes. *)
Definition int32 (a b c e : byte) : Z := to_signed 32 (be_unsigned [a; b; c; e]).

(** What [_obj_len_data] does once the length is known. *)
Definition take_value (length : Z) : M (option str) :=
  value <- (if (0 <? length)%Z then
              data <- get ;;
              set (seq_from data length) ;;;
              ret (seq_slice data 0 length)
            else ret (PyStr [])) ;;
  text <- lift (join_map_chr value) ;;
  ret (Some text).

(** A byte below 0x80. *)
Definition ascii_byte (b : byte) : Prop := (Byte.to_N b < 128)%N.


(** A decompressor that accepts no stream.  A frame whose compression flag
    is 0 never reaches the decompressor. *)
Definition no_decompress : list byte -> res (list byte) :=
  fun _ => Exn zlib_error.

(** What [decode] does after the 5-byte header of an uncompressed frame:
    the message id, then the objects. *)
Definition decode_payload (fuel : nat) (separator : str)
    (size : Z) (frame : pyseq) : M WeechatMessage :=
  msgid <- _obj_str ;;
  let msgid := match msgid with None => [] | Some s => s end in
  objects <- decode_loop fuel (_obj_cb fuel) separator [] ;;
  ret (mkWeechatMessage size size 0 frame msgid objects).

(** The (tag, value) pairs of a message, in order. *)
Definition tagged_values (m : WeechatMessage) : list (str * value) :=
  map (fun o => (objtype o, value_of o)) (objects m).



(** The pairs inserted one by one into a dictionary. *)
Definition insert_all (pairs : list (value * value)) (d : WeechatDict)
  : WeechatDict :=
  fold_left (fun h kv => dict_update h (fst kv) (snd kv)) pairs d.

(** The keys of a dictionary in iteration order. *)
Definition dict_keys_of (d : WeechatDict) : list value := map fst d.

(** The three header fields of an hdata: path, keys, item count. *)
Definition hdata_header : M (option str * option str * Z) :=
  path <- _obj_str ;;
  keys <- _obj_str ;;
  count <- _obj_int ;;
  ret (path, keys, count).

(** The declared [name:type] entries of the keys string, each split at the
    colons. *)
Definition declared (keys : option str) : list (list str) :=
  map (split 58) (split_if keys 44).

Definition decl_name (entry : list str) : str := nth 0 entry [].
Definition decl_type (entry : list str) : str := nth 1 entry [].

(** The decoders of a list run one after the other on the cursor. *)
Fixpoint decode_seq (ms : list (M value)) : M (list value) :=
  match ms with
  | [] => ret []
  | m :: ms' => v <- m ;; vs <- decode_seq ms' ;; ret (v :: vs)
  end.

(** A pointer as an object. *)
Definition pointer_value : M value := fmap (of_option VStr) _obj_ptr.

(** An item as the declaration describes it: one pointer per path segment
    in path order, then one field per declared entry in declared order, each
    by the decoder of its declared type; the item lists the pointers under
    [__path] and then the fields under their names. *)
Definition item_by_declaration (cb : str -> M value) (list_path : list str)
    (entries : list (list str)) : M WeechatDict :=
  pointers <- decode_seq (map (fun _ => pointer_value) list_path) ;;
  fields <- decode_seq (map (fun entry => cb (decl_type entry)) entries) ;;
  ret ((VStr (u "__path"), VList pointers)
       :: combine (map (fun entry => VStr (decl_name entry)) entries) fields).

Fixpoint items_by_declaration (cb : str -> M value) (list_path : list str)
    (entries : list (list str)) (n : nat) : M (list WeechatDict) :=
  match n with
  | O => ret []
  | S n' =>
      item <- item_by_declaration cb list_path entries ;;
      items <- items_by_declaration cb list_path entries n' ;;
      ret (item :: items)
  end.

(** The shape of an item of an hdata with the path [list_path] and the
    declared [names]. *)
Definition item_shape (list_path names : list str) (item : WeechatDict)
  : Prop :=
  exists pointers fields,
    item = (VStr (u "__path"), VList pointers)
           :: combine (map VStr names) fields /\
    length pointers = length list_path /\
    length fields = length names.

(** A decoder that never leaves the cursor longer than it found it. *)
Definition shrinks {A} (m : M A) : Prop :=
  forall d a d', m d = Ok a d' -> (len d' <= len d)%nat.

(** A decoder that does not run out of fuel on a cursor of at most [n]
    elements. *)
Definition runs_upto {A} (n : nat) (m : M A) : Prop :=
  forall d, (len d <= n)%nat -> m d <> OutOfFuel.

(** A decoder that never runs out of fuel. *)
Definition runs {A} (m : M A) : Prop := forall d, m d <> OutOfFuel.

(** The hdata with the path ["a/b"], the keys ["x:int,y:str"] and one item
    with the pointers 0x1 and 0x2, x = 7 and y = "hi". *)
Definition hdata_sample : list byte :=
  [x00; x00; x00; x03; x61; x2f; x62; x00; x00; x00; x0b; x78;
   x3a; x69; x6e; x74; x2c; x79; x3a; x73; x74; x72; x00; x00;
   x00; x01; x01; x31; x01; x32; x00; x00; x00; x07; x00; x00;
   x00; x02; x68; x69].

(** The payload of the frame of the end-to-end scenario: a null message id,
    the tag [int], the value 42. *)
Definition sample_payload : list byte :=
  [xff; xff; xff; xff; x69; x6e; x74; x00; x00; x00; x2a].

(** The zlib stream of [sample_payload]. *)
Definition sample_stream : list byte :=
  [x78; x9c; xfb; xff; xff; xff; xff; xcc; xbc; x12; x06; x06; x06; x2d;
   x00; x2d; xc6; x05; x72].

(** [zlib.decompress] restricted to the one stream used here. *)
Definition sample_inflate (stream : list byte) : res (list byte) :=
  if list_eqb Byte.eqb stream sample_stream then Val sample_payload
  else Exn zlib_error.

(** A cursor as the decoders keep it: a [bytes] object, or the empty [str]
    that an underflow leaves. *)
Definition cursor (d : pyseq) : Prop :=
  d = PyStr [] \/ exists b, d = PyBytes b.

(** A decoder that returns on every cursor, with a result in [P], and leaves
    a cursor. *)
Definition returns {A} (P : A -> Prop) (m : M A) : Prop :=
  forall d, cursor d -> exists a d', m d = Ok a d' /\ P a /\ cursor d'.

(** The property that holds of every result. *)
Definition any {A} (_ : A) : Prop := True.

(** The tags of the decoders that accept any bytes: [chr], [int], [str],
    [buf] and [ptr]. *)
Definition plain_tag (t : str) : bool :=
  existsb (str_eqb t) [u "chr"; u "int"; u "str"; u "buf"; u "ptr"].

(** A declared entry [name:type] of an hdata with a plain type. *)
Definition plain_entry (entry : list str) : Prop :=
  exists name type, entry = [name; type] /\ plain_tag type = true.


Import Py3statusHotbar.

(** The number that a run of ASCII decimal digits writes in base 10. *)
Definition decimal_of_bytes (content : list byte) : Z :=
  fold_left (fun acc b => (acc * 10 + (byteval b - 48))%Z) content 0%Z.

(** An ASCII decimal digit. *)
Definition digit_byte (b : byte) : Prop := (48 <= byteval b <= 57)%Z.

(** The header of an array: element type and count. *)
Definition array_header : M (str * Z) :=
  type_values <- _obj_type ;;
  count_values <- _obj_int ;;
  ret (type_values, count_values).

(** One variable of an infolist item: its name, its type tag, its value by
    the decoder of that tag. *)
Definition read_variable (cb : str -> M value) : M (value * value) :=
  var_name <- _obj_str ;;
  var_type <- _obj_type ;;
  var_value <- cb var_type ;;
  ret (of_option VStr var_name, var_value).

(** [n] results of a decoder run one after the other. *)
Fixpoint read_n {A} (m : M A) (n : nat) : M (list A) :=
  match n with
  | O => ret []
  | S n' => a <- m ;; rest <- read_n m n' ;; ret (a :: rest)
  end.

(** The variables of one infolist item, as the wire has them: the count,
    then that many variables. *)
Definition read_item_variables (cb : str -> M value)
  : M (list (value * value)) :=
  count_vars <- _obj_int ;;
  read_n (read_variable cb) (range count_vars).

(** The header of an infolist: name and item count. *)
Definition infolist_header : M (option str * Z) :=
  name <- _obj_str ;;
  count_items <- _obj_int ;;
  ret (name, count_items).

(** An array of two [int]s, 7 and 9. *)
Definition array_sample : list byte :=
  [x69; x6e; x74; x00; x00; x00; x02;
   x00; x00; x00; x07; x00; x00; x00; x09].

(** An infolist named "hl" with one item of two variables: the string
    [buffer_name] = "a.b" and the int [count_00] = 4. *)
Definition infolist_sample : list byte :=
  [x00; x00; x00; x02; x68; x6c; x00; x00; x00; x01; x00; x00; x00; x02;
   x00; x00; x00; x0b; x62; x75; x66; x66; x65; x72; x5f; x6e; x61; x6d; x65;
   x73; x74; x72; x00; x00; x00; x03; x61; x2e; x62;
   x00; x00; x00; x08; x63; x6f; x75; x6e; x74; x5f; x30; x30;
   x69; x6e; x74; x00; x00; x00; x04].

(** The sum of the [k]-th counts of a dictionary of counts. *)
Definition column_sum (k : nat) (d : count_dict) : Z :=
  fold_right (fun kv acc => (nth k (snd kv) 0 + acc)%Z) 0%Z d.

(** A list of three counts. *)
Definition three (l : list Z) : Prop := length l = 3%nat.

(** The counters as [_organize] keeps them: three totals, three counts for
    every buffer and every server, no name twice. *)
Definition well_formed (st : organized) : Prop :=
  three (total_counts st) /\
  Forall (fun kv => three (snd kv)) (buffer_counts st) /\
  Forall (fun kv => three (snd kv)) (server_counts st) /\
  NoDup (map fst (buffer_counts st)) /\
  NoDup (map fst (server_counts st)).

(** Each total is the sum over the buffers and the sum over the servers. *)
Definition balanced (st : organized) : Prop :=
  forall k,
    nth k (total_counts st) 0%Z = column_sum k (buffer_counts st) /\
    nth k (total_counts st) 0%Z = column_sum k (server_counts st).

(** What [_organize] keeps true of its counters. *)
Definition invariant (st : organized) : Prop := well_formed st /\ balanced st.

(** The counters before any item is counted. *)
Definition no_counts : organized := mkOrganized [0; 0; 0]%Z [] [].

(** A list with a separator between its elements. *)
Fixpoint intersperse {A} (sep : A) (l : list A) : list A :=
  match l with
  | [] => []
  | [x] => [x]
  | x :: r => x :: sep :: intersperse sep r
  end.

(** The symbol of three counts [low, message, highlight]. *)
Definition symbol (c : list Z) : str :=
  if negb (nth 2 c 0 =? 0)%Z then ANGER_BUBBLE
  else if (nth 1 c 0 =? 1)%Z then SINGLE_SPEECH_BUBBLE
  else if (nth 1 c 0 =? 2)%Z then DOUBLE_SPEECH_BUBBLE
  else if (2 <? nth 1 c 0)%Z then MULTI_SPEECH_BUBBLE
  else if negb (nth 0 c 0 =? 0)%Z then THOUGHT_BUBBLE
  else SOLID_CIRCLE.

(** The entry of a server in the composite. *)
Definition server_entry (data : organized) (sc : str * str) : value :=
  colored
    (match lookup_str (server_counts data) (fst sc) with
     | Some c => symbol c
     | None => SOLID_CIRCLE
     end) (snd sc).

(** A matcher that takes the text before the first dot as the server and
    the text after it as the buffer. *)
Definition first_dot_search (s : str) : option (str * str) :=
  match split 46 s with
  | server :: short :: _ => Some (server, short)
  | _ => None
  end.

(** A message with one infolist of two items: 3 highlights in "a.x" and 1
    message in "b.y". *)
Definition hotlist_sample : WeechatMessage :=
  mkWeechatMessage 0 0 0 (PyBytes []) []
    [mkWeechatObject (u "inl")
       (VDict [(VStr (u "name"), VStr (u "hotlist"));
               (VStr (u "items"),
                VList [VDict [(VStr (u "buffer_name"), VStr (u "a.x"));
                              (VStr (u "count_02"), VInt 3)];
                       VDict [(VStr (u "buffer_name"), VStr (u "b.y"));
                              (VStr (u "count_01"), VInt 1)]])])
       [10%N]].

(** What [_organize] needs of an object: a dictionary with an [items]
    entry that can be iterated and holds dictionaries only, the
    [buffer_name] of each, when it has one, being a [str]. *)
Definition countable (i : WeechatObject) : Prop :=
  exists d items js,
    value_of i = VDict d /\
    subscript_str (value_of i) (u "items") = Val items /\
    iterate items = Val js /\
    Forall (fun j => exists fields name,
                j = VDict fields /\
                get_method j (u "buffer_name") (VStr (u "unknown"))
                = Val (VStr name)) js.

(** The items that [_organize] goes through for one object. *)
Definition items_of (i : WeechatObject) : list value :=
  match subscript_str (value_of i) (u "items") with
  | Val items =>
      match iterate items with
      | Val js => js
      | Exn _ => []
      end
  | Exn _ => []
  end.

(** An item whose [buffer_name] the pattern matches. *)
Definition matched (search : str -> option (str * str)) (j : value) : bool :=
  match get_method j (u "buffer_name") (VStr (u "unknown")) with
  | Val (VStr s) =>
      match search s with
      | Some _ => true
      | None => false
      end
  | _ => false
  end.

(** The items of a message whose [buffer_name] the pattern matches, in the
    order of the message. *)
Definition matching_items (search : str -> option (str * str))
    (message : WeechatMessage) : list value :=
  filter (matched search) (flat_map items_of (objects message)).

(** The [k]-th count of an item: [j.get('count_0k', 0)]. *)
Definition count_of (k : nat) (j : value) : Z :=
  match get_method j (count_key k) (VInt 0) with
  | Val (VInt z) => z
  | _ => 0%Z
  end.

(** The sum of the [k]-th counts of a list of items. *)
Definition counted (k : nat) (js : list value) : Z :=
  fold_right (fun j acc => (count_of k j + acc)%Z) 0%Z js.

(** A message with one infolist of three items: 3 highlights in "a.x", 5
    low-priority lines in "core", whose name has no dot, and 1 message in
    "b.y". *)
Definition mixed_hotlist_sample : WeechatMessage :=
  mkWeechatMessage 0 0 0 (PyBytes []) []
    [mkWeechatObject (u "inl")
       (VDict [(VStr (u "name"), VStr (u "hotlist"));
               (VStr (u "items"),
                VList [VDict [(VStr (u "buffer_name"), VStr (u "a.x"));
                              (VStr (u "count_02"), VInt 3)];
                       VDict [(VStr (u "buffer_name"), VStr (u "core"));
                              (VStr (u "count_00"), VInt 5)];
                       VDict [(VStr (u "buffer_name"), VStr (u "b.y"));
                              (VStr (u "count_01"), VInt 1)]])])
       [10%N]].

(* ================================================================== *)
(** * Facts about the builtins *)
(* ================================================================== *)

Section Slices.
Context {A : Type}.
Implicit Types l : list A.

Lemma clamp_nonneg n i : (0 <= i)%Z -> clamp n i = Z.min i n.
Proof. intros H. unfold clamp. destruct (Z.ltb_spec i 0); [lia | reflexivity]. Qed.

Lemma slice_prefix l (n : Z) :
  (0 <= n)%Z -> slice l 0 n = firstn (Z.to_nat n) l.
Proof.
  intros Hn. unfold slice.
  rewrite (clamp_nonneg _ Hn), (@clamp_nonneg _ 0%Z) by lia.
  assert (H0 : Z.min 0 (Z.of_nat (length l)) = 0%Z) by lia.
  rewrite H0. change (Z.to_nat 0) with O. cbn [skipn]. rewrite Z.sub_0_r.
  destruct (Z.le_ge_cases n (Z.of_nat (length l))) as [Hle | Hge].
  - rewrite Z.min_l by assumption. reflexivity.
  - rewrite Z.min_r by assumption. rewrite Nat2Z.id.
    rewrite firstn_all. symmetry. apply firstn_all2. lia.
Qed.

Lemma slice_from_nonneg l (n : Z) :
  (0 <= n)%Z -> slice_from l n = skipn (Z.to_nat n) l.
Proof.
  intros Hn. unfold slice_from. rewrite (clamp_nonneg _ Hn).
  destruct (Z.le_ge_cases n (Z.of_nat (length l))) as [Hle | Hge].
  - rewrite Z.min_l by assumption. reflexivity.
  - rewrite Z.min_r by assumption. rewrite Nat2Z.id.
    rewrite skipn_all. symmetry. apply skipn_all2. lia.
Qed.

Lemma slice_window l (lo hi : Z) :
  (0 <= lo <= hi)%Z ->
  slice l lo hi = firstn (Z.to_nat (hi - lo)) (skipn (Z.to_nat lo) l).
Proof.
  intros H. unfold slice. rewrite !clamp_nonneg by lia.
  set (n := Z.of_nat (length l)).
  destruct (Z.le_ge_cases lo n) as [Hlo | Hlo].
  - rewrite (Z.min_l lo n) by assumption.
    destruct (Z.le_ge_cases hi n) as [Hhi | Hhi].
    + rewrite Z.min_l by assumption. reflexivity.
    + rewrite Z.min_r by assumption.
      rewrite !firstn_all2; try reflexivity;
        rewrite length_skipn; subst n; lia.
  - rewrite !Z.min_r by lia. subst n.
    rewrite Z.sub_diag, Nat2Z.id, skipn_all.
    rewrite (skipn_all2 (n := Z.to_nat lo)) by lia.
    now rewrite !firstn_nil.
Qed.

End Slices.

Lemma byteval_range b : (0 <= byteval b < 256)%Z.
Proof.
  unfold byteval. pose proof (Byte.to_N_bounded b) as H.
  split; [apply N2Z.is_nonneg | lia].
Qed.

Lemma str_eqb_eq a b : str_eqb a b = true <-> a = b.
Proof.
  revert b. induction a as [| x a IH]; intros [| y b]; cbn; split;
    try congruence; try reflexivity.
  - intros H. apply andb_true_iff in H as [Hx Hr].
    apply N.eqb_eq in Hx. apply IH in Hr. congruence.
  - intros H. inversion H; subst. rewrite N.eqb_refl. cbn. now apply IH.
Qed.

Lemma str_eqb_refl a : str_eqb a a = true.
Proof. now apply str_eqb_eq. Qed.

Lemma str_eqb_neq a b : a <> b -> str_eqb a b = false.
Proof.
  intros H. destruct (str_eqb a b) eqn:E; [| reflexivity].
  apply str_eqb_eq in E. contradiction.
Qed.

(* ================================================================== *)
(** * The primitive decoders on a given cursor *)
(* ================================================================== *)

Section Primitives.


Lemma obj_type_short d : (len d < 3)%nat -> _obj_type d = Ok [] (PyStr []).
Proof.
  intros H. apply Nat.ltb_lt in H.
  unfold _obj_type, bind, get. rewrite H. reflexivity.
Qed.

Lemma obj_int_short d : (len d < 4)%nat -> _obj_int d = Ok 0%Z (PyStr []).
Proof.
  intros H. apply Nat.ltb_lt in H.
  unfold _obj_int, bind, get. rewrite H. reflexivity.
Qed.

Lemma obj_char_short d : (len d < 1)%nat -> _obj_char d = Ok 0%Z d.
Proof.
  intros H. apply Nat.ltb_lt in H.
  unfold _obj_char, bind, get. rewrite H. reflexivity.
Qed.

Lemma obj_len_data_short n d :
  (Z.of_nat (len d) < n)%Z -> _obj_len_data n d = Ok None (PyStr []).
Proof.
  intros H. apply Z.ltb_lt in H.
  unfold _obj_len_data, bind, get. rewrite H. reflexivity.
Qed.

Lemma obj_int_bytes a b c e rest :
  _obj_int (PyBytes (a :: b :: c :: e :: rest))
  = Ok (int32 a b c e) (PyBytes rest).
Proof.
  unfold _obj_int, bind, get. cbn [len length Nat.ltb Nat.leb].
  unfold seq_slice, seq_from.
  rewrite slice_prefix, slice_from_nonneg by lia.
  reflexivity.
Qed.

Lemma obj_char_bytes b rest :
  _obj_char (PyBytes (b :: rest)) = Ok (to_signed 8 (byteval b)) (PyBytes rest).
Proof.
  unfold _obj_char, bind, get. cbn [len length Nat.ltb Nat.leb].
  unfold seq_slice, seq_from.
  rewrite slice_prefix, slice_from_nonneg by lia.
  reflexivity.
Qed.

Lemma obj_type_bytes a b c rest :
  _obj_type (PyBytes (a :: b :: c :: rest))
  = match utf8_decode [a; b; c] with
    | Some t => Ok t (PyBytes rest)
    | None => Raise UnicodeDecodeError
    end.
Proof.
  unfold _obj_type, bind, get. cbn [len length Nat.ltb Nat.leb].
  unfold seq_slice, seq_from.
  rewrite slice_prefix, slice_from_nonneg by lia.
  change (firstn (Z.to_nat 3) (a :: b :: c :: rest)) with [a; b; c].
  unfold bytes_decode. destruct (utf8_decode [a; b; c]); reflexivity.
Qed.


Lemma take_value_bytes length rest :
  (0 <= length)%Z ->
  take_value length (PyBytes rest)
  = Ok (Some (map chr (firstn (Z.to_nat length) rest)))
       (PyBytes (skipn (Z.to_nat length) rest)).
Proof.
  intros H. unfold take_value, bind.
  destruct (Z.ltb_spec 0 length) as [Hpos | Hzero].
  - unfold get, set, ret, seq_slice, seq_from.
    rewrite slice_prefix, slice_from_nonneg by lia. reflexivity.
  - assert (length = 0%Z) by lia. subst. reflexivity.
Qed.

Lemma obj_len_data_1 b rest :
  _obj_len_data 1 (PyBytes (b :: rest))
  = Ok (Some (map chr (firstn (Z.to_nat (byteval b)) rest)))
       (PyBytes (skipn (Z.to_nat (byteval b)) rest)).
Proof.
  pose proof (byteval_range b) as Hb.
  unfold _obj_len_data. unfold bind at 1. unfold get at 1.
  assert (Hlen : (Z.of_nat (len (PyBytes (b :: rest))) <? 1)%Z = false).
  { apply Z.ltb_ge. cbn [len length]. lia. }
  rewrite Hlen. change (1 =? 1)%Z with true. cbv iota.
  unfold bind at 1. unfold bind at 1.
  unfold seq_slice, seq_from.
  rewrite slice_prefix, slice_from_nonneg by lia.
  change (lift (unpack_B (PyBytes (firstn (Z.to_nat 1) (b :: rest))))
            (PyBytes (b :: rest)))
    with (Ok (byteval b) (PyBytes (b :: rest))).
  cbv beta iota. unfold bind at 1. unfold set at 1. cbv beta iota.
  unfold ret at 1.
  assert (Hneg : (byteval b <? 0)%Z = false) by (apply Z.ltb_ge; lia).
  rewrite Hneg. change (skipn (Z.to_nat 1) (b :: rest)) with rest.
  apply take_value_bytes. lia.
Qed.

Lemma obj_len_data_4 a b c e rest :
  _obj_len_data 4 (PyBytes (a :: b :: c :: e :: rest))
  = if (int32 a b c e <? 0)%Z then Ok None (PyBytes rest)
    else Ok (Some (map chr (firstn (Z.to_nat (int32 a b c e)) rest)))
            (PyBytes (skipn (Z.to_nat (int32 a b c e)) rest)).
Proof.
  unfold _obj_len_data. unfold bind at 1. unfold get at 1.
  assert (Hlen : (Z.of_nat (len (PyBytes (a :: b :: c :: e :: rest))) <? 4)%Z
                 = false).
  { apply Z.ltb_ge. cbn [len length]. lia. }
  rewrite Hlen. change (4 =? 1)%Z with false. cbv iota.
  unfold bind at 1. rewrite obj_int_bytes.
  destruct (Z.ltb_spec (int32 a b c e) 0) as [Hneg | Hpos].
  - reflexivity.
  - apply take_value_bytes. assumption.
Qed.

End Primitives.

Section LengthPrefixed.

Lemma obj_str_bytes a b c e rest :
  _obj_str (PyBytes (a :: b :: c :: e :: rest))
  = if (int32 a b c e <? 0)%Z then Ok None (PyBytes rest)
    else Ok (Some (map chr (firstn (Z.to_nat (int32 a b c e)) rest)))
            (PyBytes (skipn (Z.to_nat (int32 a b c e)) rest)).
Proof.
  unfold _obj_str, bind. rewrite obj_len_data_4.
  destruct (int32 a b c e <? 0)%Z; reflexivity.
Qed.

Lemma obj_ptr_bytes b rest :
  _obj_ptr (PyBytes (b :: rest))
  = Ok (Some (u "0x" ++ map chr (firstn (Z.to_nat (byteval b)) rest)))
       (PyBytes (skipn (Z.to_nat (byteval b)) rest)).
Proof. unfold _obj_ptr, bind. rewrite obj_len_data_1. reflexivity. Qed.

Lemma obj_long_bytes b rest :
  _obj_long (PyBytes (b :: rest))
  = match int (map chr (firstn (Z.to_nat (byteval b)) rest)) with
    | Val n => Ok (Some n) (PyBytes (skipn (Z.to_nat (byteval b)) rest))
    | Exn e => Raise e
    end.
Proof.
  unfold _obj_long, bind. rewrite obj_len_data_1.
  destruct (int _); reflexivity.
Qed.

Lemma obj_time_bytes b rest :
  _obj_time (PyBytes (b :: rest))
  = match int (map chr (firstn (Z.to_nat (byteval b)) rest)) with
    | Val n => Ok (Some n) (PyBytes (skipn (Z.to_nat (byteval b)) rest))
    | Exn e => Raise e
    end.
Proof.
  unfold _obj_time, bind. rewrite obj_len_data_1.
  destruct (int _); reflexivity.
Qed.

(** A field cut short by the end of the buffer: the slice takes what is
    there. *)
Lemma firstn_short {A} (l : list A) (n : Z) :
  (Z.of_nat (length l) <= n)%Z ->
  firstn (Z.to_nat n) l = l /\ skipn (Z.to_nat n) l = [].
Proof.
  intros H. split; [apply firstn_all2 | apply skipn_all2]; lia.
Qed.

End LengthPrefixed.

(* ================================================================== *)
(** * UTF-8 against the byte-wise reading *)
(* ================================================================== *)

Section Utf8.


Lemma utf8_decode_ascii l :
  Forall ascii_byte l -> utf8_decode l = Some (map chr l).
Proof.
  induction 1 as [| b l Hb _ IH]; [reflexivity |].
  cbn [utf8_decode map]. unfold ascii_byte in Hb.
  apply N.ltb_lt in Hb. rewrite Hb, IH. reflexivity.
Qed.

(** Decoding never yields more code points than bytes, and as many only
    when every byte stands for itself. *)
Lemma utf8_decode_length n :
  forall l s, (length l <= n)%nat -> utf8_decode l = Some s ->
    (length s <= length l)%nat /\
    (length s = length l -> Forall ascii_byte l).
Proof.
  induction n as [| n IH]; intros l s Hn Hdec.
  - destruct l; [| cbn in Hn; lia]. cbn in Hdec. inversion Hdec; subst.
    split; [reflexivity | constructor].
  - destruct l as [| b0 r0]; cbn in Hdec.
    { inversion Hdec; subst. split; [reflexivity | constructor]. }
    cbn [length] in Hn.
    destruct (N.ltb_spec (Byte.to_N b0) 128) as [Hlt | Hge].
    { destruct (utf8_decode r0) as [s0 |] eqn:E0; cbn in Hdec; [| discriminate].
      inversion Hdec; subst. destruct (IH r0 s0) as [Hle Hall]; [lia | assumption |].
      cbn [length]. split; [lia |].
      intros Heq. constructor; [exact Hlt | apply Hall; lia]. }
    assert (Hmulti : forall (r : list byte) (cp : N) (s' : str),
               (S (length r) < length (b0 :: r0))%nat ->
               (length r <= n)%nat ->
               utf8_decode r = Some s' -> s = cp :: s' ->
               (length s <= length (b0 :: r0))%nat /\
               (length s = length (b0 :: r0) -> Forall ascii_byte (b0 :: r0))).
    { intros r cp s' Hr Hrn Hs' ->. destruct (IH r s' Hrn Hs') as [Hle _].
      cbn [length] in *. split; [lia | intros; lia]. }
    destruct r0 as [| b1 r1]; [discriminate |].
    destruct (between 194 (Byte.to_N b0) 223).
    { destruct (cont (Byte.to_N b1)); [| discriminate].
      destruct (utf8_decode r1) as [s1 |] eqn:E1; cbn in Hdec; [| discriminate].
      injection Hdec as Hs.
      eapply (Hmulti r1 _ s1);
        [cbn [length]; lia | cbn [length] in *; lia | assumption
        | symmetry; exact Hs]. }
    destruct r1 as [| b2 r2]; [discriminate |].
    destruct (between 224 (Byte.to_N b0) 239).
    { destruct (second3 _ _ && cont _); [| discriminate].
      destruct (utf8_decode r2) as [s2 |] eqn:E2; cbn in Hdec; [| discriminate].
      injection Hdec as Hs.
      eapply (Hmulti r2 _ s2);
        [cbn [length]; lia | cbn [length] in *; lia | assumption
        | symmetry; exact Hs]. }
    destruct r2 as [| b3 r3]; [discriminate |].
    destruct (between 240 _ 244 && second4 _ _ && cont _ && cont _);
      [| discriminate].
    destruct (utf8_decode r3) as [s3 |] eqn:E3; cbn in Hdec; [| discriminate].
    injection Hdec as Hs.
      eapply (Hmulti r3 _ s3);
        [cbn [length]; lia | cbn [length] in *; lia | assumption
        | symmetry; exact Hs].
Qed.

Lemma utf8_decode_bytewise_iff l :
  utf8_decode l = Some (map chr l) <-> Forall ascii_byte l.
Proof.
  split; [| apply utf8_decode_ascii].
  intros H. eapply (utf8_decode_length (n := length l)); eauto.
  now rewrite length_map.
Qed.

End Utf8.

Section TextCursor.

Lemma repr_bytes_length b : (3 <= length (repr_bytes b))%nat.
Proof.
  unfold repr_bytes. cbn [length]. rewrite length_app. cbn [length]. lia.
Qed.

(** Reading a field with a four-byte length from a [str] cursor fails in
    [struct.unpack]. *)
Lemma obj_str_on_text s :
  (4 <= length s)%nat -> _obj_str (PyStr s) = Raise TypeError.
Proof.
  intros H. unfold _obj_str, _obj_len_data. unfold bind at 1 2. unfold get at 1.
  assert (Hlen : (Z.of_nat (len (PyStr s)) <? 4)%Z = false).
  { apply Z.ltb_ge. cbn [len]. lia. }
  rewrite Hlen. change (4 =? 1)%Z with false. cbv iota.
  unfold bind at 1. unfold _obj_int, bind, get.
  assert (Hlen' : (len (PyStr s) <? 4)%nat = false).
  { apply Nat.ltb_ge. exact H. }
  rewrite Hlen'. reflexivity.
Qed.

End TextCursor.

(* ================================================================== *)
(** * Reasoning in the decoder monad *)
(* ================================================================== *)

Section MonadFacts.
Context {A B : Type}.

Lemma bind_Ok (m : M A) (k : A -> M B) d b d' :
  bind m k d = Ok b d' ->
  exists a d1, m d = Ok a d1 /\ k a d1 = Ok b d'.
Proof.
  unfold bind. destruct (m d) as [a d1 | e |]; try discriminate.
  intros H. now exists a, d1.
Qed.

Lemma bind_step (m : M A) (k : A -> M B) d a d1 :
  m d = Ok a d1 -> bind m k d = k a d1.
Proof. unfold bind. now intros ->. Qed.

Lemma lift_Ok (r : res A) d a d' :
  lift r d = Ok a d' -> r = Val a /\ d' = d.
Proof.
  destruct r as [x | e]; cbn; [| discriminate].
  unfold ret. intros H. inversion H. now subst.
Qed.

Lemma ret_Ok (a b : A) (d d' : pyseq) :
  ret a d = Ok b d' -> a = b /\ d = d'.
Proof. unfold ret. intros H. inversion H. now subst. Qed.

End MonadFacts.

(** Runs the first decoder of a [bind] in the goal by its known outcome. *)
Ltac bind_run H := rewrite (@bind_step _ _ _ _ _ _ _ H).

(* ================================================================== *)
(** * Dictionaries *)
(* ================================================================== *)

Section Dictionaries.

(** [value_eqb] decides equality of values. *)
Lemma value_eqb_true : forall a b, value_eqb a b = true -> a = b.
Proof.
  fix IH 1. intros a b. destruct a as [| x | s | xs | xs | xs];
    destruct b as [| y | t | ys | ys | ys]; cbn [value_eqb];
    try discriminate; intros H.
  - reflexivity.
  - apply Z.eqb_eq in H. congruence.
  - apply str_eqb_eq in H. congruence.
  - f_equal. revert ys H. induction xs as [| x xs IHxs]; intros [| y ys] H;
      cbn in H; try discriminate; [reflexivity |].
    apply andb_true_iff in H as [Hxy Hr].
    f_equal; [apply IH; assumption | apply IHxs; assumption].
  - f_equal. revert ys H. induction xs as [| x xs IHxs]; intros [| y ys] H;
      cbn in H; try discriminate; [reflexivity |].
    apply andb_true_iff in H as [Hxy Hr].
    f_equal; [apply IH; assumption | apply IHxs; assumption].
  - f_equal. revert ys H.
    induction xs as [| [k v] xs IHxs]; intros [| [k' v'] ys] H;
      cbn in H; try discriminate; [reflexivity |].
    apply andb_true_iff in H as [Hxy Hr].
    apply andb_true_iff in Hxy as [Hk Hv].
    f_equal; [f_equal; apply IH; assumption | apply IHxs; assumption].
Qed.

Lemma value_eqb_neq a b : a <> b -> value_eqb a b = false.
Proof.
  intros H. destruct (value_eqb a b) eqn:E; [| reflexivity].
  apply value_eqb_true in E. contradiction.
Qed.

(** Setting a new key appends it. *)
Lemma dict_update_fresh d k v :
  ~ In k (dict_keys_of d) -> dict_update d k v = d ++ [(k, v)].
Proof.
  induction d as [| [k' v'] d IH]; intros Hk; cbn; [reflexivity |].
  rewrite value_eqb_neq.
  - rewrite IH; [reflexivity |]. intros Hin. apply Hk. now right.
  - intros ->. apply Hk. now left.
Qed.

(** Inserting pairs with fresh, distinct keys appends them in order. *)
Lemma insert_all_distinct pairs : forall d,
  NoDup (map fst pairs) ->
  (forall k, In k (map fst pairs) -> ~ In k (dict_keys_of d)) ->
  insert_all pairs d = d ++ pairs.
Proof.
  induction pairs as [| [k v] pairs IH]; intros d Hnd Hfresh; cbn.
  - now rewrite app_nil_r.
  - inversion Hnd as [| ? ? Hk Hnd']; subst.
    rewrite dict_update_fresh by (apply Hfresh; now left).
    unfold insert_all in IH. rewrite IH; [now rewrite <- app_assoc | assumption |].
    intros k' Hin. unfold dict_keys_of. rewrite map_app, in_app_iff.
    intros [Hd | [<- | []]].
    + apply (Hfresh k'); [now right | assumption].
    + exact (Hk Hin).
Qed.

End Dictionaries.

(* ================================================================== *)
(** * The cursor only shrinks, and the fuel of [decode] is enough *)
(* ================================================================== *)

Section Combinators.

Lemma len_seq_from d k : (len (seq_from d k) <= len d)%nat.
Proof.
  destruct d as [b | s]; cbn [seq_from len]; unfold slice_from;
    rewrite length_skipn; lia.
Qed.

Lemma len_seq_from_exact d k :
  (0 <= k)%Z -> len (seq_from d k) = (len d - Z.to_nat k)%nat.
Proof.
  intros Hk. destruct d as [b | s]; cbn [seq_from len];
    rewrite slice_from_nonneg by assumption; apply length_skipn.
Qed.

Lemma runs_runs_upto {A} n (m : M A) : runs m -> runs_upto n m.
Proof. intros H d _. apply H. Qed.

Lemma runs_ret {A} (a : A) : runs (ret a).
Proof. intros d. discriminate. Qed.

Lemma runs_raise {A} e : runs (@raise A e).
Proof. intros d. discriminate. Qed.

Lemma runs_lift {A} (r : res A) : runs (lift r).
Proof. intros d. destruct r; discriminate. Qed.

Lemma runs_get : runs get.
Proof. intros d. discriminate. Qed.

Lemma runs_set d0 : runs (set d0).
Proof. intros d. discriminate. Qed.

Lemma runs_bind {A B} (m : M A) (k : A -> M B) :
  runs m -> (forall a, runs (k a)) -> runs (bind m k).
Proof.
  intros Hm Hk d. unfold bind. specialize (Hm d).
  destruct (m d) as [a d1 | e |]; [apply Hk | discriminate | contradiction].
Qed.

Lemma runs_for_range {S} n (body : S -> M S) :
  (forall acc, runs (body acc)) -> forall acc, runs (for_range n body acc).
Proof.
  intros Hb. induction n as [| n IH]; intros acc; cbn [for_range].
  - apply runs_ret.
  - apply runs_bind; auto.
Qed.

Lemma runs_for_each {X S} (l : list X) (body : X -> S -> M S) :
  (forall x acc, runs (body x acc)) -> forall acc, runs (for_each l body acc).
Proof.
  intros Hb. induction l as [| x l IH]; intros acc; cbn [for_each].
  - apply runs_ret.
  - apply runs_bind; auto.
Qed.

Lemma shrinks_ret {A} (a : A) : shrinks (ret a).
Proof. intros d b d' H. apply ret_Ok in H as [_ ->]. lia. Qed.

Lemma shrinks_raise {A} e : shrinks (@raise A e).
Proof. intros d b d' H. discriminate. Qed.

Lemma shrinks_lift {A} (r : res A) : shrinks (lift r).
Proof. intros d b d' H. apply lift_Ok in H as [_ ->]. lia. Qed.

Lemma shrinks_bind {A B} (m : M A) (k : A -> M B) :
  shrinks m -> (forall a, shrinks (k a)) -> shrinks (bind m k).
Proof.
  intros Hm Hk d b d' H. apply bind_Ok in H as (a & d1 & H1 & H2).
  apply Hm in H1. apply Hk in H2. lia.
Qed.

Lemma shrinks_fmap {A B} (f : A -> B) (m : M A) : shrinks m -> shrinks (fmap f m).
Proof. intros H. apply shrinks_bind; [exact H | intros; apply shrinks_ret]. Qed.

Lemma shrinks_for_range {S} n (body : S -> M S) :
  (forall acc, shrinks (body acc)) -> forall acc, shrinks (for_range n body acc).
Proof.
  intros Hb. induction n as [| n IH]; intros acc; cbn [for_range].
  - apply shrinks_ret.
  - apply shrinks_bind; auto.
Qed.

Lemma shrinks_for_each {X S} (l : list X) (body : X -> S -> M S) :
  (forall x acc, shrinks (body x acc)) ->
  forall acc, shrinks (for_each l body acc).
Proof.
  intros Hb. induction l as [| x l IH]; intros acc; cbn [for_each].
  - apply shrinks_ret.
  - apply shrinks_bind; auto.
Qed.

Lemma runs_upto_le {A} n n' (m : M A) :
  (n' <= n)%nat -> runs_upto n m -> runs_upto n' m.
Proof. intros Hle H d Hd. apply H. lia. Qed.

Lemma runs_upto_bind {A B} n (m : M A) (k : A -> M B) :
  shrinks m -> runs_upto n m -> (forall a, runs_upto n (k a)) ->
  runs_upto n (bind m k).
Proof.
  intros Hs Hm Hk d Hd. unfold bind. specialize (Hm d Hd).
  destruct (m d) as [a d1 | e |] eqn:E; [| discriminate | contradiction].
  apply Hk. apply Hs in E. lia.
Qed.

Lemma runs_upto_for_range {S} n k (body : S -> M S) :
  (forall acc, shrinks (body acc)) ->
  (forall acc, runs_upto n (body acc)) ->
  forall acc, runs_upto n (for_range k body acc).
Proof.
  intros Hs Hb. induction k as [| k IH]; intros acc; cbn [for_range].
  - apply runs_runs_upto, runs_ret.
  - apply runs_upto_bind; auto.
Qed.

Lemma runs_upto_for_each {X S} n (l : list X) (body : X -> S -> M S) :
  (forall x acc, shrinks (body x acc)) ->
  (forall x acc, runs_upto n (body x acc)) ->
  forall acc, runs_upto n (for_each l body acc).
Proof.
  intros Hs Hb. induction l as [| x l IH]; intros acc; cbn [for_each].
  - apply runs_runs_upto, runs_ret.
  - apply runs_upto_bind; auto.
Qed.

End Combinators.

Create HintDb dec discriminated.

#[local] Hint Resolve runs_ret runs_raise runs_lift runs_get runs_set
  runs_bind runs_for_range runs_for_each : dec.
#[local] Hint Resolve shrinks_ret shrinks_raise shrinks_lift shrinks_bind
  shrinks_fmap shrinks_for_range shrinks_for_each : dec.

Section PrimitiveFuel.

(** The primitive decoders are built from [get], [set], builtins and
    [ret]: they use no fuel. *)
Ltac runs_prim :=
  repeat first
    [ apply runs_bind; [| intros ?]
    | apply runs_ret | apply runs_lift | apply runs_get | apply runs_set
    | apply runs_raise
    | match goal with
      | |- runs (if ?c then _ else _) => destruct c
      | |- runs (match ?o with Some _ => _ | None => _ end) => destruct o
      end ].

Lemma runs_obj_type : runs _obj_type.
Proof. unfold _obj_type. runs_prim. Qed.

Lemma runs_obj_int : runs _obj_int.
Proof. unfold _obj_int. runs_prim. Qed.

Lemma runs_obj_char : runs _obj_char.
Proof. unfold _obj_char. runs_prim. Qed.

Lemma runs_obj_len_data n : runs (_obj_len_data n).
Proof. unfold _obj_len_data. runs_prim. Qed.

Lemma runs_obj_long : runs _obj_long.
Proof. unfold _obj_long. runs_prim. Qed.

Lemma runs_obj_str : runs _obj_str.
Proof. unfold _obj_str. runs_prim. Qed.

Lemma runs_obj_buffer : runs _obj_buffer.
Proof. apply runs_obj_len_data. Qed.

Lemma runs_obj_ptr : runs _obj_ptr.
Proof. unfold _obj_ptr. runs_prim. Qed.

Lemma runs_obj_time : runs _obj_time.
Proof. unfold _obj_time. runs_prim. Qed.

Lemma runs_obj_info : runs _obj_info.
Proof. unfold _obj_info. runs_prim. Qed.

End PrimitiveFuel.

Section PrimitiveCursor.

Lemma get_Ok d a d' : get d = Ok a d' -> a = d /\ d' = d.
Proof. unfold get. intros H. inversion H. now subst. Qed.

Lemma set_Ok d0 d a d' : set d0 d = Ok a d' -> d' = d0.
Proof. unfold set. intros H. now inversion H. Qed.

(** What the tag reader leaves behind. *)
Lemma obj_type_Ok d t d' :
  _obj_type d = Ok t d' ->
  ((len d < 3)%nat /\ t = [] /\ d' = PyStr []) \/
  ((3 <= len d)%nat /\ d' = seq_from d 3).
Proof.
  intros H. unfold _obj_type in H.
  apply bind_Ok in H as (data & d1 & Hget & H).
  apply get_Ok in Hget as [-> ->].
  destruct (Nat.ltb_spec (len d) 3) as [Hlt | Hge].
  - left. apply bind_Ok in H as (? & d2 & Hset & H).
    apply set_Ok in Hset as ->. apply ret_Ok in H as [<- <-]. auto.
  - right. apply bind_Ok in H as (objtype & d2 & _ & H).
    apply bind_Ok in H as (? & d3 & Hset & H).
    apply set_Ok in Hset as ->. apply ret_Ok in H as [_ <-]. auto.
Qed.

Lemma obj_int_Ok d z d' :
  _obj_int d = Ok z d' ->
  ((len d < 4)%nat /\ d' = PyStr []) \/
  ((4 <= len d)%nat /\ d' = seq_from d 4).
Proof.
  intros H. unfold _obj_int in H.
  apply bind_Ok in H as (data & d1 & Hget & H).
  apply get_Ok in Hget as [-> ->].
  destruct (Nat.ltb_spec (len d) 4) as [Hlt | Hge].
  - left. apply bind_Ok in H as (? & d2 & Hset & H).
    apply set_Ok in Hset as ->. apply ret_Ok in H as [_ <-]. auto.
  - right. apply bind_Ok in H as (value & d2 & _ & H).
    apply bind_Ok in H as (? & d3 & Hset & H).
    apply set_Ok in Hset as ->. apply ret_Ok in H as [_ <-]. auto.
Qed.

Lemma shrinks_obj_type : shrinks _obj_type.
Proof.
  intros d t d' H.
  apply obj_type_Ok in H as [(_ & _ & ->) | (_ & ->)];
    [cbn; lia | apply len_seq_from].
Qed.

Lemma shrinks_obj_int : shrinks _obj_int.
Proof.
  intros d t d' H.
  apply obj_int_Ok in H as [(_ & ->) | (_ & ->)];
    [cbn; lia | apply len_seq_from].
Qed.

Lemma shrinks_obj_char : shrinks _obj_char.
Proof.
  intros d z d' H. unfold _obj_char in H.
  apply bind_Ok in H as (data & d1 & Hget & H).
  apply get_Ok in Hget as [-> ->].
  destruct (len d <? 1)%nat.
  - apply ret_Ok in H as [_ <-]. lia.
  - apply bind_Ok in H as (value & d2 & _ & H).
    apply bind_Ok in H as (? & d3 & Hset & H).
    apply set_Ok in Hset as ->. apply ret_Ok in H as [_ <-].
    apply len_seq_from.
Qed.

(** A length-prefixed field: when a value comes back, at least the length
    prefix has been consumed. *)
Lemma obj_len_data_Ok n d o d' :
  (0 < n)%Z ->
  _obj_len_data n d = Ok o d' ->
  (len d' <= len d)%nat /\ (o <> None -> (len d' < len d)%nat).
Proof.
  intros Hn H. unfold _obj_len_data in H.
  apply bind_Ok in H as (data & d1 & Hget & H).
  apply get_Ok in Hget as [-> ->].
  destruct (Z.ltb_spec (Z.of_nat (len d)) n) as [Hlt | Hge].
  { apply bind_Ok in H as (? & d2 & Hset & H).
    apply set_Ok in Hset as ->. apply ret_Ok in H as [<- <-].
    split; [cbn; lia | congruence]. }
  apply bind_Ok in H as (declared & d1 & Hlen & H).
  assert (Hd1 : (len d1 < len d)%nat).
  { destruct (n =? 1)%Z.
    - apply bind_Ok in Hlen as (l & d2 & _ & Hlen).
      apply bind_Ok in Hlen as (? & d3 & Hset & Hlen).
      apply set_Ok in Hset as ->. apply ret_Ok in Hlen as [_ <-].
      rewrite len_seq_from_exact by lia. change (Z.to_nat 1) with 1%nat. lia.
    - apply obj_int_Ok in Hlen as [(Hshort & ->) | (Hfull & ->)].
      + cbn [len length]. lia.
      + rewrite len_seq_from_exact by lia. change (Z.to_nat 4) with 4%nat. lia. }
  destruct (declared <? 0)%Z.
  { apply ret_Ok in H as [<- <-]. split; [lia | congruence]. }
  apply bind_Ok in H as (value & d2 & Hvalue & H).
  apply bind_Ok in H as (text & d3 & Htext & H).
  apply lift_Ok in Htext as [_ ->]. apply ret_Ok in H as [_ <-].
  assert (Hd2 : (len d2 <= len d1)%nat).
  { destruct (0 <? declared)%Z.
    - apply bind_Ok in Hvalue as (data & d4 & Hget & Hvalue).
      apply get_Ok in Hget as [-> ->].
      apply bind_Ok in Hvalue as (? & d5 & Hset & Hvalue).
      apply set_Ok in Hset as ->. apply ret_Ok in Hvalue as [_ <-].
      apply len_seq_from.
    - apply ret_Ok in Hvalue as [_ <-]. lia. }
  split; [lia | intros _; lia].
Qed.

Lemma shrinks_obj_len_data n : (0 < n)%Z -> shrinks (_obj_len_data n).
Proof.
  intros Hn d o d' H. now apply (@obj_len_data_Ok n d o d' Hn) in H.
Qed.

Lemma shrinks_obj_str : shrinks _obj_str.
Proof.
  unfold _obj_str. apply shrinks_bind; [apply shrinks_obj_len_data; lia |].
  intros [s |]; apply shrinks_ret.
Qed.

Lemma obj_str_Some d s d' :
  _obj_str d = Ok (Some s) d' -> (len d' < len d)%nat.
Proof.
  intros H. unfold _obj_str in H.
  apply bind_Ok in H as (o & d1 & Hlen & H).
  apply obj_len_data_Ok in Hlen as [_ Hlt]; [| lia].
  destruct o as [s0 |]; apply ret_Ok in H as [Heq <-]; [| discriminate].
  apply Hlt. discriminate.
Qed.

Lemma shrinks_obj_buffer : shrinks _obj_buffer.
Proof. apply shrinks_obj_len_data. lia. Qed.

Lemma shrinks_obj_ptr : shrinks _obj_ptr.
Proof.
  unfold _obj_ptr. apply shrinks_bind; [apply shrinks_obj_len_data; lia |].
  intros [s |]; apply shrinks_ret.
Qed.

Lemma shrinks_obj_long : shrinks _obj_long.
Proof.
  unfold _obj_long. apply shrinks_bind; [apply shrinks_obj_len_data; lia |].
  intros [s |]; auto with dec.
Qed.

Lemma shrinks_obj_time : shrinks _obj_time.
Proof.
  unfold _obj_time. apply shrinks_bind; [apply shrinks_obj_len_data; lia |].
  intros [s |]; auto with dec.
Qed.

Lemma shrinks_obj_info : shrinks _obj_info.
Proof.
  unfold _obj_info. repeat (apply shrinks_bind; [apply shrinks_obj_str | intros ?]).
  apply shrinks_ret.
Qed.

End PrimitiveCursor.

#[local] Hint Resolve runs_obj_type runs_obj_int runs_obj_char runs_obj_long
  runs_obj_str runs_obj_buffer runs_obj_ptr runs_obj_time runs_obj_info : dec.
#[local] Hint Resolve shrinks_obj_type shrinks_obj_int shrinks_obj_char
  shrinks_obj_long shrinks_obj_str shrinks_obj_buffer shrinks_obj_ptr
  shrinks_obj_time shrinks_obj_info : dec.

Section CompositeCursor.

Variable cb : str -> M value.
Hypothesis cb_shrinks : forall tag, shrinks (cb tag).

Ltac shrinks_tac :=
  repeat first
    [ apply cb_shrinks
    | solve [auto 2 with dec]
    | apply shrinks_for_range; intros ?
    | apply shrinks_for_each; intros ? ?
    | match goal with
      | |- shrinks (let (_, _) := ?p in _) => destruct p
      | |- shrinks (match ?e with [] => _ | _ :: _ => _ end) => destruct e
      end
    | apply shrinks_bind; [| intros ?] ].

Lemma shrinks_hdata_keys list_keys : shrinks (hdata_keys list_keys).
Proof. unfold hdata_keys. shrinks_tac. Qed.

Lemma shrinks_hdata_pointers list_path : shrinks (hdata_pointers list_path).
Proof. unfold hdata_pointers. shrinks_tac. Qed.

Lemma shrinks_hdata_fields keys_types item :
  shrinks (hdata_fields cb keys_types item).
Proof. unfold hdata_fields. shrinks_tac. Qed.

Lemma shrinks_hdata_item list_path keys_types :
  shrinks (hdata_item cb list_path keys_types).
Proof.
  unfold hdata_item.
  apply shrinks_bind; [apply shrinks_lift | intros ?].
  apply shrinks_bind; [apply shrinks_hdata_pointers | intros ?].
  apply shrinks_bind; [apply shrinks_hdata_fields | intros ?].
  apply shrinks_lift.
Qed.

Lemma shrinks_obj_hashtable : shrinks (_obj_hashtable cb).
Proof. unfold _obj_hashtable. shrinks_tac. Qed.

Lemma shrinks_obj_hdata : shrinks (_obj_hdata cb).
Proof.
  unfold _obj_hdata.
  do 3 (apply shrinks_bind; [auto with dec | intros ?]).
  apply shrinks_bind; [apply shrinks_hdata_keys | intros [kts dk]].
  apply shrinks_bind; [| intros ?; apply shrinks_ret].
  apply shrinks_for_range. intros ?.
  apply shrinks_bind; [apply shrinks_hdata_item | intros ?; apply shrinks_ret].
Qed.

Lemma shrinks_obj_infolist : shrinks (_obj_infolist cb).
Proof. unfold _obj_infolist. shrinks_tac. Qed.

Lemma shrinks_obj_array : shrinks (_obj_array cb).
Proof. unfold _obj_array. shrinks_tac. Qed.

(** The first loop keeps every entry of the keys string and leaves the
    cursor alone. *)
Lemma hdata_keys_entries list_keys : forall kts0 dk0 d kts dk d',
  for_each list_keys
    (fun key (acc : list (list str) * WeechatDict) =>
       let (keys_types, dict_keys) := acc in
       let items := split 58 key in
       let keys_types := keys_types ++ [items] in
       name <- lift (getitem items 0) ;;
       type <- lift (getitem items 1) ;;
       dict_keys <- lift (setitem dict_keys (VStr name) (VStr type)) ;;
       ret (keys_types, dict_keys)) (kts0, dk0) d = Ok (kts, dk) d' ->
  kts = kts0 ++ map (split 58) list_keys /\ d' = d.
Proof.
  induction list_keys as [| key l IH]; intros kts0 dk0 d kts dk d' H;
    cbn [for_each] in H.
  - apply ret_Ok in H as [H ->]. injection H as <- <-.
    now rewrite app_nil_r.
  - apply bind_Ok in H as ([kts1 dk1] & d1 & Hbody & H).
    apply bind_Ok in Hbody as (name & d2 & Hname & Hbody).
    apply lift_Ok in Hname as [_ ->].
    apply bind_Ok in Hbody as (type & d3 & Htype & Hbody).
    apply lift_Ok in Htype as [_ ->].
    apply bind_Ok in Hbody as (dk2 & d4 & Hset & Hbody).
    apply lift_Ok in Hset as [_ ->].
    apply ret_Ok in Hbody as [Hacc <-]. injection Hacc as <- <-.
    apply IH in H as [-> ->]. cbn [map]. now rewrite <- app_assoc.
Qed.


End CompositeCursor.

Lemma shrinks_out_of_fuel {A} : shrinks (@out_of_fuel A).
Proof. intros d a d' H. discriminate. Qed.

(** Every decoder of the table leaves the cursor no longer than it was. *)
Lemma shrinks_obj_cb fuel : forall tag, shrinks (_obj_cb fuel tag).
Proof.
  induction fuel as [| fuel IH]; intros tag; cbn [_obj_cb];
    destruct (lookup _obj_cb_table tag) as [[] |];
    auto using shrinks_out_of_fuel, shrinks_obj_hashtable, shrinks_obj_hdata,
      shrinks_obj_infolist, shrinks_obj_array with dec.
Qed.

Section CompositeFuel.

Variable cb : str -> M value.
Variable f : nat.
Hypothesis cb_shrinks : forall tag, shrinks (cb tag).

(** The table entry of a tag runs on a cursor shorter than the fuel, and
    the lookup of the empty tag on any cursor. *)
Hypothesis cb_runs :
  forall tag d, (tag <> [] -> (len d < f)%nat) -> cb tag d <> OutOfFuel.

Lemma runs_upto_call n tag :
  (tag <> [] -> (n < f)%nat) -> runs_upto n (cb tag).
Proof. intros H d Hd. apply cb_runs. intros Ht. specialize (H Ht). lia. Qed.

(** A tag read from a cursor within the fuel leaves a cursor strictly
    within it, unless the tag is empty. *)
Lemma tag_within d t d1 :
  _obj_type d = Ok t d1 -> (len d <= f)%nat ->
  (t <> [] -> (len d1 < f)%nat) /\ (len d1 <= len d)%nat.
Proof.
  intros H Hd. apply obj_type_Ok in H as [(_ & -> & ->) | (Hge & ->)].
  - split; [congruence | cbn; lia].
  - rewrite len_seq_from_exact by lia. change (Z.to_nat 3) with 3%nat.
    split; [intros _ |]; lia.
Qed.

Lemma runs_obj_array : runs_upto f (_obj_array cb).
Proof.
  intros d Hd. unfold _obj_array, bind at 1.
  destruct (_obj_type d) as [t d1 | e |] eqn:Et;
    [| discriminate | now apply runs_obj_type in Et].
  destruct (@tag_within d t d1 Et Hd) as [Ht Hd1].
  revert d1 Ht Hd1 Et. intros d1 Ht _ _.
  apply (@runs_upto_bind _ _ (len d1)); [auto with dec | | | lia].
  - apply runs_runs_upto. auto with dec.
  - intros count.
    apply runs_upto_bind; [| | intros; apply runs_runs_upto, runs_ret].
    + apply shrinks_for_range. intros ?.
      apply shrinks_bind; [apply cb_shrinks | intros; apply shrinks_ret].
    + apply runs_upto_for_range; intros ?.
      * apply shrinks_bind; [apply cb_shrinks | intros; apply shrinks_ret].
      * apply runs_upto_bind; [apply cb_shrinks | |
                               intros; apply runs_runs_upto, runs_ret].
        apply runs_upto_call. exact Ht.
Qed.

Lemma runs_obj_hashtable : runs_upto f (_obj_hashtable cb).
Proof.
  intros d Hd. unfold _obj_hashtable, bind at 1.
  destruct (_obj_type d) as [tk d1 | e |] eqn:Etk;
    [| discriminate | now apply runs_obj_type in Etk].
  destruct (@tag_within d tk d1 Etk Hd) as [Htk Hd1].
  unfold bind at 1.
  destruct (_obj_type d1) as [tv d2 | e |] eqn:Etv;
    [| discriminate | now apply runs_obj_type in Etv].
  destruct (@tag_within d1 tv d2 Etv) as [Htv Hd2]; [lia |].
  assert (Htk' : tk <> [] -> (len d2 < f)%nat) by (intros Hne; specialize (Htk Hne); lia).
  revert d2 Htv Htk' Hd2 Etv. intros d2 Htv Htk' _ _.
  apply (@runs_upto_bind _ _ (len d2)); [auto with dec | | | lia].
  - apply runs_runs_upto. auto with dec.
  - intros count.
    assert (Hbody : forall h : WeechatDict,
               shrinks (key <- cb tk ;; value <- cb tv ;;
                        lift (setitem h key value))).
    { intros h. repeat (apply shrinks_bind; [apply cb_shrinks | intros ?]).
      apply shrinks_lift. }
    apply runs_upto_bind; [| | intros; apply runs_runs_upto, runs_ret].
    + apply shrinks_for_range. exact Hbody.
    + apply runs_upto_for_range; [exact Hbody |]. intros h.
      apply runs_upto_bind; [apply cb_shrinks | now apply runs_upto_call |].
      intros key.
      apply runs_upto_bind; [apply cb_shrinks | now apply runs_upto_call |].
      intros value. apply runs_runs_upto, runs_lift.
Qed.

(** A tag read and the call of its decoder. *)
Lemma runs_tagged_call {B} (k : str -> value -> M B) :
  (forall t v, runs (k t v)) ->
  runs_upto f (t <- _obj_type ;; v <- cb t ;; k t v).
Proof.
  intros Hk d Hd. unfold bind at 1.
  destruct (_obj_type d) as [t d1 | e |] eqn:Et;
    [| discriminate | now apply runs_obj_type in Et].
  destruct (@tag_within d t d1 Et Hd) as [Ht _].
  unfold bind. pose proof (@cb_runs t d1 Ht) as Hrun.
  destruct (cb t d1) as [v d2 | e |]; [apply Hk | discriminate | contradiction].
Qed.

Lemma runs_obj_infolist : runs_upto f (_obj_infolist cb).
Proof.
  unfold _obj_infolist.
  assert (Hvar : forall variables : WeechatDict,
             shrinks (var_name <- _obj_str ;;
                      var_type <- _obj_type ;;
                      var_value <- cb var_type ;;
                      lift (setitem variables (of_option VStr var_name)
                              var_value))).
  { intros ?. apply shrinks_bind; [auto with dec | intros ?].
    apply shrinks_bind; [auto with dec | intros ?].
    apply shrinks_bind; [apply cb_shrinks | intros ?]. apply shrinks_lift. }
  assert (Hitem : forall items : list value,
             shrinks (count_vars <- _obj_int ;;
                      variables <- for_range (range count_vars)
                        (fun variables : WeechatDict =>
                           var_name <- _obj_str ;;
                           var_type <- _obj_type ;;
                           var_value <- cb var_type ;;
                           lift (setitem variables (of_option VStr var_name)
                                   var_value)) [] ;;
                      ret (items ++ [VDict variables]))).
  { intros ?. apply shrinks_bind; [auto with dec | intros ?].
    apply shrinks_bind; [| intros ?; apply shrinks_ret].
    apply shrinks_for_range. exact Hvar. }
  apply runs_upto_bind; [auto with dec | apply runs_runs_upto; auto with dec |].
  intros name.
  apply runs_upto_bind; [auto with dec | apply runs_runs_upto; auto with dec |].
  intros count_items.
  apply runs_upto_bind; [| | intros; apply runs_runs_upto, runs_ret].
  - apply shrinks_for_range. exact Hitem.
  - apply runs_upto_for_range; [exact Hitem |]. intros items.
    apply runs_upto_bind;
      [auto with dec | apply runs_runs_upto; auto with dec |].
    intros count_vars.
    apply runs_upto_bind; [| | intros; apply runs_runs_upto, runs_ret].
    + apply shrinks_for_range. exact Hvar.
    + apply runs_upto_for_range; [exact Hvar |]. intros variables.
      apply runs_upto_bind;
        [auto with dec | apply runs_runs_upto; auto with dec |].
      intros var_name.
      apply (runs_tagged_call
               (fun _ var_value =>
                  lift (setitem variables (of_option VStr var_name) var_value))).
      intros. apply runs_lift.
Qed.

Lemma runs_hdata_keys list_keys : runs (hdata_keys list_keys).
Proof.
  unfold hdata_keys. apply runs_for_each. intros key [kts dk].
  repeat (apply runs_bind; [apply runs_lift | intros ?]). apply runs_ret.
Qed.

Lemma runs_hdata_pointers list_path : runs (hdata_pointers list_path).
Proof.
  unfold hdata_pointers. apply runs_for_each. intros ? ?.
  apply runs_bind; [auto with dec | intros; apply runs_ret].
Qed.

(** The fields of an item call the table only when there are declared
    entries. *)
Lemma runs_hdata_fields n keys_types item :
  keys_types = [] \/ (n < f)%nat ->
  runs_upto n (hdata_fields cb keys_types item).
Proof.
  intros [-> | Hn]; unfold hdata_fields.
  - apply runs_runs_upto. cbn [for_each]. apply runs_ret.
  - apply runs_upto_for_each; intros entry it.
    + destruct entry as [| key [| objtype [| ? ?]]]; auto with dec.
    + destruct entry as [| key [| objtype [| ? ?]]];
        try (apply runs_runs_upto, runs_raise).
      apply runs_upto_bind; [apply cb_shrinks | |
                             intros; apply runs_runs_upto, runs_lift].
      apply runs_upto_call. intros _. exact Hn.
Qed.

Lemma runs_hdata_item n list_path keys_types :
  keys_types = [] \/ (n < f)%nat ->
  runs_upto n (hdata_item cb list_path keys_types).
Proof.
  intros H. unfold hdata_item.
  apply runs_upto_bind; [apply shrinks_lift | apply runs_runs_upto, runs_lift |].
  intros item0.
  apply runs_upto_bind;
    [apply shrinks_hdata_pointers
    | apply runs_runs_upto, runs_hdata_pointers |].
  intros pointers.
  apply runs_upto_bind;
    [now apply shrinks_hdata_fields | now apply runs_hdata_fields |].
  intros item. apply runs_runs_upto, runs_lift.
Qed.

Lemma runs_obj_hdata : runs_upto f (_obj_hdata cb).
Proof.
  intros d Hd. unfold _obj_hdata, bind at 1.
  destruct (_obj_str d) as [path d1 | e |] eqn:Epath;
    [| discriminate | now apply runs_obj_str in Epath].
  apply shrinks_obj_str in Epath.
  unfold bind at 1.
  destruct (_obj_str d1) as [keys d2 | e |] eqn:Ekeys;
    [| discriminate | now apply runs_obj_str in Ekeys].
  assert (Hkeys : split_if keys 44 = [] \/ (len d2 < f)%nat).
  { destruct keys as [[| c r] |]; [now left | right | now left].
    apply obj_str_Some in Ekeys. lia. }
  clear Ekeys.
  unfold bind at 1.
  destruct (_obj_int d2) as [count d3 | e |] eqn:Ecount;
    [| discriminate | now apply runs_obj_int in Ecount].
  apply shrinks_obj_int in Ecount.
  unfold bind at 1.
  destruct (hdata_keys (split_if keys 44) d3) as [[kts dk] d4 | e |] eqn:Ekt;
    [| discriminate | now apply runs_hdata_keys in Ekt].
  apply hdata_keys_entries in Ekt as [Hkts ->]. cbn [app] in Hkts.
  assert (Hcall : kts = [] \/ (len d3 < f)%nat).
  { destruct Hkeys as [Hnil | Hlt]; [left | right; lia].
    rewrite Hkts, Hnil. reflexivity. }
  apply (@runs_upto_bind _ _ (len d3)); [| | intros; apply runs_runs_upto, runs_ret | lia].
  - apply shrinks_for_range. intros ?.
    apply shrinks_bind; [now apply shrinks_hdata_item | intros; apply shrinks_ret].
  - apply runs_upto_for_range; intros items.
    + apply shrinks_bind; [now apply shrinks_hdata_item | intros; apply shrinks_ret].
    + apply runs_upto_bind;
        [now apply shrinks_hdata_item | now apply runs_hdata_item |].
      intros; apply runs_runs_upto, runs_ret.
Qed.

End CompositeFuel.

Lemma lookup_empty_tag : lookup _obj_cb_table [] = None.
Proof. reflexivity. Qed.

(** With more fuel than the cursor is long, no decoder of the table runs
    out of fuel. *)
Lemma obj_cb_runs fuel : forall tag d,
  (tag <> [] -> (len d < fuel)%nat) -> _obj_cb fuel tag d <> OutOfFuel.
Proof.
  induction fuel as [| fuel IH]; intros tag d Hd; cbn [_obj_cb];
    destruct (lookup _obj_cb_table tag) as [dec |] eqn:Hlook;
    try apply runs_raise;
    assert (Hne : tag <> [])
      by (intros ->; rewrite lookup_empty_tag in Hlook; discriminate);
    specialize (Hd Hne);
    destruct dec;
    try (apply runs_bind; [auto with dec | intros; apply runs_ret]);
    try apply runs_obj_info; try lia.
  - apply (@runs_obj_hashtable (_obj_cb fuel) fuel (shrinks_obj_cb fuel) IH). lia.
  - apply (@runs_obj_hdata (_obj_cb fuel) fuel (shrinks_obj_cb fuel) IH). lia.
  - apply (@runs_obj_infolist (_obj_cb fuel) fuel (shrinks_obj_cb fuel) IH). lia.
  - apply (@runs_obj_array (_obj_cb fuel) fuel (shrinks_obj_cb fuel) IH). lia.
Qed.

(* ================================================================== *)
(** * Decoders that always return *)
(* ================================================================== *)

Section Returns.

Lemma cursor_bytes b : cursor (PyBytes b).
Proof. right. now exists b. Qed.

Lemma cursor_empty : cursor (PyStr []).
Proof. now left. Qed.

Lemma returns_ret {A} (P : A -> Prop) a : P a -> returns P (ret a).
Proof. intros Ha d Hd. exists a, d. auto. Qed.

Lemma returns_bind {A B} (P : A -> Prop) (Q : B -> Prop)
    (m : M A) (k : A -> M B) :
  returns P m -> (forall a, P a -> returns Q (k a)) -> returns Q (bind m k).
Proof.
  intros Hm Hk d Hd. destruct (Hm d Hd) as (a & d1 & Ea & Pa & Hd1).
  destruct (Hk a Pa d1 Hd1) as (b & d2 & Eb & Qb & Hd2).
  exists b, d2. unfold bind. rewrite Ea. auto.
Qed.

Lemma returns_weaken {A} (P Q : A -> Prop) (m : M A) :
  (forall a, P a -> Q a) -> returns P m -> returns Q m.
Proof.
  intros HPQ Hm d Hd. destruct (Hm d Hd) as (a & d1 & Ea & Pa & Hd1).
  exists a, d1. auto.
Qed.

Lemma returns_fmap {A B} (P : A -> Prop) (Q : B -> Prop) (f : A -> B)
    (m : M A) :
  returns P m -> (forall a, P a -> Q (f a)) -> returns Q (fmap f m).
Proof.
  intros Hm Hf. unfold fmap. eapply returns_bind; [exact Hm |].
  intros a Pa. apply returns_ret. auto.
Qed.

Lemma returns_for_range {S} (I : S -> Prop) n (body : S -> M S) :
  (forall acc, I acc -> returns I (body acc)) ->
  forall acc, I acc -> returns I (for_range n body acc).
Proof.
  intros Hb. induction n as [| n IH]; intros acc Hacc; cbn [for_range].
  - now apply returns_ret.
  - eapply returns_bind; [apply Hb; exact Hacc | exact IH].
Qed.

Lemma returns_for_each {X S} (I : S -> Prop) (R : X -> Prop) (l : list X)
    (body : X -> S -> M S) :
  (forall x acc, R x -> I acc -> returns I (body x acc)) ->
  Forall R l ->
  forall acc, I acc -> returns I (for_each l body acc).
Proof.
  intros Hb Hl. induction Hl as [| x l Hx _ IH]; intros acc Hacc;
    cbn [for_each].
  - now apply returns_ret.
  - eapply returns_bind; [apply Hb; assumption | exact IH].
Qed.

(** A decoder that returns keeps what it leaves a cursor. *)
Lemma returns_cursor {A} (P : A -> Prop) (m : M A) d a d' :
  returns P m -> cursor d -> m d = Ok a d' -> P a /\ cursor d'.
Proof.
  intros Hm Hd E. destruct (Hm d Hd) as (a0 & d0 & E0 & Pa & Hd0).
  rewrite E in E0. injection E0 as <- <-. auto.
Qed.

Lemma returns_obj_int : returns any _obj_int.
Proof.
  intros d [-> | [b ->]].
  - exists 0%Z, (PyStr []). repeat split. apply cursor_empty.
  - destruct b as [| a [| b [| c [| e rest]]]];
      try (exists 0%Z, (PyStr []); repeat split; apply cursor_empty).
    exists (int32 a b c e), (PyBytes rest).
    rewrite obj_int_bytes. repeat split. apply cursor_bytes.
Qed.

Lemma returns_obj_char : returns any _obj_char.
Proof.
  intros d [-> | [b ->]].
  - exists 0%Z, (PyStr []). repeat split. apply cursor_empty.
  - destruct b as [| a rest].
    + exists 0%Z, (PyBytes []). repeat split. apply cursor_bytes.
    + eexists _, _. rewrite obj_char_bytes. repeat split. apply cursor_bytes.
Qed.

Lemma returns_obj_len_data_1 : returns any (_obj_len_data 1).
Proof.
  intros d [-> | [b ->]].
  - exists None, (PyStr []). repeat split. apply cursor_empty.
  - destruct b as [| a rest].
    + exists None, (PyStr []). repeat split. apply cursor_empty.
    + eexists _, _. rewrite obj_len_data_1. repeat split. apply cursor_bytes.
Qed.

Lemma returns_obj_len_data_4 : returns any (_obj_len_data 4).
Proof.
  intros d [-> | [b ->]].
  - exists None, (PyStr []). repeat split. apply cursor_empty.
  - destruct b as [| a [| b [| c [| e rest]]]];
      try (exists None, (PyStr []); repeat split; apply cursor_empty).
    rewrite obj_len_data_4.
    destruct (int32 a b c e <? 0)%Z; eexists _, _; repeat split;
      apply cursor_bytes.
Qed.

Lemma returns_obj_str : returns any _obj_str.
Proof.
  unfold _obj_str. eapply returns_bind; [apply returns_obj_len_data_4 |].
  intros [s |] _; now apply returns_ret.
Qed.

Lemma returns_obj_buffer : returns any _obj_buffer.
Proof. apply returns_obj_len_data_4. Qed.

Lemma returns_obj_ptr : returns any _obj_ptr.
Proof.
  unfold _obj_ptr. eapply returns_bind; [apply returns_obj_len_data_1 |].
  intros [s |] _; now apply returns_ret.
Qed.

Lemma hashable_of_option_str o : hashable (of_option VStr o) = true.
Proof. now destruct o. Qed.

(** The decoder of a plain tag returns a hashable value on every cursor. *)
Lemma returns_obj_cb_plain fuel t :
  plain_tag t = true ->
  returns (fun v => hashable v = true) (_obj_cb fuel t).
Proof.
  intros Ht. unfold plain_tag in Ht. cbn [existsb] in Ht.
  repeat (apply orb_true_iff in Ht as [Ht | Ht];
          [apply str_eqb_eq in Ht; subst t |]); [.. | discriminate];
    destruct fuel; cbn [_obj_cb lookup _obj_cb_table];
    (eapply returns_fmap;
     [first [apply returns_obj_char | apply returns_obj_int
            | apply returns_obj_str | apply returns_obj_buffer
            | apply returns_obj_ptr]
     | intros a _; first [reflexivity | apply hashable_of_option_str]]).
Qed.

(** The tag reader keeps the cursor a cursor. *)
Lemma obj_type_cursor d t d' :
  cursor d -> _obj_type d = Ok t d' -> cursor d'.
Proof.
  intros Hd H. apply obj_type_Ok in H as [(_ & _ & ->) | (Hge & ->)].
  - apply cursor_empty.
  - destruct Hd as [-> | [b ->]]; [cbn in Hge; lia | apply cursor_bytes].
Qed.

End Returns.

Section DecodeFuel.

Variable zlib_decompress : list byte -> res (list byte).

(** The loop of [decode] on a cursor shorter than its fuel. *)
Lemma decode_loop_runs (cb : str -> M value) (bound : nat) separator :
  (forall tag, shrinks (cb tag)) ->
  (forall tag d, (tag <> [] -> (len d < bound)%nat) -> cb tag d <> OutOfFuel) ->
  forall fuel objects d,
    (len d < fuel)%nat -> (len d <= bound)%nat ->
    decode_loop fuel cb separator objects d <> OutOfFuel.
Proof.
  intros Hshr Hcb. induction fuel as [| fuel IH]; intros objects d Hfuel Hbound;
    [lia |].
  cbn [decode_loop]. unfold bind at 1. unfold get at 1.
  destruct (Nat.ltb_spec 0 (len d)) as [Hpos | _]; [| discriminate].
  unfold bind at 1.
  destruct (_obj_type d) as [t d1 | e |] eqn:Et;
    [| discriminate | now apply runs_obj_type in Et].
  assert (Hd1 : (len d1 < len d)%nat).
  { apply obj_type_Ok in Et as [(_ & _ & ->) | (Hge & ->)].
    - cbn. exact Hpos.
    - rewrite len_seq_from_exact by lia. change (Z.to_nat 3) with 3%nat. lia. }
  unfold bind at 1.
  assert (Hrun : cb t d1 <> OutOfFuel) by (apply Hcb; intros; lia).
  destruct (cb t d1) as [v d2 | e |] eqn:Ev; [| discriminate | contradiction].
  apply Hshr in Ev. apply IH; lia.
Qed.

(** Reading the message id from a [str] cursor raises or empties it. *)
Lemma obj_str_text_cursor s o d' :
  _obj_str (PyStr s) = Ok o d' -> len d' = 0%nat.
Proof.
  intros H. destruct (Nat.lt_ge_cases (length s) 4) as [Hlt | Hge].
  - unfold _obj_str in H. apply bind_Ok in H as (o' & d1 & Hlen & H).
    rewrite obj_len_data_short in Hlen by (cbn [len]; lia).
    injection Hlen as <- <-. apply ret_Ok in H as [_ <-]. reflexivity.
  - rewrite obj_str_on_text in H by assumption. discriminate.
Qed.

(** The part of [decode] that follows the envelope. *)
Lemma decode_tail_runs fuel separator (x : pyseq)
    (size su : Z) (c : Z) (un : pyseq) :
  (0 < fuel)%nat ->
  (len x < fuel)%nat \/ (exists s, x = PyStr s) ->
  (data <- get ;;
   set (seq_from data 5) ;;;
   msgid <- _obj_str ;;
   let msgid := match msgid with None => [] | Some s => s end in
   objects <- decode_loop fuel (_obj_cb fuel) separator [] ;;
   ret (mkWeechatMessage size su c un msgid objects)) x <> OutOfFuel.
Proof.
  intros Hfuel Hx. unfold bind at 1. unfold get at 1. cbv beta iota.
  unfold bind at 1. unfold set at 1. cbv beta iota.
  unfold bind at 1.
  destruct (_obj_str (seq_from x 5)) as [msgid d1 | e |] eqn:Eid;
    [| discriminate | now apply runs_obj_str in Eid].
  assert (Hd1 : (len d1 < fuel)%nat).
  { destruct Hx as [Hlen | [s ->]].
    - apply shrinks_obj_str in Eid. pose proof (len_seq_from x 5). lia.
    - cbn [seq_from] in Eid. apply obj_str_text_cursor in Eid.
      lia. }
  unfold bind at 1.
  assert (Hloop : decode_loop fuel (_obj_cb fuel) separator [] d1 <> OutOfFuel).
  { apply decode_loop_runs with (bound := fuel);
      [apply shrinks_obj_cb | apply obj_cb_runs | lia | lia]. }
  destruct (decode_loop _ _ _ _ d1) as [objects d2 | e |];
    [discriminate | discriminate | contradiction].
Qed.

(** X10.  [decode] terminates on every input, returning a message or
    raising: every turn of its loop reads a tag and so shortens the cursor,
    and a composite value nests no deeper than the cursor is long, so the
    fuel that [decode] takes, one unit per byte of the frame and one more,
    never runs out. *)
Theorem decode_total (data : pyseq) (separator : str) :
  decode zlib_decompress data separator <> OutOfFuel.
Proof.
  unfold decode, decode_body. set (fuel := S (len data)).
  unfold bind at 1. unfold get at 1. cbv beta iota zeta.
  unfold bind at 1.
  destruct (lift (unpack_b (seq_slice data 4 5)) data)
    as [compression d0 | e |] eqn:Ec;
    [| discriminate | now apply runs_lift in Ec].
  apply lift_Ok in Ec as [_ ->].
  unfold bind at 1.
  destruct (compression =? 0)%Z.
  - unfold ret at 1. cbv beta iota.
    apply decode_tail_runs; [lia | left; lia].
  - unfold bind at 1.
    destruct (lift (decompress zlib_decompress (seq_from data 5)) data)
      as [raw d0 | e |] eqn:Er;
      [| discriminate | now apply runs_lift in Er].
    apply lift_Ok in Er as [_ ->].
    unfold bind at 1.
    destruct (lift (pack_i (Z.of_nat (length raw) + 5)) data)
      as [header d0 | e |] eqn:Eh;
      [| discriminate | now apply runs_lift in Eh].
    apply lift_Ok in Eh as [_ ->].
    unfold bind at 1.
    destruct (lift (pack_b 0) data) as [flag d0 | e |] eqn:Ef;
      [| discriminate | now apply runs_lift in Ef].
    apply lift_Ok in Ef as [_ ->].
    unfold bind at 1. unfold set at 1. cbv beta iota.
    unfold ret at 1. cbv beta iota.
    apply decode_tail_runs; [lia | right; eauto].
Qed.

End DecodeFuel.

(* ================================================================== *)
(** * The frame reader *)
(* ================================================================== *)

Section FrameReader.

(** C2 as stated fails: five bytes are buffered, the prefix declares
    fourteen, and [_receive] returns the five bytes and raises nothing. *)
Lemma receive_truncated_frame :
  _receive true [Recv [x00; x00; x00; x0e; x00]; RecvError EWOULDBLOCK]
  = Some (Val [x00; x00; x00; x0e; x00]).
Proof. reflexivity. Qed.

(** The loop gathers the chunks received before the socket would block. *)
Lemma recv_loop_chunks chunks later : forall buffer,
  recv_loop (map Recv chunks ++ RecvError EWOULDBLOCK :: later) buffer
  = Some (Val (buffer ++ List.concat chunks)).
Proof.
  induction chunks as [| chunk chunks IH]; intros buffer; cbn.
  - now rewrite app_nil_r.
  - rewrite IH. now rewrite app_assoc.
Qed.

(** C2 (as the code has it).  Once the socket would block, with at least the
    four bytes of a non-negative length prefix buffered, [_receive] raises
    nothing and returns [buffer[0:length]]: all the buffered bytes when fewer
    than [length] are there (a truncated frame), and exactly the first
    [length] bytes, without the bytes of a following message, when at least
    [length] are there. *)
Theorem receive_slices_by_declared_length
    (sock : list recv_event) (a b c e : byte) (rest : list byte) :
  let buffer := a :: b :: c :: e :: rest in
  let declared := int32 a b c e in
  recv_loop sock [] = Some (Val buffer) ->
  (0 <= declared)%Z ->
  exists frame,
    _receive true sock = Some (Val frame) /\
    frame = firstn (Z.to_nat declared) buffer /\
    ((Z.of_nat (length buffer) < declared)%Z -> frame = buffer) /\
    ((declared <= Z.of_nat (length buffer))%Z ->
       Z.of_nat (length frame) = declared /\
       exists next, buffer = frame ++ next).
Proof.
  intros buffer declared Hloop Hpos.
  exists (firstn (Z.to_nat declared) buffer). split; [| split; [| split]].
  - unfold _receive. rewrite Hloop.
    rewrite slice_prefix by lia.
    change (firstn (Z.to_nat 4) buffer) with [a; b; c; e].
    change (unpack_i (PyBytes [a; b; c; e])) with (Val declared).
    cbv iota. now rewrite slice_prefix.
  - reflexivity.
  - intros Hshort. apply firstn_all2. lia.
  - intros Hfull. split.
    + rewrite length_firstn. lia.
    + exists (skipn (Z.to_nat declared) buffer).
      symmetry. apply firstn_skipn.
Qed.

Lemma receive_slices_by_declared_length_witness :
  exists frame,
    _receive true [Recv [x00; x00]; Recv [x00; x05; x00; x41; x42];
                   RecvError EWOULDBLOCK] = Some (Val frame) /\
    frame = [x00; x00; x00; x05; x00].
Proof.
  destruct (@receive_slices_by_declared_length
              [Recv [x00; x00]; Recv [x00; x05; x00; x41; x42];
               RecvError EWOULDBLOCK]
              x00 x00 x00 x05 [x00; x41; x42])
    as (frame & Hrecv & Hframe & _).
  - reflexivity.
  - vm_compute. discriminate.
  - exists frame. split; [exact Hrecv | exact Hframe].
Defined.

End FrameReader.

(* ================================================================== *)
(** * Underflow in the primitive decoders *)
(* ================================================================== *)

Section Underflow.

(** C4 as stated fails: with three bytes where [_obj_int] needs four, the
    result is 0, not an error. *)
Lemma int_underflow_is_zero :
  _obj_int (PyBytes [x00; x00; x2a]) = Ok 0%Z (PyStr []).
Proof. reflexivity. Qed.

Lemma int_raises_ValueError s e : int s = Exn e -> e = ValueError.
Proof.
  unfold int. destruct (split_sign (skip_space s)) as [sign body].
  destruct body as [| c r]; [congruence |].
  destruct (is_digit c); [| congruence].
  destruct (scan_digits (c :: r) 0 false) as [[n rest] |]; [| congruence].
  destruct (skip_space rest); congruence.
Qed.

(** A long or a time whose content is cut short by the end of the buffer:
    [int] is given the text of the bytes that are there. *)
Lemma number_cut_short b content :
  (Z.of_nat (length content) < byteval b)%Z ->
  _obj_long (PyBytes (b :: content))
  = match int (map chr content) with
    | Val n => Ok (Some n) (PyBytes [])
    | Exn _ => Raise ValueError
    end /\
  _obj_time (PyBytes (b :: content))
  = match int (map chr content) with
    | Val n => Ok (Some n) (PyBytes [])
    | Exn _ => Raise ValueError
    end.
Proof.
  intros H. rewrite obj_long_bytes, obj_time_bytes.
  destruct (firstn_short content (n := byteval b)) as [-> ->]; [lia |].
  destruct (int (map chr content)) as [n | e] eqn:E; [now split |].
  apply int_raises_ValueError in E. now subst e.
Qed.

(** C4 (as the code has it).  No primitive decoder checks that enough bytes
    remain.  With fewer than 4 bytes [_obj_int] returns 0 and empties the
    cursor; with no byte [_obj_char] returns 0; a length-prefixed field
    whose length prefix is cut ([_obj_len_data], and so a string, a buffer,
    a pointer, a long and a time) returns [None] and empties the cursor; a
    string, a buffer or a pointer whose content is cut returns the text of
    the bytes that are there and empties the cursor; a long or a time whose
    content is cut gives the bytes that are there to [int], returns the
    number when they write one and raises [ValueError] when they do not,
    as when no content byte is there at all; the tag reader returns the
    empty tag. *)
Theorem underflow_is_not_checked :
  (forall d, (len d < 4)%nat -> _obj_int d = Ok 0%Z (PyStr [])) /\
  (forall d, (len d < 1)%nat -> _obj_char d = Ok 0%Z d) /\
  (forall n d, (Z.of_nat (len d) < n)%Z ->
     _obj_len_data n d = Ok None (PyStr [])) /\
  (forall d, (len d < 4)%nat ->
     _obj_str d = Ok None (PyStr []) /\
     _obj_buffer d = Ok None (PyStr [])) /\
  (forall d, (len d < 1)%nat ->
     _obj_ptr d = Ok None (PyStr []) /\
     _obj_long d = Ok None (PyStr []) /\
     _obj_time d = Ok None (PyStr [])) /\
  (forall b content, (Z.of_nat (length content) < byteval b)%Z ->
     _obj_len_data 1 (PyBytes (b :: content))
     = Ok (Some (map chr content)) (PyBytes []) /\
     _obj_ptr (PyBytes (b :: content))
     = Ok (Some (u "0x" ++ map chr content)) (PyBytes [])) /\
  (forall a b c e content, (Z.of_nat (length content) < int32 a b c e)%Z ->
     _obj_len_data 4 (PyBytes (a :: b :: c :: e :: content))
     = Ok (Some (map chr content)) (PyBytes []) /\
     _obj_str (PyBytes (a :: b :: c :: e :: content))
     = Ok (Some (map chr content)) (PyBytes []) /\
     _obj_buffer (PyBytes (a :: b :: c :: e :: content))
     = Ok (Some (map chr content)) (PyBytes [])) /\
  (forall b content, (Z.of_nat (length content) < byteval b)%Z ->
     _obj_long (PyBytes (b :: content))
     = match int (map chr content) with
       | Val n => Ok (Some n) (PyBytes [])
       | Exn _ => Raise ValueError
       end /\
     _obj_time (PyBytes (b :: content))
     = match int (map chr content) with
       | Val n => Ok (Some n) (PyBytes [])
       | Exn _ => Raise ValueError
       end) /\
  (forall b, (0 < byteval b)%Z ->
     _obj_long (PyBytes [b]) = Raise ValueError /\
     _obj_time (PyBytes [b]) = Raise ValueError) /\
  (forall d, (len d < 3)%nat -> _obj_type d = Ok [] (PyStr [])).
Proof.
  assert (Hcut4 : forall a b c e content,
             (Z.of_nat (length content) < int32 a b c e)%Z ->
             _obj_len_data 4 (PyBytes (a :: b :: c :: e :: content))
             = Ok (Some (map chr content)) (PyBytes [])).
  { intros a b c e content H. rewrite obj_len_data_4.
    destruct (Z.ltb_spec (int32 a b c e) 0) as [Hneg | _]; [lia |].
    destruct (firstn_short content (n := int32 a b c e)) as [-> ->]; [lia |].
    reflexivity. }
  repeat apply conj.
  - apply obj_int_short.
  - apply obj_char_short.
  - apply obj_len_data_short.
  - intros d H. unfold _obj_buffer, _obj_str, bind.
    rewrite obj_len_data_short by lia. now split.
  - intros d H. unfold _obj_ptr, _obj_long, _obj_time, bind.
    rewrite obj_len_data_short by lia. now repeat split.
  - intros b content H. rewrite obj_ptr_bytes, obj_len_data_1.
    destruct (firstn_short content (n := byteval b)) as [-> ->]; [lia |].
    now split.
  - intros a b c e content H. unfold _obj_buffer, _obj_str, bind.
    rewrite (Hcut4 a b c e content H). now repeat split.
  - apply number_cut_short.
  - intros b H. apply (@number_cut_short b []). cbn [length]. lia.
  - apply obj_type_short.
Qed.

Lemma underflow_is_not_checked_witness :
  _obj_int (PyBytes [x00; x00; x2a]) = Ok 0%Z (PyStr []) /\
  _obj_char (PyBytes []) = Ok 0%Z (PyBytes []) /\
  _obj_len_data 4 (PyBytes [x00; x00]) = Ok None (PyStr []) /\
  _obj_str (PyBytes [x00; x00]) = Ok None (PyStr []) /\
  _obj_time (PyBytes []) = Ok None (PyStr []) /\
  _obj_ptr (PyBytes [x05; x68; x69])
  = Ok (Some (u "0xhi")) (PyBytes []) /\
  _obj_str (PyBytes [x00; x00; x00; x05; x68; x69])
  = Ok (Some (u "hi")) (PyBytes []) /\
  _obj_long (PyBytes [x05; x34; x32]) = Ok (Some 42%Z) (PyBytes []) /\
  _obj_time (PyBytes [x05; x68; x69]) = Raise ValueError /\
  _obj_long (PyBytes [x05]) = Raise ValueError /\
  _obj_type (PyBytes [x69; x6e]) = Ok [] (PyStr []).
Proof.
  destruct underflow_is_not_checked
    as (Hint & Hchar & Hlen & Hnull4 & Hnull1 & H1 & H4 & Hnum & Hnone & Htag).
  repeat apply conj.
  - apply Hint. cbn. lia.
  - apply Hchar. cbn. lia.
  - apply Hlen. cbn. lia.
  - apply (Hnull4 (PyBytes [x00; x00])). cbn. lia.
  - apply (Hnull1 (PyBytes [])). cbn. lia.
  - apply (H1 x05 [x68; x69]). vm_compute. reflexivity.
  - apply (H4 x00 x00 x00 x05 [x68; x69]). vm_compute. reflexivity.
  - apply (proj1 (Hnum x05 [x34; x32] ltac:(vm_compute; reflexivity))).
  - apply (proj2 (Hnum x05 [x68; x69] ltac:(vm_compute; reflexivity))).
  - apply (Hnone x05). vm_compute. reflexivity.
  - apply Htag. cbn. lia.
Defined.

End Underflow.

(* ================================================================== *)
(** * Null and empty fields *)
(* ================================================================== *)

Section NullAndEmpty.

(** C5 as stated fails: a time of declared length 0 is not an empty value
    but a [ValueError];
    the length byte 0xFF of a pointer (-1 as a signed byte) declares 255
    bytes and does not make the pointer null. *)
Lemma time_and_pointer_lengths :
  _obj_time (PyBytes [x00]) = Raise ValueError /\
  _obj_ptr (PyBytes [xff]) = Ok (Some (u "0x")) (PyBytes []).
Proof. split; reflexivity. Qed.

(** C5 (as the code has it).  For a string or a buffer, the declared length
    -1 decodes to [None] and the declared length 0 to the empty text, two
    different values.  A pointer or a time carries an unsigned length byte:
    0xFF declares 255 bytes, never null; the declared length 0 gives the
    pointer ["0x"] and makes the time fail with [ValueError]. *)
Theorem null_and_empty_lengths (rest : list byte) :
  _obj_str (PyBytes (xff :: xff :: xff :: xff :: rest)) = Ok None (PyBytes rest) /\
  _obj_str (PyBytes (x00 :: x00 :: x00 :: x00 :: rest))
  = Ok (Some []) (PyBytes rest) /\
  _obj_buffer (PyBytes (xff :: xff :: xff :: xff :: rest))
  = Ok None (PyBytes rest) /\
  _obj_buffer (PyBytes (x00 :: x00 :: x00 :: x00 :: rest))
  = Ok (Some []) (PyBytes rest) /\
  of_option VStr None <> of_option VStr (Some []) /\
  _obj_ptr (PyBytes (x00 :: rest)) = Ok (Some (u "0x")) (PyBytes rest) /\
  _obj_time (PyBytes (x00 :: rest)) = Raise ValueError /\
  _obj_ptr (PyBytes (xff :: rest))
  = Ok (Some (u "0x" ++ map chr (firstn 255 rest))) (PyBytes (skipn 255 rest)) /\
  (forall d', _obj_time (PyBytes (xff :: rest)) <> Ok None d').
Proof.
  repeat apply conj.
  - now rewrite obj_str_bytes.
  - now rewrite obj_str_bytes.
  - unfold _obj_buffer. now rewrite obj_len_data_4.
  - unfold _obj_buffer. now rewrite obj_len_data_4.
  - discriminate.
  - now rewrite obj_ptr_bytes.
  - now rewrite obj_time_bytes.
  - now rewrite obj_ptr_bytes.
  - intros d'. rewrite obj_time_bytes. destruct (int _); discriminate.
Qed.

Lemma null_and_empty_lengths_witness :
  _obj_str (PyBytes [xff; xff; xff; xff; x41]) = Ok None (PyBytes [x41]) /\
  _obj_str (PyBytes [x00; x00; x00; x00; x41]) = Ok (Some []) (PyBytes [x41]) /\
  _obj_time (PyBytes [x00; x41]) = Raise ValueError.
Proof.
  destruct (null_and_empty_lengths [x41])
    as (Hnull & Hempty & _ & _ & _ & _ & Htime & _).
  repeat apply conj; assumption.
Defined.

(** C10 as stated fails: a long of declared length 0 is a [ValueError], not
    an empty value. *)
Lemma long_of_length_zero_raises :
  _obj_long (PyBytes [x00]) = Raise ValueError.
Proof. reflexivity. Qed.

(** C10 (as the code has it).  The length byte of a long, a pointer or a
    time is read unsigned, in 0..255, so no byte declares -1: with at least
    the length byte in the buffer these decoders never return [None].  A
    declared length of 0 gives the pointer ["0x"]; for a long or a time the
    empty text goes to [int], which raises [ValueError]. *)
Theorem byte_length_fields_never_null (b : byte) (rest : list byte) :
  (0 <= byteval b <= 255)%Z /\
  _obj_len_data 1 (PyBytes (b :: rest))
  = Ok (Some (map chr (firstn (Z.to_nat (byteval b)) rest)))
       (PyBytes (skipn (Z.to_nat (byteval b)) rest)) /\
  (forall d', _obj_long (PyBytes (b :: rest)) <> Ok None d') /\
  (forall d', _obj_ptr (PyBytes (b :: rest)) <> Ok None d') /\
  (forall d', _obj_time (PyBytes (b :: rest)) <> Ok None d') /\
  _obj_ptr (PyBytes (x00 :: rest)) = Ok (Some (u "0x")) (PyBytes rest) /\
  _obj_long (PyBytes (x00 :: rest)) = Raise ValueError /\
  _obj_time (PyBytes (x00 :: rest)) = Raise ValueError.
Proof.
  pose proof (byteval_range b).
  repeat apply conj; try lia.
  - apply obj_len_data_1.
  - intros d'. rewrite obj_long_bytes. destruct (int _); discriminate.
  - intros d'. rewrite obj_ptr_bytes. discriminate.
  - intros d'. rewrite obj_time_bytes. destruct (int _); discriminate.
  - now rewrite obj_ptr_bytes.
  - now rewrite obj_long_bytes.
  - now rewrite obj_time_bytes.
Qed.

Lemma byte_length_fields_never_null_witness :
  _obj_len_data 1 (PyBytes [x01; x37; x41]) = Ok (Some (u "7")) (PyBytes [x41]) /\
  _obj_long (PyBytes [x01; x37; x41]) <> Ok None (PyBytes [x41]).
Proof.
  destruct (byte_length_fields_never_null x01 [x37; x41])
    as (_ & Hlen & Hlong & _).
  split; [exact Hlen | apply Hlong].
Defined.

End NullAndEmpty.

(* ================================================================== *)
(** * Text of a string or buffer *)
(* ================================================================== *)

Section Text.

(** C9.  A string or buffer field of declared length L > 0 whose L content
    bytes are in the buffer decodes to the text that has the code point
    [chr(b)] for each content byte [b], and leaves the cursor after the
    content.  That text is the UTF-8 decoding of the content exactly when
    every content byte is below 0x80. *)
Theorem text_is_bytewise (a b c e : byte) (content rest : list byte) :
  content <> [] ->
  int32 a b c e = Z.of_nat (length content) ->
  _obj_str (PyBytes (a :: b :: c :: e :: content ++ rest))
  = Ok (Some (map chr content)) (PyBytes rest) /\
  _obj_buffer (PyBytes (a :: b :: c :: e :: content ++ rest))
  = Ok (Some (map chr content)) (PyBytes rest) /\
  length (map chr content) = length content /\
  (utf8_decode content = Some (map chr content)
   <-> Forall ascii_byte content).
Proof.
  intros Hne HL.
  assert (Hfield :
    _obj_len_data 4 (PyBytes (a :: b :: c :: e :: content ++ rest))
    = Ok (Some (map chr content)) (PyBytes rest)).
  { rewrite obj_len_data_4, HL.
    destruct (Z.ltb_spec (Z.of_nat (length content)) 0) as [Hneg | _]; [lia |].
    rewrite Nat2Z.id, firstn_app, skipn_app, Nat.sub_diag.
    rewrite firstn_all, skipn_all. cbn [firstn skipn].
    now rewrite app_nil_r. }
  repeat apply conj.
  - unfold _obj_str, bind. now rewrite Hfield.
  - exact Hfield.
  - apply length_map.
  - apply utf8_decode_bytewise_iff.
  - apply utf8_decode_bytewise_iff.
Qed.

Lemma text_is_bytewise_witness :
  _obj_str (PyBytes [x00; x00; x00; x02; xc3; xa9; x69])
  = Ok (Some [195; 169]%N) (PyBytes [x69]) /\
  utf8_decode [xc3; xa9] = Some [233%N].
Proof.
  split.
  - apply (@text_is_bytewise x00 x00 x00 x02 [xc3; xa9] [x69]).
    + discriminate.
    + reflexivity.
  - reflexivity.
Defined.

End Text.

(* ================================================================== *)
(** * The message assembler *)
(* ================================================================== *)

Section Assembler.

Variable zlib_decompress : list byte -> res (list byte).

Lemma byteval_zero f : byteval f = 0%Z -> f = x00.
Proof.
  unfold byteval. intros H.
  assert (Hn : Byte.to_N f = Byte.to_N x00) by (cbn; lia).
  pose proof (Byte.of_to_N f) as Hf. rewrite Hn in Hf.
  rewrite Byte.of_to_N in Hf. congruence.
Qed.

Lemma flag_value f : (to_signed 8 (byteval f) =? 0)%Z = true -> f = x00.
Proof.
  intros H. apply Z.eqb_eq in H. pose proof (byteval_range f) as R.
  apply byteval_zero. unfold to_signed in H.
  change (2 ^ (8 - 1))%Z with 128%Z in H. change (2 ^ 8)%Z with 256%Z in H.
  destruct (Z.ltb_spec (byteval f) 128); lia.
Qed.

(** An uncompressed frame: [decode] skips the header and decodes the
    payload. *)
Lemma decode_uncompressed a b c e payload separator :
  let frame := a :: b :: c :: e :: x00 :: payload in
  decode zlib_decompress (PyBytes frame) separator
  = decode_payload (S (length frame)) separator (Z.of_nat (length frame))
      (PyBytes frame) (PyBytes payload).
Proof.
  intros frame. unfold decode, decode_body, decode_payload.
  unfold bind at 1. unfold get at 1. cbv beta iota.
  unfold bind at 1. unfold seq_slice at 1.
  rewrite slice_window by lia.
  change (firstn (Z.to_nat (5 - 4)) (skipn (Z.to_nat 4) frame)) with [x00].
  change (lift (unpack_b (PyBytes [x00])) (PyBytes frame))
    with (Ok 0%Z (PyBytes frame)).
  cbv beta iota. unfold bind at 1. change (0 =? 0)%Z with true. cbv iota.
  unfold ret at 1. cbv beta iota.
  unfold bind at 1. unfold get at 1. cbv beta iota.
  unfold bind at 1. unfold set at 1. cbv beta iota.
  unfold seq_from. rewrite slice_from_nonneg by lia.
  change (skipn (Z.to_nat 5) frame) with payload.
  reflexivity.
Qed.

Lemma obj_cb_empty_tag fuel d : _obj_cb fuel [] d = Raise KeyError.
Proof. destruct fuel; reflexivity. Qed.

(** One or two bytes left in the loop of [decode]. *)
Lemma decode_loop_trailing fuel cb separator objects t :
  (0 < length t < 3)%nat ->
  (forall d, cb [] d = Raise KeyError) ->
  decode_loop (S fuel) cb separator objects (PyBytes t) = Raise KeyError.
Proof.
  intros Ht Hcb. cbn [decode_loop]. unfold bind at 1. unfold get at 1.
  assert (Hlen : (0 <? len (PyBytes t))%nat = true).
  { apply Nat.ltb_lt. cbn [len]. lia. }
  rewrite Hlen. unfold bind at 1.
  rewrite obj_type_short by (cbn [len]; lia).
  unfold bind at 1. now rewrite Hcb.
Qed.

(** C1 (what the code does).  A frame with a non-zero compression flag whose
    bytes from offset 5 decompress: [decode] formats the new header, the
    flag and the decompressed bytes with ['%s%s%s'], which gives the [str]
    of their [repr]s and not a [bytes] buffer, and reading the message id
    from it raises [TypeError]; no message is returned. *)
Theorem compressed_frame_raises_TypeError
    (a b c e flag : byte) (body raw : list byte) (separator : str) :
  flag <> x00 ->
  zlib_decompress body = Val raw ->
  (Z.of_nat (length raw) + 5 <= 2147483647)%Z ->
  decode zlib_decompress (PyBytes (a :: b :: c :: e :: flag :: body)) separator
  = Raise TypeError.
Proof.
  intros Hflag Hz Hsize.
  set (frame := a :: b :: c :: e :: flag :: body).
  unfold decode, decode_body.
  unfold bind at 1. unfold get at 1. cbv beta iota.
  unfold bind at 1. unfold seq_slice at 1.
  rewrite slice_window by lia.
  change (firstn (Z.to_nat (5 - 4)) (skipn (Z.to_nat 4) frame)) with [flag].
  change (lift (unpack_b (PyBytes [flag])) (PyBytes frame))
    with (Ok (to_signed 8 (byteval flag)) (PyBytes frame)).
  cbv beta iota.
  destruct (to_signed 8 (byteval flag) =? 0)%Z eqn:Hzero.
  { apply flag_value in Hzero. contradiction. }
  unfold bind at 1. unfold bind at 1. unfold seq_from at 1.
  rewrite slice_from_nonneg by lia.
  change (skipn (Z.to_nat 5) frame) with body.
  unfold decompress. rewrite Hz. unfold lift at 1, ret at 1. cbv beta iota.
  unfold bind at 1. unfold pack_i.
  assert (Hrange : ((-2147483648 <=? Z.of_nat (length raw) + 5)
                    && (Z.of_nat (length raw) + 5 <=? 2147483647))%Z = true).
  { apply andb_true_iff. split; apply Z.leb_le; lia. }
  rewrite Hrange. unfold lift at 1, ret at 1. cbv beta iota.
  unfold bind at 1.
  change (lift (pack_b 0) (PyBytes frame)) with (Ok [x00] (PyBytes frame)).
  cbv beta iota. unfold bind at 1. unfold set at 1. cbv beta iota.
  unfold ret at 1. cbv beta iota.
  unfold bind at 1. unfold get at 1. cbv beta iota.
  unfold bind at 1. unfold set at 1. cbv beta iota.
  unfold bind at 1. unfold seq_from.
  rewrite obj_str_on_text; [reflexivity |].
  rewrite slice_from_nonneg by lia. rewrite length_skipn, !length_app.
  match goal with
  | |- context [repr_bytes ?h] =>
      pose proof (repr_bytes_length h);
      pose proof (repr_bytes_length [x00]);
      pose proof (repr_bytes_length raw)
  end.
  change (Z.to_nat 5) with 5%nat. lia.
Qed.

(** C3 (what the code does).  With one or two bytes left, the tag reader
    returns the empty tag and empties the cursor, which would end the loop;
    but the loop first looks the empty tag up in [self._obj_cb], and that
    raises [KeyError]: [decode] returns no message. *)
Theorem trailing_bytes_raise_KeyError
    (a b c e : byte) (t : list byte) (separator : str) :
  (0 < length t < 3)%nat ->
  _obj_type (PyBytes t) = Ok [] (PyStr []) /\
  (forall fuel fuel' objects,
     decode_loop (S fuel) (_obj_cb fuel') separator objects (PyBytes t)
     = Raise KeyError) /\
  decode zlib_decompress
    (PyBytes (a :: b :: c :: e :: x00 :: xff :: xff :: xff :: xff :: t))
    separator
  = Raise KeyError.
Proof.
  intros Ht. repeat apply conj.
  - apply obj_type_short. cbn [len]. lia.
  - intros. apply decode_loop_trailing; [exact Ht |].
    intros d. apply obj_cb_empty_tag.
  - rewrite decode_uncompressed. unfold decode_payload. unfold bind at 1.
    rewrite obj_str_bytes. change (int32 xff xff xff xff <? 0)%Z with true.
    cbv iota. unfold bind at 1.
    rewrite decode_loop_trailing; [reflexivity | exact Ht |].
    intros d. apply obj_cb_empty_tag.
Qed.

(** C6 (as the code has it).  The 16-byte frame
    [00 00 00 10 00 FF FF FF FF 69 6E 74 00 00 00 2A], whose payload is a
    null message id, the tag [int] and the value 42, decodes to a message
    with id [""] and the single object [("int", 42)], the cursor being
    empty at the end.  The 13-byte frame of the same content without the
    three tag bytes raises [KeyError]. *)
Theorem decode_int_42 (separator : str) :
  (exists m,
     decode zlib_decompress
       (PyBytes [x00; x00; x00; x10; x00; xff; xff; xff; xff;
                 x69; x6e; x74; x00; x00; x00; x2a]) separator
     = Ok m (PyBytes []) /\
     msgid m = [] /\
     tagged_values m = [(u "int", VInt 42)]) /\
  decode zlib_decompress
    (PyBytes [x00; x00; x00; x0e; x00; xff; xff; xff; xff;
              x00; x00; x00; x2a]) separator
  = Raise KeyError.
Proof.
  split.
  - eexists. split; [lazy; reflexivity | split; reflexivity].
  - reflexivity.
Qed.

End Assembler.

(** C6 as stated fails: the frame [00 00 00 0E 00 FF FF FF FF 00 00 00 2A]
    holds no tag; the loop reads [00 00 00] as the tag, which is not in the
    table. *)
Lemma decode_13_byte_frame_raises :
  decode no_decompress
    (PyBytes [x00; x00; x00; x0e; x00; xff; xff; xff; xff;
              x00; x00; x00; x2a]) newline
  = Raise KeyError.
Proof. reflexivity. Qed.

Lemma decode_int_42_witness :
  exists m,
    decode no_decompress
      (PyBytes [x00; x00; x00; x10; x00; xff; xff; xff; xff;
                x69; x6e; x74; x00; x00; x00; x2a]) newline
    = Ok m (PyBytes []) /\
    msgid m = [] /\
    tagged_values m = [(u "int", VInt 42)].
Proof. exact (proj1 (decode_int_42 no_decompress newline)). Defined.

(** The frame of the end-to-end scenario sent compressed (flag 1, followed
    by the zlib stream of the payload) raises [TypeError]. *)
Lemma compressed_frame_raises_TypeError_witness :
  decode sample_inflate
    (PyBytes (x00 :: x00 :: x00 :: x18 :: x01 :: sample_stream)) newline
  = Raise TypeError.
Proof.
  apply compressed_frame_raises_TypeError with (raw := sample_payload).
  - discriminate.
  - reflexivity.
  - vm_compute. discriminate.
Defined.

(** A null message id followed by one stray byte. *)
Lemma trailing_bytes_raise_KeyError_witness :
  decode no_decompress
    (PyBytes [x00; x00; x00; x0a; x00; xff; xff; xff; xff; x00]) newline
  = Raise KeyError.
Proof.
  apply (@trailing_bytes_raise_KeyError no_decompress x00 x00 x00 x0a [x00]).
  cbn. lia.
Defined.

(* ================================================================== *)
(** * Hashtables *)
(* ================================================================== *)

Section Hashtable.

Variable cb : str -> M value.



End Hashtable.

Section HashtableOfTable.

Variable fuel : nat.





End HashtableOfTable.



(* ================================================================== *)
(** * Hdata *)
(* ================================================================== *)

Section Hdata.

Variable cb : str -> M value.

Lemma decode_seq_length ms : forall d vs d',
  decode_seq ms d = Ok vs d' -> length vs = length ms.
Proof.
  induction ms as [| m ms IH]; intros d vs d' H; cbn [decode_seq] in H.
  - apply ret_Ok in H as [<- _]. reflexivity.
  - apply bind_Ok in H as (v & d1 & _ & H).
    apply bind_Ok in H as (vs' & d2 & Hvs & H).
    apply ret_Ok in H as [<- _]. cbn [length]. f_equal. eauto.
Qed.

(** The pointer loop is the run of one pointer decoder per segment. *)
Lemma hdata_pointers_seq list_path : forall acc d pointers d',
  for_each list_path
    (fun (_ : str) pointers =>
       p <- _obj_ptr ;; ret (pointers ++ [of_option VStr p])) acc d
  = Ok pointers d' ->
  exists ps,
    decode_seq (map (fun _ => pointer_value) list_path) d = Ok ps d' /\
    pointers = acc ++ ps.
Proof.
  induction list_path as [| seg l IH]; intros acc d pointers d' H;
    cbn [for_each] in H.
  - apply ret_Ok in H as [<- <-]. exists []. split; [reflexivity |].
    now rewrite app_nil_r.
  - apply bind_Ok in H as (acc' & d1 & Hbody & H).
    apply bind_Ok in Hbody as (p & d2 & Hp & Hret).
    apply ret_Ok in Hret as [<- <-].
    apply IH in H as (ps & Hps & ->).
    exists (of_option VStr p :: ps). split.
    + cbn [map decode_seq].
      assert (Hpv : pointer_value d = Ok (of_option VStr p) d2).
      { unfold pointer_value, fmap. now bind_run Hp. }
      bind_run Hpv. bind_run Hps.
      reflexivity.
    + now rewrite <- app_assoc.
Qed.

(** The field loop, when it returns, has run the declared decoders in
    order and appended the fields under their names. *)
Lemma hdata_fields_seq entries : forall item d item' d',
  hdata_fields cb entries item d = Ok item' d' ->
  NoDup (map decl_name entries) ->
  (forall n, In n (map decl_name entries) ->
             ~ In (VStr n) (dict_keys_of item)) ->
  exists fields,
    decode_seq (map (fun entry => cb (decl_type entry)) entries) d
    = Ok fields d' /\
    item' = item ++ combine (map (fun entry => VStr (decl_name entry)) entries)
                            fields.
Proof.
  unfold hdata_fields.
  induction entries as [| entry l IH]; intros item d item' d' H Hnd Hfresh;
    cbn [for_each] in H.
  - apply ret_Ok in H as [<- <-]. exists []. split; [reflexivity |].
    cbn. now rewrite app_nil_r.
  - apply bind_Ok in H as (item1 & d1 & Hbody & H).
    destruct entry as [| key [| objtype [| extra entry]]]; try discriminate.
    apply bind_Ok in Hbody as (v & d2 & Hv & Hset).
    apply lift_Ok in Hset as [Hset ->]. cbn in Hset. injection Hset as <-.
    cbn [map decl_name decl_type nth] in *.
    inversion Hnd as [| ? ? Hkey Hnd']; subst.
    rewrite dict_update_fresh in H by (apply Hfresh; now left).
    apply IH in H as (fields & Hseq & ->); [| assumption |].
    + exists (v :: fields). split.
      * cbn [decode_seq]. bind_run Hv.
        bind_run Hseq. reflexivity.
      * cbn [combine]. now rewrite <- app_assoc.
    + intros n Hn. unfold dict_keys_of. rewrite map_app, in_app_iff.
      intros [Hin | [Heq | []]].
      * apply (Hfresh n); [now right | exact Hin].
      * cbn in Heq. injection Heq as <-. exact (Hkey Hn).
Qed.

(** One item of the code is one item of the declaration. *)
Lemma hdata_item_by_declaration list_path entries d item d' :
  hdata_item cb list_path entries d = Ok item d' ->
  NoDup (map decl_name entries) ->
  ~ In (u "__path") (map decl_name entries) ->
  item_by_declaration cb list_path entries d = Ok item d' /\
  item_shape list_path (map decl_name entries) item.
Proof.
  intros H Hnd Hpath. unfold hdata_item in H.
  apply bind_Ok in H as (item0 & d0 & Hinit & H).
  apply lift_Ok in Hinit as [Hinit ->]. cbn in Hinit. injection Hinit as <-.
  apply bind_Ok in H as (pointers & d1 & Hptr & H).
  unfold hdata_pointers in Hptr.
  apply hdata_pointers_seq in Hptr as (ps & Hps & ->). cbn [app] in *.
  apply bind_Ok in H as (item1 & d3 & Hfields & Hset).
  apply lift_Ok in Hset as [Hset ->].
  apply hdata_fields_seq in Hfields as (fields & Hseq & ->); [| assumption |].
  - cbn in Hset. injection Hset as <-. split.
    + unfold item_by_declaration.
      bind_run Hps. bind_run Hseq.
      reflexivity.
    + exists ps, fields. repeat apply conj.
      * now rewrite map_map.
      * apply decode_seq_length in Hps. now rewrite length_map in Hps.
      * apply decode_seq_length in Hseq. now rewrite !length_map in *.
  - intros n Hn [Heq | []]. injection Heq as Heq. subst n.
    apply Hpath. exact Hn.
Qed.

(** The item loop. *)
Lemma hdata_items_loop list_path entries n : forall acc d items d',
  for_range n
    (fun items =>
       item <- hdata_item cb list_path entries ;;
       ret (items ++ [VDict item])) acc d = Ok items d' ->
  exists its,
    items = acc ++ map VDict its /\
    length its = n /\
    (NoDup (map decl_name entries) ->
     ~ In (u "__path") (map decl_name entries) ->
     items_by_declaration cb list_path entries n d = Ok its d' /\
     Forall (item_shape list_path (map decl_name entries)) its).
Proof.
  induction n as [| n IH]; intros acc d items d' H; cbn [for_range] in H.
  - apply ret_Ok in H as [<- <-]. exists []. split; [| split].
    + cbn. now rewrite app_nil_r.
    + reflexivity.
    + intros _ _. split; [reflexivity | constructor].
  - apply bind_Ok in H as (acc' & d1 & Hbody & H).
    apply bind_Ok in Hbody as (item & d2 & Hitem & Hret).
    apply ret_Ok in Hret as [<- <-].
    apply IH in H as (its & -> & Hlen & Hdecl).
    exists (item :: its). split; [| split].
    + cbn [map]. now rewrite <- app_assoc.
    + cbn [length]. now rewrite Hlen.
    + intros Hnd Hpath.
      destruct (Hdecl Hnd Hpath) as [Hits Hshape].
      destruct (hdata_item_by_declaration _ _ _ Hitem Hnd Hpath)
        as [Hone Hshape1].
      split; [| now constructor].
      cbn [items_by_declaration].
      bind_run Hone. bind_run Hits.
      reflexivity.
Qed.

Lemma hdata_Ok (d : pyseq) (v : value) (d' : pyseq) :
  _obj_hdata cb d = Ok v d' ->
  exists path keys count d0 dict_keys items,
    hdata_header d = Ok (path, keys, count) d0 /\
    v = VDict [(VStr (u "path"), VList (map VStr (split_if path 47)));
               (VStr (u "keys"), VDict dict_keys);
               (VStr (u "count"), VInt count);
               (VStr (u "items"), VList (map VDict items))] /\
    length items = range count /\
    (NoDup (map decl_name (declared keys)) ->
     ~ In (u "__path") (map decl_name (declared keys)) ->
     items_by_declaration cb (split_if path 47) (declared keys) (range count) d0
     = Ok items d' /\
     Forall (item_shape (split_if path 47) (map decl_name (declared keys)))
            items).
Proof.
  intros H. unfold _obj_hdata in H.
  apply bind_Ok in H as (path & d1 & Hpath & H).
  apply bind_Ok in H as (keys & d2 & Hkeys & H).
  apply bind_Ok in H as (count & d0 & Hcount & H).
  apply bind_Ok in H as ([keys_types dict_keys] & d3 & Hkt & H).
  apply hdata_keys_entries in Hkt as [-> ->]. cbn [app] in H.
  apply bind_Ok in H as (items & d4 & Hloop & H).
  apply ret_Ok in H as [<- <-].
  apply hdata_items_loop in Hloop as (its & -> & Hlen & Hdecl).
  exists path, keys, count, d0, dict_keys, its. repeat apply conj.
  - unfold hdata_header.
    bind_run Hpath. bind_run Hkeys.
    bind_run Hcount. reflexivity.
  - reflexivity.
  - exact Hlen.
  - exact Hdecl.
Qed.


End Hdata.

Section HdataOfTable.

Variable fuel : nat.

Lemma plain_entry_split list_keys :
  Forall plain_entry (map (split 58) list_keys) ->
  Forall (fun key => plain_entry (split 58 key)) list_keys.
Proof. intros H. exact (proj1 (Forall_map _ _ _) H). Qed.

(** With well-formed entries the first loop returns. *)
Lemma hdata_keys_returns list_keys :
  Forall (fun key => plain_entry (split 58 key)) list_keys ->
  returns any (hdata_keys list_keys).
Proof.
  intros Hl. unfold hdata_keys.
  eapply returns_for_each with (I := any); [| exact Hl | exact I].
  intros key [kts dk] (name & type & Hsplit & _) _. rewrite Hsplit.
  cbn [getitem nth_error lift]. unfold bind, ret at 1 2. cbn [setitem hashable lift].
  now apply returns_ret.
Qed.

(** With well-formed entries of plain types an item is always decoded. *)
Lemma hdata_item_returns list_path keys_types :
  Forall plain_entry keys_types ->
  returns any (hdata_item (_obj_cb fuel) list_path keys_types).
Proof.
  intros Hk. unfold hdata_item.
  cbn [setitem hashable lift]. eapply returns_bind with (P := any);
    [now apply returns_ret |]. intros item0 _.
  eapply returns_bind with (P := any).
  { unfold hdata_pointers.
    eapply returns_for_each with (I := any) (R := any);
      [| apply Forall_forall; intros; exact I | exact I].
    intros seg pointers _ _.
    eapply returns_bind; [apply returns_obj_ptr |].
    intros p _. now apply returns_ret. }
  intros pointers _.
  eapply returns_bind with (P := any).
  { unfold hdata_fields.
    eapply returns_for_each with (I := any); [| exact Hk | exact I].
    intros entry item (name & type & -> & Hplain) _.
    eapply returns_bind; [now apply returns_obj_cb_plain |].
    intros v _. cbn [setitem hashable lift]. now apply returns_ret. }
  intros item _. cbn [setitem hashable lift]. now apply returns_ret.
Qed.

(** With well-formed entries of plain types the hdata decoder returns. *)
Lemma hdata_returns d path keys count d0 :
  cursor d ->
  hdata_header d = Ok (path, keys, count) d0 ->
  Forall plain_entry (declared keys) ->
  exists v d', _obj_hdata (_obj_cb fuel) d = Ok v d'.
Proof.
  intros Hd Hhead Hplain. unfold hdata_header in Hhead.
  apply bind_Ok in Hhead as (p & d1 & Hpath & Hhead).
  apply bind_Ok in Hhead as (k & d2 & Hkeys & Hhead).
  apply bind_Ok in Hhead as (n & d3 & Hcount & Hhead).
  apply ret_Ok in Hhead as [Heq ->]. injection Heq as -> -> ->.
  assert (Hd0 : cursor d0).
  { apply (returns_cursor returns_obj_str Hd) in Hpath as [_ Hd1].
    apply (returns_cursor returns_obj_str Hd1) in Hkeys as [_ Hd2].
    now apply (returns_cursor returns_obj_int Hd2) in Hcount. }
  unfold declared in Hplain.
  destruct (hdata_keys_returns (plain_entry_split _ Hplain) Hd0)
    as ([kts dk] & d4 & Hkt & _ & _).
  pose proof Hkt as Hkt'.
  apply hdata_keys_entries in Hkt' as [Hkts Hd4]. cbn [app] in Hkts. subst d4.
  destruct (@returns_for_range (list value) any (range count)
              (fun items =>
                 item <- hdata_item (_obj_cb fuel) (split_if path 47) kts ;;
                 ret (items ++ [VDict item]))) with (acc := @nil value) (d := d0)
    as (items & d' & Hloop & _ & _).
  - intros acc _.
    eapply returns_bind; [apply hdata_item_returns; now rewrite Hkts |].
    intros item _. now apply returns_ret.
  - exact I.
  - exact Hd0.
  - eexists _, d'. unfold _obj_hdata.
    bind_run Hpath. bind_run Hkeys. bind_run Hcount. bind_run Hkt.
    bind_run Hloop. reflexivity.
Qed.

(** C7 (as the code has it).  Whenever [_obj_hdata] returns, it returns the
    path list, the declared keys, the count and one item per count.  When
    the declared key names are pairwise distinct and none is [__path], the
    items are those of the declaration: each holds, under [__path], one
    pointer per path segment in path order, followed by one field per
    declared entry, in declared order and under its declared name, each
    decoded by the decoder of its declared type.  And [_obj_hdata] does
    return whenever every declared entry is a [name:type] pair of a plain
    type ([chr], [int], [str], [buf], [ptr]), whatever bytes follow. *)
Theorem hdata_items_follow_declaration (d : pyseq) :
  (forall v d',
     _obj_hdata (_obj_cb fuel) d = Ok v d' ->
     exists path keys count d0 dict_keys items,
       hdata_header d = Ok (path, keys, count) d0 /\
       v = VDict [(VStr (u "path"), VList (map VStr (split_if path 47)));
                  (VStr (u "keys"), VDict dict_keys);
                  (VStr (u "count"), VInt count);
                  (VStr (u "items"), VList (map VDict items))] /\
       length items = range count /\
       (NoDup (map decl_name (declared keys)) ->
        ~ In (u "__path") (map decl_name (declared keys)) ->
        items_by_declaration (_obj_cb fuel) (split_if path 47) (declared keys)
          (range count) d0 = Ok items d' /\
        Forall (item_shape (split_if path 47)
                  (map decl_name (declared keys))) items)) /\
  (forall path keys count d0,
     cursor d ->
     hdata_header d = Ok (path, keys, count) d0 ->
     Forall plain_entry (declared keys) ->
     exists v d', _obj_hdata (_obj_cb fuel) d = Ok v d').
Proof.
  split.
  - intros v d'. apply hdata_Ok.
  - intros. eapply hdata_returns; eauto.
Qed.

End HdataOfTable.

(** C7 as stated fails: the keys string ["x:int,x:int"] declares two pairs;
    the item holds one field [x], the second value having replaced the
    first. *)
Lemma hdata_duplicate_names_collapse :
  _obj_hdata (_obj_cb 0)
    (PyBytes
       [x00; x00; x00; x01; x61; x00; x00; x00; x0b; x78; x3a; x69;
        x6e; x74; x2c; x78; x3a; x69; x6e; x74; x00; x00; x00; x01;
        x01; x31; x00; x00; x00; x01; x00; x00; x00; x02])
  = Ok (VDict [(VStr (u "path"), VList [VStr (u "a")]);
               (VStr (u "keys"), VDict [(VStr (u "x"), VStr (u "int"))]);
               (VStr (u "count"), VInt 1);
               (VStr (u "items"),
                VList [VDict [(VStr (u "__path"), VList [VStr (u "0x1")]);
                              (VStr (u "x"), VInt 2)]])])
       (PyBytes []).
Proof. reflexivity. Qed.

Lemma hdata_items_follow_declaration_witness :
  (exists items,
     length items = 1%nat /\
     items_by_declaration (_obj_cb 0) [u "a"; u "b"]
       [[u "x"; u "int"]; [u "y"; u "str"]] 1
       (PyBytes (skipn 26 hdata_sample)) = Ok items (PyBytes []) /\
     Forall (item_shape [u "a"; u "b"] [u "x"; u "y"]) items) /\
  (exists v d', _obj_hdata (_obj_cb 0) (PyBytes hdata_sample) = Ok v d').
Proof.
  destruct (@hdata_items_follow_declaration 0 (PyBytes hdata_sample))
    as [Hshape Hreturns].
  split.
  - destruct (Hshape
                (VDict [(VStr (u "path"), VList [VStr (u "a"); VStr (u "b")]);
                        (VStr (u "keys"),
                         VDict [(VStr (u "x"), VStr (u "int"));
                                (VStr (u "y"), VStr (u "str"))]);
                        (VStr (u "count"), VInt 1);
                        (VStr (u "items"),
                         VList [VDict [(VStr (u "__path"),
                                        VList [VStr (u "0x1"); VStr (u "0x2")]);
                                       (VStr (u "x"), VInt 7);
                                       (VStr (u "y"), VStr (u "hi"))]])])
                (PyBytes []) eq_refl)
      as (path & keys & count & d0 & dict_keys & items
          & Hhead & Hv & Hlen & Hdecl).
    injection Hhead as <- <- <- <-.
    destruct Hdecl as [Hitems Hitem_shape].
    + repeat constructor; cbn; intuition discriminate.
    + cbn. intuition discriminate.
    + exists items. repeat apply conj.
      * exact Hlen.
      * exact Hitems.
      * exact Hitem_shape.
  - apply (Hreturns (Some (u "a/b")) (Some (u "x:int,y:str")) 1%Z
             (PyBytes (skipn 26 hdata_sample))).
    + apply cursor_bytes.
    + reflexivity.
    + repeat constructor; eexists _, _; split; reflexivity.
Defined.

(* ================================================================== *)
(** * Integers and characters against [struct.pack] *)
(* ================================================================== *)

Section PackUnpack.

Lemma byteval_byte_of_Z z : byteval (byte_of_Z z) = (z mod 256)%Z.
Proof.
  assert (Hm : (0 <= z mod 256 < 256)%Z) by (apply Z.mod_pos_bound; lia).
  unfold byte_of_Z, byteval.
  destruct (Byte.of_N (Z.to_N (z mod 256))) as [b |] eqn:E.
  - apply Byte.to_of_N in E. rewrite E. apply Z2N.id. lia.
  - apply Byte.of_N_None_iff in E. lia.
Qed.

Lemma int32_range a b c e :
  (-2147483648 <= int32 a b c e <= 2147483647)%Z.
Proof.
  pose proof (byteval_range a). pose proof (byteval_range b).
  pose proof (byteval_range c). pose proof (byteval_range e).
  unfold int32, to_signed, be_unsigned. cbn [fold_left].
  change (2 ^ (32 - 1))%Z with 2147483648%Z. change (2 ^ 32)%Z with 4294967296%Z.
  match goal with
  | |- context [if (?x <? _)%Z then _ else _] =>
      destruct (Z.ltb_spec x 2147483648); lia
  end.
Qed.

Lemma pack_i_bytes n l :
  pack_i n = Val l ->
  exists a b c e, l = [a; b; c; e] /\ int32 a b c e = n.
Proof.
  unfold pack_i. intros H.
  destruct ((-2147483648 <=? n) && (n <=? 2147483647))%Z eqn:Hr;
    [| discriminate].
  apply andb_true_iff in Hr as [Hlo Hhi].
  apply Z.leb_le in Hlo. apply Z.leb_le in Hhi.
  injection H as <-. do 4 eexists. split; [reflexivity |].
  unfold int32, to_signed, be_unsigned. cbn [fold_left].
  rewrite !byteval_byte_of_Z.
  change (2 ^ (32 - 1))%Z with 2147483648%Z. change (2 ^ 32)%Z with 4294967296%Z.
  change (Z.pow_pos 2 32) with 4294967296%Z.
  change (Z.pow_pos 2 24) with 16777216%Z.
  change (Z.pow_pos 2 16) with 65536%Z.
  change (Z.pow_pos 2 8) with 256%Z.
  set (x := (n mod 4294967296)%Z).
  assert (Hx : (0 <= x < 4294967296)%Z) by (apply Z.mod_pos_bound; lia).
  assert (Hsum : ((((0 * 256 + (x / 16777216) mod 256) * 256
                    + (x / 65536) mod 256) * 256
                   + (x / 256) mod 256) * 256 + x mod 256 = x)%Z).
  { Z.to_euclidean_division_equations. lia. }
  rewrite Hsum.
  assert (Hn : (x = n \/ x = n + 4294967296)%Z).
  { subst x. Z.to_euclidean_division_equations. lia. }
  destruct (Z.ltb_spec x 2147483648); lia.
Qed.

Lemma pack_b_bytes n l :
  pack_b n = Val l -> exists b, l = [b] /\ to_signed 8 (byteval b) = n.
Proof.
  unfold pack_b. intros H.
  destruct ((-128 <=? n) && (n <=? 127))%Z eqn:Hr; [| discriminate].
  apply andb_true_iff in Hr as [Hlo Hhi].
  apply Z.leb_le in Hlo. apply Z.leb_le in Hhi.
  injection H as <-. eexists. split; [reflexivity |].
  rewrite byteval_byte_of_Z. unfold to_signed.
  change (2 ^ (8 - 1))%Z with 128%Z. change (2 ^ 8)%Z with 256%Z.
  assert (Hn : (n mod 256 = n \/ n mod 256 = n + 256)%Z)
    by (Z.to_euclidean_division_equations; lia).
  destruct (Z.ltb_spec (n mod 256) 128); lia.
Qed.

Lemma obj_int_cases d v d' :
  _obj_int d = Ok v d' ->
  v = 0%Z \/ exists a b c e rest, d = PyBytes (a :: b :: c :: e :: rest) /\
                                  v = int32 a b c e.
Proof.
  intros H. destruct d as [l | s].
  - destruct l as [| a [| b [| c [| e rest]]]];
      try (left; cbn in H; injection H as <- _; reflexivity).
    right. rewrite obj_int_bytes in H. injection H as <- _.
    now exists a, b, c, e, rest.
  - left. unfold _obj_int, bind, get in H.
    destruct (len (PyStr s) <? 4)%nat.
    + cbn in H. now injection H as <- _.
    + cbn in H. discriminate.
Qed.

Lemma obj_char_cases d v d' :
  _obj_char d = Ok v d' ->
  v = 0%Z \/ exists b rest, d = PyBytes (b :: rest) /\
                            v = to_signed 8 (byteval b).
Proof.
  intros H. destruct d as [l | s].
  - destruct l as [| b rest].
    + left. cbn in H. now injection H as <- _.
    + right. rewrite obj_char_bytes in H. injection H as <- _.
      now exists b, rest.
  - left. unfold _obj_char, bind, get in H.
    destruct (len (PyStr s) <? 1)%nat.
    + cbn in H. now injection H as <- _.
    + cbn in H. discriminate.
Qed.

(** X1.  [_obj_int] reads back what [struct.pack('>i', n)] writes: on the
    four bytes packed for [n], followed by anything, it returns [n] and
    leaves what follows.  Whatever the cursor, what it returns is a signed
    32-bit integer. *)
Theorem obj_int_inverts_pack :
  (forall n l rest,
     pack_i n = Val l ->
     _obj_int (PyBytes (l ++ rest)) = Ok n (PyBytes rest)) /\
  (forall d v d',
     _obj_int d = Ok v d' -> (-2147483648 <= v <= 2147483647)%Z).
Proof.
  split.
  - intros n l rest H. apply pack_i_bytes in H as (a & b & c & e & -> & <-).
    apply obj_int_bytes.
  - intros d v d' H.
    apply obj_int_cases in H as [-> | (a & b & c & e & rest & _ & ->)];
      [lia | apply int32_range].
Qed.

Lemma obj_int_inverts_pack_witness :
  _obj_int (PyBytes [xff; xff; xff; xd6; x41]) = Ok (-42)%Z (PyBytes [x41]) /\
  (-2147483648 <= -42 <= 2147483647)%Z.
Proof.
  destruct obj_int_inverts_pack as [Hback Hrange].
  assert (H : _obj_int (PyBytes ([xff; xff; xff; xd6] ++ [x41]))
              = Ok (-42)%Z (PyBytes [x41])).
  { apply Hback. reflexivity. }
  split; [exact H | exact (Hrange _ _ _ H)].
Defined.

(** X2.  [_obj_char] reads back what [struct.pack('b', n)] writes, and
    whatever the cursor, what it returns is a signed 8-bit integer. *)
Theorem obj_char_inverts_pack :
  (forall n l rest,
     pack_b n = Val l ->
     _obj_char (PyBytes (l ++ rest)) = Ok n (PyBytes rest)) /\
  (forall d v d', _obj_char d = Ok v d' -> (-128 <= v <= 127)%Z).
Proof.
  split.
  - intros n l rest H. apply pack_b_bytes in H as (b & -> & <-).
    apply obj_char_bytes.
  - intros d v d' H.
    apply obj_char_cases in H as [-> | (b & rest & _ & ->)]; [lia |].
    pose proof (byteval_range b). unfold to_signed.
    change (2 ^ (8 - 1))%Z with 128%Z. change (2 ^ 8)%Z with 256%Z.
    destruct (Z.ltb_spec (byteval b) 128); lia.
Qed.

Lemma obj_char_inverts_pack_witness :
  _obj_char (PyBytes [x80; x41]) = Ok (-128)%Z (PyBytes [x41]) /\
  (-128 <= -128 <= 127)%Z.
Proof.
  destruct obj_char_inverts_pack as [Hback Hrange].
  assert (H : _obj_char (PyBytes ([x80] ++ [x41]))
              = Ok (-128)%Z (PyBytes [x41])).
  { apply Hback. reflexivity. }
  split; [exact H | exact (Hrange _ _ _ H)].
Defined.

End PackUnpack.

(* ================================================================== *)
(** * Decimal text of a long or a time *)
(* ================================================================== *)

Section DecimalText.

Lemma digit_chr b :
  digit_byte b ->
  is_digit (chr b) = true /\ is_space (chr b) = false /\
  (chr b =? 43)%N = false /\ (chr b =? 45)%N = false /\
  Z.of_N (chr b) = byteval b.
Proof.
  unfold digit_byte, byteval, chr, is_digit, is_space, between. intros H.
  repeat apply conj.
  - apply andb_true_iff. split; apply N.leb_le; lia.
  - repeat (apply orb_false_iff; split).
    + apply andb_false_iff. right. apply N.leb_gt. lia.
    + apply N.eqb_neq. lia.
    + apply N.eqb_neq. lia.
    + apply N.eqb_neq. lia.
  - apply N.eqb_neq. lia.
  - apply N.eqb_neq. lia.
  - reflexivity.
Qed.

Lemma scan_digits_all content : forall acc,
  Forall digit_byte content ->
  scan_digits (map chr content) acc false
  = Some (fold_left (fun a b => (a * 10 + (byteval b - 48))%Z) content acc, []).
Proof.
  induction content as [| b content IH]; intros acc H; [reflexivity |].
  inversion H as [| ? ? Hb Hrest]; subst.
  destruct (digit_chr Hb) as (Hd & _ & _ & _ & Hz).
  cbn [map scan_digits fold_left]. rewrite Hd, Hz. now apply IH.
Qed.

(** [int] of a run of ASCII digits. *)
Lemma int_of_digits content :
  content <> [] -> Forall digit_byte content ->
  int (map chr content) = Val (decimal_of_bytes content).
Proof.
  intros Hne Hall. destruct content as [| b content]; [contradiction |].
  inversion Hall as [| ? ? Hb _]; subst.
  destruct (digit_chr Hb) as (Hd & Hs & Hplus & Hminus & _).
  unfold int. cbn [map skip_space]. rewrite Hs.
  unfold split_sign. rewrite Hplus, Hminus, Hd.
  change (chr b :: map chr content) with (map chr (b :: content)).
  rewrite scan_digits_all by assumption. cbn [skip_space].
  unfold decimal_of_bytes. f_equal; lia.
Qed.

(** [int] of a minus sign and a run of ASCII digits. *)
Lemma int_of_negative content :
  content <> [] -> Forall digit_byte content ->
  int (map chr (x2d :: content)) = Val (- decimal_of_bytes content)%Z.
Proof.
  intros Hne Hall. destruct content as [| b content]; [contradiction |].
  inversion Hall as [| ? ? Hb _]; subst.
  destruct (digit_chr Hb) as (Hd & _ & _ & _ & _).
  unfold int. cbn [map]. change (chr x2d) with 45%N.
  cbn [skip_space]. change (is_space 45) with false. cbv iota.
  unfold split_sign. change (45 =? 43)%N with false.
  change (45 =? 45)%N with true. cbv iota. rewrite Hd.
  change (chr b :: map chr content) with (map chr (b :: content)).
  rewrite scan_digits_all by assumption. cbn [skip_space].
  unfold decimal_of_bytes. f_equal; lia.
Qed.

Lemma field_of_length (lenb : byte) (content rest : list byte) :
  byteval lenb = Z.of_nat (length content) ->
  _obj_len_data 1 (PyBytes (lenb :: content ++ rest))
  = Ok (Some (map chr content)) (PyBytes rest).
Proof.
  intros H. rewrite obj_len_data_1, H, Nat2Z.id.
  rewrite firstn_app, skipn_app, Nat.sub_diag, firstn_all, skipn_all.
  cbn [firstn skipn]. now rewrite app_nil_r.
Qed.

(** X3.  A time or a long whose content is a non-empty run of ASCII decimal
    digits decodes to the number the digits write in base 10, and the cursor
    is left after the content; a long written as a minus sign and digits
    decodes to the negated number. *)
Theorem decimal_field_value (lenb : byte) (content rest : list byte) :
  content <> [] ->
  Forall digit_byte content ->
  (byteval lenb = Z.of_nat (length content) ->
   _obj_time (PyBytes (lenb :: content ++ rest))
   = Ok (Some (decimal_of_bytes content)) (PyBytes rest) /\
   _obj_long (PyBytes (lenb :: content ++ rest))
   = Ok (Some (decimal_of_bytes content)) (PyBytes rest)) /\
  (byteval lenb = Z.of_nat (S (length content)) ->
   _obj_long (PyBytes (lenb :: x2d :: content ++ rest))
   = Ok (Some (- decimal_of_bytes content)%Z) (PyBytes rest)).
Proof.
  intros Hne Hall. split.
  - intros Hlen. unfold _obj_time, _obj_long, bind.
    rewrite (@field_of_length lenb content rest Hlen).
    rewrite int_of_digits by assumption. split; reflexivity.
  - intros Hlen. unfold _obj_long, bind.
    change (x2d :: content ++ rest) with ((x2d :: content) ++ rest).
    rewrite (@field_of_length lenb (x2d :: content) rest Hlen).
    rewrite int_of_negative by assumption. reflexivity.
Qed.

Lemma decimal_field_value_witness :
  _obj_time (PyBytes [x0a; x31; x33; x32; x31; x39; x39; x33; x34; x35; x36;
                      x41])
  = Ok (Some 1321993456%Z) (PyBytes [x41]).
Proof.
  apply (proj1 (@decimal_field_value x0a
                  [x31; x33; x32; x31; x39; x39; x33; x34; x35; x36] [x41]
                  ltac:(discriminate)
                  ltac:(repeat constructor; vm_compute; discriminate))).
  reflexivity.
Defined.

End DecimalText.

(* ================================================================== *)
(** * Arrays, infolists and infos *)
(* ================================================================== *)

Section Containers.

Variable fuel : nat.

Lemma read_n_length {A} (m : M A) n : forall d l d',
  read_n m n d = Ok l d' -> length l = n.
Proof.
  induction n as [| n IH]; intros d l d' H; cbn [read_n] in H.
  - apply ret_Ok in H as [<- _]. reflexivity.
  - apply bind_Ok in H as (a & d1 & _ & H).
    apply bind_Ok in H as (rest & d2 & Hrest & H).
    apply ret_Ok in H as [<- _]. cbn [length]. f_equal. eauto.
Qed.

(** The loop of [_obj_array] appends the values in the order read. *)
Lemma array_loop (m : M value) n : forall acc d values d',
  for_range n (fun values => v <- m ;; ret (values ++ [v])) acc d
  = Ok values d' ->
  exists vs, read_n m n d = Ok vs d' /\ values = acc ++ vs.
Proof.
  induction n as [| n IH]; intros acc d values d' H; cbn [for_range] in H.
  - apply ret_Ok in H as [<- <-]. exists []. split; [reflexivity |].
    now rewrite app_nil_r.
  - apply bind_Ok in H as (acc' & d1 & Hbody & H).
    apply bind_Ok in Hbody as (v & d2 & Hv & Hret).
    apply ret_Ok in Hret as [<- <-].
    apply IH in H as (vs & Hvs & ->).
    exists (v :: vs). split.
    + cbn [read_n]. bind_run Hv. bind_run Hvs. reflexivity.
    + now rewrite <- app_assoc.
Qed.

(** X4.  Whenever [_obj_array] returns, it has read the element type and
    the count N and returns the list of exactly N values decoded one after
    the other by the decoder of that type.  With a count of 0 or less it
    returns the empty list whatever the type tag is, known or not.  With a
    plain element type it returns whatever bytes follow. *)
Theorem array_reads_count_values (d : pyseq) :
  (forall v d',
     _obj_array (_obj_cb fuel) d = Ok v d' ->
     exists type_values count d0 values,
       array_header d = Ok (type_values, count) d0 /\
       read_n (_obj_cb fuel type_values) (range count) d0 = Ok values d' /\
       length values = range count /\
       v = VList values) /\
  (forall type_values count d0,
     array_header d = Ok (type_values, count) d0 ->
     (count <= 0)%Z ->
     _obj_array (_obj_cb fuel) d = Ok (VList []) d0) /\
  (forall type_values count d0,
     cursor d ->
     array_header d = Ok (type_values, count) d0 ->
     plain_tag type_values = true ->
     exists values d', _obj_array (_obj_cb fuel) d = Ok (VList values) d').
Proof.
  repeat apply conj.
  - intros v d' H. unfold _obj_array in H.
    apply bind_Ok in H as (t & d1 & Ht & H).
    apply bind_Ok in H as (count & d0 & Hcount & H).
    apply bind_Ok in H as (values & d2 & Hloop & H).
    apply ret_Ok in H as [<- <-].
    apply array_loop in Hloop as (vs & Hvs & ->). cbn [app].
    exists t, count, d0, vs. repeat apply conj.
    + unfold array_header. bind_run Ht. bind_run Hcount. reflexivity.
    + exact Hvs.
    + now apply read_n_length in Hvs.
    + reflexivity.
  - intros t count d0 Hhead Hcount. unfold array_header in Hhead.
    apply bind_Ok in Hhead as (t' & d1 & Ht & Hhead).
    apply bind_Ok in Hhead as (c' & d2 & Hc & Hhead).
    apply ret_Ok in Hhead as [Heq ->]. injection Heq as -> ->.
    unfold _obj_array. bind_run Ht. bind_run Hc.
    assert (Hr : range count = 0%nat) by (unfold range; lia).
    rewrite Hr. reflexivity.
  - intros t count d0 Hd Hhead Hplain. unfold array_header in Hhead.
    apply bind_Ok in Hhead as (t' & d1 & Ht & Hhead).
    apply bind_Ok in Hhead as (c' & d2 & Hc & Hhead).
    apply ret_Ok in Hhead as [Heq ->]. injection Heq as -> ->.
    assert (Hd0 : cursor d0).
    { apply (obj_type_cursor Hd) in Ht.
      now apply (returns_cursor returns_obj_int Ht) in Hc. }
    destruct (@returns_for_range (list value) any (range count)
                (fun values => v <- _obj_cb fuel t ;; ret (values ++ [v])))
      with (acc := @nil value) (d := d0) as (values & d' & Hloop & _ & _).
    + intros acc _. eapply returns_bind; [now apply returns_obj_cb_plain |].
      intros v _. now apply returns_ret.
    + exact I.
    + exact Hd0.
    + exists values, d'. unfold _obj_array.
      bind_run Ht. bind_run Hc. bind_run Hloop. reflexivity.
Qed.

End Containers.

Lemma array_reads_count_values_witness :
  (exists values,
     read_n (_obj_cb 0 (u "int")) 2 (PyBytes (skipn 7 array_sample))
     = Ok values (PyBytes []) /\
     VList [VInt 7; VInt 9] = VList values) /\
  _obj_array (_obj_cb 0) (PyBytes [x78; x79; x7a; x00; x00; x00; x00; x41])
  = Ok (VList []) (PyBytes [x41]).
Proof.
  split.
  - destruct (proj1 (@array_reads_count_values 0 (PyBytes array_sample))
                (VList [VInt 7; VInt 9]) (PyBytes []) eq_refl)
      as (t & count & d0 & values & Hhead & Hread & _ & Hv).
    injection Hhead as <- <- <-. exists values. split; [exact Hread | exact Hv].
  - apply (proj1 (proj2 (@array_reads_count_values 0
             (PyBytes [x78; x79; x7a; x00; x00; x00; x00; x41])))
             (u "xyz") 0%Z (PyBytes [x41])).
    + reflexivity.
    + lia.
Defined.

Section Infolist.

Variable fuel : nat.

(** The variable loop of an infolist item inserts the variables in the
    order read. *)
Lemma infolist_vars_loop (cb : str -> M value) n : forall acc d r d',
  for_range n
    (fun variables : WeechatDict =>
       var_name <- _obj_str ;;
       var_type <- _obj_type ;;
       var_value <- cb var_type ;;
       lift (setitem variables (of_option VStr var_name) var_value)) acc d
  = Ok r d' ->
  exists vars,
    read_n (read_variable cb) n d = Ok vars d' /\ r = insert_all vars acc.
Proof.
  induction n as [| n IH]; intros acc d r d' H; cbn [for_range] in H.
  - apply ret_Ok in H as [<- <-]. now exists [].
  - apply bind_Ok in H as (acc' & d1 & Hbody & H).
    apply bind_Ok in Hbody as (name & d2 & Hname & Hbody).
    apply bind_Ok in Hbody as (type & d3 & Htype & Hbody).
    apply bind_Ok in Hbody as (val & d4 & Hval & Hset).
    apply lift_Ok in Hset as [Hset ->].
    unfold setitem in Hset. rewrite hashable_of_option_str in Hset.
    injection Hset as <-.
    apply IH in H as (vars & Hvars & ->).
    exists ((of_option VStr name, val) :: vars). split; [| reflexivity].
    cbn [read_n].
    assert (Hvar : read_variable cb d = Ok (of_option VStr name, val) d4).
    { unfold read_variable. bind_run Hname. bind_run Htype. bind_run Hval.
      reflexivity. }
    bind_run Hvar. bind_run Hvars. reflexivity.
Qed.

(** The item loop of [_obj_infolist]. *)
Lemma infolist_items_loop (cb : str -> M value) n : forall acc d r d',
  for_range n
    (fun items =>
       count_vars <- _obj_int ;;
       variables <- for_range (range count_vars)
         (fun variables : WeechatDict =>
            var_name <- _obj_str ;;
            var_type <- _obj_type ;;
            var_value <- cb var_type ;;
            lift (setitem variables (of_option VStr var_name) var_value)) [] ;;
       ret (items ++ [VDict variables])) acc d
  = Ok r d' ->
  exists its,
    read_n (read_item_variables cb) n d = Ok its d' /\
    r = acc ++ map (fun vars => VDict (insert_all vars [])) its.
Proof.
  induction n as [| n IH]; intros acc d r d' H; cbn [for_range] in H.
  - apply ret_Ok in H as [<- <-]. exists []. split; [reflexivity |].
    cbn. now rewrite app_nil_r.
  - apply bind_Ok in H as (acc' & d1 & Hbody & H).
    apply bind_Ok in Hbody as (count_vars & d2 & Hcount & Hbody).
    apply bind_Ok in Hbody as (variables & d3 & Hvars & Hret).
    apply ret_Ok in Hret as [<- <-].
    apply infolist_vars_loop in Hvars as (vars & Hvars & ->).
    apply IH in H as (its & Hits & ->).
    exists (vars :: its). split.
    + cbn [read_n].
      assert (Hitem : read_item_variables cb d = Ok vars d3).
      { unfold read_item_variables. bind_run Hcount. exact Hvars. }
      bind_run Hitem. bind_run Hits. reflexivity.
    + cbn [map]. now rewrite <- app_assoc.
Qed.

(** X5.  Whenever [_obj_infolist] returns, it has read the name and the
    item count N, then exactly N items, each a variable count followed by
    that many variables (name, type tag, value by the decoder of the tag);
    every item is the dictionary of its variables inserted in the order
    read, and lists them all in that order when their names are pairwise
    distinct. *)
Theorem infolist_reads_items (d : pyseq) (v : value) (d' : pyseq) :
  _obj_infolist (_obj_cb fuel) d = Ok v d' ->
  exists name count d0 items,
    infolist_header d = Ok (name, count) d0 /\
    read_n (read_item_variables (_obj_cb fuel)) (range count) d0
    = Ok items d' /\
    length items = range count /\
    v = VDict [(VStr (u "name"), of_option VStr name);
               (VStr (u "items"),
                VList (map (fun vars => VDict (insert_all vars [])) items))] /\
    (Forall (fun vars => NoDup (map fst vars)) items ->
     v = VDict [(VStr (u "name"), of_option VStr name);
                (VStr (u "items"), VList (map VDict items))]).
Proof.
  intros H. unfold _obj_infolist in H.
  apply bind_Ok in H as (name & d1 & Hname & H).
  apply bind_Ok in H as (count & d0 & Hcount & H).
  apply bind_Ok in H as (items & d2 & Hloop & H).
  apply ret_Ok in H as [<- <-].
  apply infolist_items_loop in Hloop as (its & Hits & ->). cbn [app].
  exists name, count, d0, its. repeat apply conj.
  - unfold infolist_header. bind_run Hname. bind_run Hcount. reflexivity.
  - exact Hits.
  - now apply read_n_length in Hits.
  - reflexivity.
  - intros Hnd. do 5 f_equal. apply map_ext_in. intros vars Hin.
    rewrite Forall_forall in Hnd. f_equal.
    rewrite insert_all_distinct; [reflexivity | now apply Hnd |].
    intros k _ [].
Qed.

End Infolist.

Lemma infolist_reads_items_witness :
  exists items,
    length items = 1%nat /\
    VDict [(VStr (u "name"), VStr (u "hl"));
           (VStr (u "items"),
            VList [VDict [(VStr (u "buffer_name"), VStr (u "a.b"));
                          (VStr (u "count_00"), VInt 4)]])]
    = VDict [(VStr (u "name"), VStr (u "hl"));
             (VStr (u "items"),
              VList (map (fun vars => VDict (insert_all vars [])) items))].
Proof.
  destruct (@infolist_reads_items 0 (PyBytes infolist_sample)
              (VDict [(VStr (u "name"), VStr (u "hl"));
                      (VStr (u "items"),
                       VList [VDict [(VStr (u "buffer_name"), VStr (u "a.b"));
                                     (VStr (u "count_00"), VInt 4)]])])
              (PyBytes []) eq_refl)
    as (name & count & d0 & items & Hhead & _ & Hlen & Hv & _).
  injection Hhead as <- <- _.
  exists items. split; [exact Hlen | exact Hv].
Defined.

Section Info.

Lemma obj_str_packed (l4 content rest : list byte) :
  pack_i (Z.of_nat (length content)) = Val l4 ->
  _obj_str (PyBytes (l4 ++ content ++ rest))
  = Ok (Some (map chr content)) (PyBytes rest).
Proof.
  intros H. apply pack_i_bytes in H as (a & b & c & e & -> & Hlen).
  cbn [app]. rewrite obj_str_bytes, Hlen.
  destruct (Z.ltb_spec (Z.of_nat (length content)) 0) as [Hneg | _]; [lia |].
  rewrite Nat2Z.id, firstn_app, skipn_app, Nat.sub_diag.
  rewrite firstn_all, skipn_all. cbn [firstn skipn]. now rewrite app_nil_r.
Qed.

Lemma returns_obj_info : returns (fun v => hashable v = true) _obj_info.
Proof.
  unfold _obj_info.
  eapply returns_bind; [apply returns_obj_str |]. intros name _.
  eapply returns_bind; [apply returns_obj_str |]. intros val _.
  apply returns_ret. cbn. now rewrite !hashable_of_option_str.
Qed.

(** X6.  [_obj_info] on a name and a value, each written as a packed
    length and that many bytes, returns the pair of the two texts and leaves
    the cursor after them.  On every cursor it returns, never raising, and
    its result is hashable, so an info can be the key of a hashtable. *)
Theorem info_reads_two_strings :
  (forall name val rest ln lv,
     pack_i (Z.of_nat (length name)) = Val ln ->
     pack_i (Z.of_nat (length val)) = Val lv ->
     _obj_info (PyBytes (ln ++ name ++ lv ++ val ++ rest))
     = Ok (VTuple [VStr (map chr name); VStr (map chr val)]) (PyBytes rest)) /\
  (forall d, cursor d ->
     exists v d', _obj_info d = Ok v d' /\ hashable v = true /\ cursor d').
Proof.
  split.
  - intros name val rest ln lv Hn Hv. unfold _obj_info.
    bind_run (obj_str_packed name (lv ++ val ++ rest) Hn).
    bind_run (obj_str_packed val rest Hv). reflexivity.
  - exact returns_obj_info.
Qed.

End Info.

Lemma info_reads_two_strings_witness :
  _obj_info (PyBytes [x00; x00; x00; x01; x6b; x00; x00; x00; x02; x68; x69])
  = Ok (VTuple [VStr (u "k"); VStr (u "hi")]) (PyBytes []).
Proof.
  apply (proj1 info_reads_two_strings [x6b] [x68; x69] []
           [x00; x00; x00; x01] [x00; x00; x00; x02]); reflexivity.
Defined.

(* ================================================================== *)
(** * The message assembler on any frame *)
(* ================================================================== *)

Section AssemblerFacts.

Variable zlib_decompress : list byte -> res (list byte).

Lemma obj_cb_unknown fuel t d :
  lookup _obj_cb_table t = None -> _obj_cb fuel t d = Raise KeyError.
Proof. intros H. destruct fuel; cbn [_obj_cb]; now rewrite H. Qed.

(** X7.  A type tag that is not in the table aborts the whole decode with
    [KeyError]: wherever the loop of [decode] meets three bytes that decode
    to such a tag, it raises, whatever objects it has assembled so far; in
    particular [decode] raises when the first tag after the message id is
    unknown. *)
Theorem unknown_tag_raises_KeyError
    (t1 t2 t3 : byte) (rest : list byte) (t : str) (separator : str) :
  utf8_decode [t1; t2; t3] = Some t ->
  lookup _obj_cb_table t = None ->
  (forall fuel fuel' objects,
     decode_loop (S fuel) (_obj_cb fuel') separator objects
       (PyBytes (t1 :: t2 :: t3 :: rest)) = Raise KeyError) /\
  (forall a b c e payload msgid,
     _obj_str (PyBytes payload) = Ok msgid (PyBytes (t1 :: t2 :: t3 :: rest)) ->
     decode zlib_decompress (PyBytes (a :: b :: c :: e :: x00 :: payload))
       separator = Raise KeyError).
Proof.
  intros Htag Hlook.
  assert (Hloop : forall fuel fuel' objects,
             decode_loop (S fuel) (_obj_cb fuel') separator objects
               (PyBytes (t1 :: t2 :: t3 :: rest)) = Raise KeyError).
  { intros fuel fuel' objects. cbn [decode_loop].
    unfold bind at 1. unfold get at 1. cbn [len length Nat.ltb Nat.leb].
    unfold bind at 1. rewrite obj_type_bytes, Htag.
    unfold bind at 1. now rewrite obj_cb_unknown. }
  split; [exact Hloop |].
  intros a b c e payload msgid Hid.
  rewrite decode_uncompressed. unfold decode_payload.
  bind_run Hid. unfold bind at 1. now rewrite Hloop.
Qed.

End AssemblerFacts.

Lemma unknown_tag_raises_KeyError_witness :
  decode no_decompress
    (PyBytes [x00; x00; x00; x10; x00; xff; xff; xff; xff;
              x78; x79; x7a; x00; x00; x00; x2a]) newline
  = Raise KeyError.
Proof.
  apply (proj2 (@unknown_tag_raises_KeyError no_decompress
                  x78 x79 x7a [x00; x00; x00; x2a] (u "xyz") newline
                  eq_refl eq_refl)
           x00 x00 x00 x10 [xff; xff; xff; xff; x78; x79; x7a;
                            x00; x00; x00; x2a] None).
  reflexivity.
Defined.

Section ReturnedMessage.

Variable zlib_decompress : list byte -> res (list byte).

(** The loop of [decode] returns only on an empty cursor, having kept the
    objects it was given. *)
Lemma decode_loop_Ok cb separator fuel : forall objects d r d',
  decode_loop fuel cb separator objects d = Ok r d' ->
  len d' = 0%nat /\ exists more, r = objects ++ more.
Proof.
  induction fuel as [| fuel IH]; intros objects d r d' H;
    cbn [decode_loop] in H;
    apply bind_Ok in H as (data & d1 & Hget & H);
    apply get_Ok in Hget as [-> ->];
    destruct (Nat.ltb_spec 0 (len d)) as [Hpos | Hzero];
    try discriminate;
    try (apply ret_Ok in H as [<- <-];
         split; [lia | exists []; now rewrite app_nil_r]).
  apply bind_Ok in H as (t & d2 & _ & H).
  apply bind_Ok in H as (v & d3 & _ & H).
  apply IH in H as [Hlen [more ->]].
  split; [exact Hlen |]. eexists. now rewrite <- app_assoc.
Qed.

(** X8.  Whenever [decode] returns a message, the compression flag of the
    frame was 0: the message records the flag 0, the length of the frame as
    both sizes and the frame itself as its uncompressed form, and the cursor
    is empty, every byte after the header having been consumed. *)
Theorem decode_returns_only_uncompressed
    (data : pyseq) (separator : str) (m : WeechatMessage) (d' : pyseq) :
  decode zlib_decompress data separator = Ok m d' ->
  compression m = 0%Z /\
  size m = Z.of_nat (len data) /\
  size_uncompressed m = Z.of_nat (len data) /\
  uncompressed m = data /\
  len d' = 0%nat.
Proof.
  intros H. unfold decode, decode_body in H.
  apply bind_Ok in H as (data0 & d0 & Hget & H).
  apply get_Ok in Hget as [-> ->]. cbv zeta in H.
  apply bind_Ok in H as (flag & d1 & Hflag & H).
  apply lift_Ok in Hflag as [_ ->].
  apply bind_Ok in H as ([su un] & d2 & Hsu & H).
  destruct (Z.eqb_spec flag 0) as [-> | Hne].
  - apply ret_Ok in Hsu as [Hsu <-]. injection Hsu as <- <-.
    apply bind_Ok in H as (data1 & d3 & Hget & H).
    apply get_Ok in Hget as [-> ->].
    apply bind_Ok in H as (? & d4 & Hset & H). apply set_Ok in Hset as ->.
    apply bind_Ok in H as (msgid & d5 & _ & H). cbv zeta in H.
    apply bind_Ok in H as (objects & d6 & Hloop & H).
    apply ret_Ok in H as [<- <-].
    apply decode_loop_Ok in Hloop as [Hlen _].
    cbn. auto.
  - exfalso.
    apply bind_Ok in Hsu as (raw & d3 & Hraw & Hsu).
    apply lift_Ok in Hraw as [_ ->].
    apply bind_Ok in Hsu as (header & d4 & Hh & Hsu).
    apply lift_Ok in Hh as [_ ->].
    apply bind_Ok in Hsu as (fl & d5 & Hf & Hsu).
    apply lift_Ok in Hf as [_ ->].
    apply bind_Ok in Hsu as (? & d6 & Hset & Hsu). apply set_Ok in Hset as ->.
    apply ret_Ok in Hsu as [Hsu <-]. injection Hsu as <- <-.
    apply bind_Ok in H as (data1 & d7 & Hget & H).
    apply get_Ok in Hget as [-> ->].
    apply bind_Ok in H as (? & d8 & Hset & H). apply set_Ok in Hset as ->.
    apply bind_Ok in H as (msgid & d9 & Hid & _).
    cbn [seq_from] in Hid. rewrite obj_str_on_text in Hid; [discriminate |].
    rewrite slice_from_nonneg by lia. rewrite length_skipn, !length_app.
    pose proof (repr_bytes_length header).
    pose proof (repr_bytes_length fl).
    pose proof (repr_bytes_length raw).
    change (Z.to_nat 5) with 5%nat. lia.
Qed.

(** X9.  [decode] never looks at the length declared in the first four
    bytes of the frame: two uncompressed frames that differ only there give
    the same outcome, the same exception or messages with the same id, the
    same objects and the same sizes. *)
Theorem decode_ignores_declared_length
    (a b c e a' b' c' e' : byte) (payload : list byte) (separator : str) :
  match decode zlib_decompress
          (PyBytes (a :: b :: c :: e :: x00 :: payload)) separator,
        decode zlib_decompress
          (PyBytes (a' :: b' :: c' :: e' :: x00 :: payload)) separator
  with
  | Ok m d, Ok m' d' =>
      msgid m = msgid m' /\ objects m = objects m' /\
      size m = size m' /\ d = d'
  | Raise e1, Raise e2 => e1 = e2
  | OutOfFuel, OutOfFuel => True
  | _, _ => False
  end.
Proof.
  rewrite !decode_uncompressed. unfold decode_payload, bind. cbn [length].
  destruct (_obj_str (PyBytes payload)) as [msgid d1 | e1 |]; auto.
  destruct (decode_loop _ _ _ _ d1) as [objects d2 | e2 |]; cbn; auto.
Qed.

End ReturnedMessage.

Lemma decode_returns_only_uncompressed_witness :
  exists m,
    decode no_decompress
      (PyBytes [x00; x00; x00; x10; x00; xff; xff; xff; xff;
                x69; x6e; x74; x00; x00; x00; x2a]) newline
    = Ok m (PyBytes []) /\
    compression m = 0%Z /\ size m = 16%Z.
Proof.
  assert (Hm : decode no_decompress
                 (PyBytes [x00; x00; x00; x10; x00; xff; xff; xff; xff;
                           x69; x6e; x74; x00; x00; x00; x2a]) newline
               = Ok (mkWeechatMessage 16 16 0
                       (PyBytes [x00; x00; x00; x10; x00; xff; xff; xff; xff;
                                 x69; x6e; x74; x00; x00; x00; x2a])
                       [] [mkWeechatObject (u "int") (VInt 42) newline])
                    (PyBytes [])) by reflexivity.
  eexists. split; [exact Hm |].
  destruct (@decode_returns_only_uncompressed no_decompress _ _ _ _ Hm)
    as (Hc & Hs & _).
  split; [exact Hc | exact Hs].
Defined.

(* ================================================================== *)
(** * The counters of [_organize] *)
(* ================================================================== *)

Section Counters.

Lemma lookup_str_In {V} (d : list (str * V)) k v :
  lookup_str d k = Some v -> In k (map fst d).
Proof.
  induction d as [| [k' v'] d IH]; cbn; [discriminate |].
  destruct (str_eqb k' k) eqn:E.
  - apply str_eqb_eq in E. auto.
  - auto.
Qed.

Lemma lookup_str_None {V} (d : list (str * V)) k :
  lookup_str d k = None -> ~ In k (map fst d).
Proof.
  induction d as [| [k' v'] d IH]; cbn; [auto |].
  destruct (str_eqb k' k) eqn:E; [discriminate |].
  intros H [Heq | Hin]; [| now apply IH].
  subst. now rewrite str_eqb_refl in E.
Qed.

Lemma lookup_str_NoDup {V} (d : list (str * V)) k v :
  NoDup (map fst d) -> In (k, v) d -> lookup_str d k = Some v.
Proof.
  induction d as [| [k' v'] d IH]; cbn; intros Hnd Hin; [contradiction |].
  inversion Hnd as [| ? ? Hk Hnd']; subst.
  destruct Hin as [Heq | Hin].
  - injection Heq as -> ->. now rewrite str_eqb_refl.
  - destruct (str_eqb k' k) eqn:E; [| now apply IH].
    apply str_eqb_eq in E. subst. exfalso. apply Hk.
    apply (in_map fst) in Hin. exact Hin.
Qed.

Lemma replace_str_keys {V} (d : list (str * V)) k v :
  map fst (replace_str d k v) = map fst d.
Proof.
  induction d as [| [k' v'] d IH]; cbn; [reflexivity |].
  destruct (str_eqb k' k); cbn; [reflexivity | now rewrite IH].
Qed.

Lemma replace_str_three (d : count_dict) k l :
  three l -> Forall (fun kv => three (snd kv)) d ->
  Forall (fun kv => three (snd kv)) (replace_str d k l).
Proof.
  intros Hl. induction 1 as [| [k' v'] d Hv Hd IH]; cbn; [constructor |].
  destruct (str_eqb k' k); constructor; auto.
Qed.

Lemma lookup_str_three (d : count_dict) k l :
  Forall (fun kv => three (snd kv)) d -> lookup_str d k = Some l -> three l.
Proof.
  induction 1 as [| [k' v'] d Hv _ IH]; cbn; [discriminate |].
  destruct (str_eqb k' k); [| exact IH].
  intros H. injection H as <-. exact Hv.
Qed.

Lemma column_sum_cons k kv (d : count_dict) :
  column_sum k (kv :: d) = (nth k (snd kv) 0 + column_sum k d)%Z.
Proof. reflexivity. Qed.

Lemma column_sum_replace k (d : count_dict) name l l' :
  lookup_str d name = Some l ->
  column_sum k (replace_str d name l')
  = (column_sum k d + (nth k l' 0 - nth k l 0))%Z.
Proof.
  induction d as [| [k' v'] d IH]; cbn [lookup_str replace_str];
    [discriminate |].
  destruct (str_eqb k' name).
  - intros H. injection H as <-. rewrite !column_sum_cons. cbn [snd]. lia.
  - intros H. rewrite !column_sum_cons, (IH H). cbn [snd]. lia.
Qed.

Lemma column_sum_app k d d' :
  column_sum k (d ++ d') = (column_sum k d + column_sum k d')%Z.
Proof.
  induction d as [| kv d IH]; [reflexivity |].
  cbn [app]. rewrite !column_sum_cons, IH. lia.
Qed.

Lemma list_set_length l k x : length (list_set l k x) = length l.
Proof.
  revert k. induction l as [| y l IH]; intros [| k]; cbn; auto.
Qed.

Lemma list_set_nth l k x : forall k',
  (k < length l)%nat ->
  nth k' (list_set l k x) 0%Z = if Nat.eqb k' k then x else nth k' l 0%Z.
Proof.
  revert k. induction l as [| y l IH]; intros k k' Hk; cbn in Hk; [lia |].
  destruct k as [| k], k' as [| k']; cbn; try reflexivity.
  apply IH. lia.
Qed.

(** What a successful [l[k] += v] did. *)
Lemma add_at_Val l k v l' :
  add_at l k v = Val l' ->
  exists z, v = VInt z /\ (k < length l)%nat /\
            l' = list_set l k (nth k l 0 + z)%Z.
Proof.
  unfold add_at. destruct (nth_error l k) as [x |] eqn:E; [| discriminate].
  destruct v; try discriminate. intros H. injection H as <-.
  exists z. repeat split.
  - apply nth_error_Some. congruence.
  - f_equal. f_equal. symmetry. now apply nth_error_nth.
Qed.

Lemma bind_res_Val {A B} (r : res A) (k : A -> res B) b :
  bind_res r k = Val b -> exists a, r = Val a /\ k a = Val b.
Proof. destruct r as [a | e]; cbn; [eauto | discriminate]. Qed.

(** What a successful [d[name][k] += v] did. *)
Lemma bump_Val d name k v d' :
  bump d name k v = Val d' ->
  exists l z, lookup_str d name = Some l /\ v = VInt z /\
              (k < length l)%nat /\
              d' = replace_str d name (list_set l k (nth k l 0 + z)%Z).
Proof.
  unfold bump. destruct (lookup_str d name) as [l |]; [| discriminate].
  intros H. apply bind_res_Val in H as (l' & Hadd & H). injection H as <-.
  apply add_at_Val in Hadd as (z & -> & Hk & ->). now exists l, z.
Qed.

Lemma bump_preserves d name k v d' :
  bump d name k v = Val d' ->
  Forall (fun kv => three (snd kv)) d ->
  exists z, v = VInt z /\
    Forall (fun kv => three (snd kv)) d' /\
    map fst d' = map fst d /\
    forall k', column_sum k' d'
               = (column_sum k' d + if Nat.eqb k' k then z else 0)%Z.
Proof.
  intros H Hthree. apply bump_Val in H as (l & z & Hl & -> & Hk & ->).
  exists z. repeat apply conj.
  - reflexivity.
  - apply replace_str_three; [| assumption].
    unfold three. rewrite list_set_length.
    eapply lookup_str_three; eauto.
  - apply replace_str_keys.
  - intros k'. erewrite column_sum_replace by exact Hl.
    rewrite list_set_nth by assumption.
    destruct (Nat.eqb_spec k' k) as [-> | _]; lia.
Qed.

Lemma invariant_no_counts : invariant no_counts.
Proof.
  split.
  - unfold well_formed, no_counts. cbn.
    repeat apply conj; first [reflexivity | constructor].
  - intros k. unfold no_counts. cbn.
    destruct k as [| [| [| [| k]]]]; split; reflexivity.
Qed.

Lemma count_loop_invariant ks j sname bname : forall st st',
  count_loop ks j sname bname st = Val st' -> invariant st -> invariant st'.
Proof.
  induction ks as [| k ks IH]; intros st st' H Hinv; cbn [count_loop] in H.
  - now injection H as <-.
  - apply bind_res_Val in H as (v & Hv & H).
    apply bind_res_Val in H as (total & Htotal & H).
    apply bind_res_Val in H as (v2 & Hv2 & H).
    apply bind_res_Val in H as (buffers & Hbuf & H).
    apply bind_res_Val in H as (v3 & Hv3 & H).
    apply bind_res_Val in H as (servers & Hsrv & H).
    rewrite Hv in Hv2, Hv3. injection Hv2 as <-. injection Hv3 as <-.
    apply IH in H; [exact H |]. clear H IH.
    destruct Hinv as [(Ht & Hb & Hs & Hnb & Hns) Hbal].
    apply add_at_Val in Htotal as (z & -> & Hk & ->).
    destruct (@bump_preserves _ _ _ _ _ Hbuf Hb) as (z1 & Hz1 & Hb' & Hkb & Hsb).
    destruct (@bump_preserves _ _ _ _ _ Hsrv Hs) as (z2 & Hz2 & Hs' & Hks & Hss).
    injection Hz1 as <-. injection Hz2 as <-.
    split.
    + repeat split; cbn.
      * unfold three. now rewrite list_set_length.
      * exact Hb'.
      * exact Hs'.
      * now rewrite Hkb.
      * now rewrite Hks.
    + intros k'. cbn [total_counts buffer_counts server_counts].
      rewrite list_set_nth by assumption.
      rewrite Hsb, Hss. destruct (Hbal k') as [H1 H2].
      destruct (Nat.eqb_spec k' k) as [-> | _]; lia.
Qed.

Lemma ensure_preserves (d : count_dict) name :
  Forall (fun kv => three (snd kv)) d -> NoDup (map fst d) ->
  Forall (fun kv => three (snd kv)) (ensure d name) /\
  NoDup (map fst (ensure d name)) /\
  forall k, column_sum k (ensure d name) = column_sum k d.
Proof.
  intros Hthree Hnd. unfold ensure, mem_str.
  destruct (lookup_str d name) as [l |] eqn:E; [auto |].
  apply lookup_str_None in E. repeat apply conj.
  - apply Forall_app. split; [assumption |]. repeat constructor.
  - rewrite map_app. cbn. apply NoDup_app; [assumption | | ].
    + repeat constructor. auto.
    + intros a Ha [<- | []]. contradiction.
  - intros k. rewrite column_sum_app. cbn.
    destruct k as [| [| [| [| k]]]]; cbn; lia.
Qed.

Lemma organize_item_invariant search st j st' :
  organize_item search st j = Val st' -> invariant st -> invariant st'.
Proof.
  unfold organize_item. intros H Hinv.
  apply bind_res_Val in H as (name & _ & H).
  apply bind_res_Val in H as (matches & _ & H).
  destruct matches as [[sname bname] |]; [| now injection H as <-].
  apply count_loop_invariant in H; [exact H |].
  destruct Hinv as [(Ht & Hb & Hs & Hnb & Hns) Hbal].
  destruct (ensure_preserves bname Hb Hnb) as (Hb' & Hnb' & Hsb).
  destruct (ensure_preserves sname Hs Hns) as (Hs' & Hns' & Hss).
  split.
  - repeat split; assumption.
  - intros k. cbn [total_counts buffer_counts server_counts].
    rewrite Hsb, Hss. apply Hbal.
Qed.

Lemma organize_items_invariant search js : forall st st',
  organize_items search st js = Val st' -> invariant st -> invariant st'.
Proof.
  induction js as [| j js IH]; intros st st' H Hinv; cbn in H.
  - now injection H as <-.
  - apply bind_res_Val in H as (st1 & Hitem & H).
    eapply IH; [exact H |]. eapply organize_item_invariant; eauto.
Qed.

Lemma organize_objects_invariant search objs : forall st st',
  organize_objects search st objs = Val st' -> invariant st -> invariant st'.
Proof.
  induction objs as [| i objs IH]; intros st st' H Hinv; cbn in H.
  - now injection H as <-.
  - apply bind_res_Val in H as (st1 & Hobj & H).
    eapply IH; [exact H |]. unfold organize_object in Hobj.
    apply bind_res_Val in Hobj as (items & _ & Hobj).
    apply bind_res_Val in Hobj as (js & _ & Hobj).
    eapply organize_items_invariant; eauto.
Qed.

Lemma organize_invariant re_compile servers message st :
  _organize re_compile servers message = inl st -> invariant st.
Proof.
  unfold _organize. destruct (re_compile _) as [search |]; [| discriminate].
  destruct (organize_objects _ _ _) as [st0 | e] eqn:E; [| discriminate].
  intros H. injection H as <-.
  eapply organize_objects_invariant; [exact E | apply invariant_no_counts].
Qed.

End Counters.

Section OrganizeFacts.

Variable re_compile : str -> option (str -> option (str * str)).

(** X11.  Whenever [_organize] returns, its counters are consistent:
    [total_counts] has three entries, every buffer and every server has
    three counts and appears once, and each of the three totals is both the
    sum of that count over the buffers and its sum over the servers. *)
Theorem organize_counts_balance
    (servers : list str) (message : WeechatMessage) (st : organized) :
  _organize re_compile servers message = inl st ->
  well_formed st /\ balanced st.
Proof. apply organize_invariant. Qed.

Lemma counted_cons k j js :
  counted k (j :: js) = (count_of k j + counted k js)%Z.
Proof. reflexivity. Qed.

(** An item that is not matched leaves the counters as they are. *)
Lemma organize_item_unmatched search st j st' :
  organize_item search st j = Val st' -> matched search j = false -> st' = st.
Proof.
  unfold organize_item, matched. intros H Hm.
  apply bind_res_Val in H as (name & Hname & H).
  apply bind_res_Val in H as (matches & Hs & H).
  rewrite Hname in Hm. destruct name; try discriminate.
  injection Hs as <-. destruct (search s); [discriminate |].
  now injection H as <-.
Qed.

Lemma organize_items_filter search js : forall st st',
  organize_items search st js = Val st' ->
  organize_items search st (filter (matched search) js) = Val st'.
Proof.
  induction js as [| j js IH]; intros st st' H; [exact H |].
  cbn [organize_items] in H. apply bind_res_Val in H as (st1 & Hitem & H).
  cbn [filter]. destruct (matched search j) eqn:Hm.
  - cbn [organize_items]. rewrite Hitem. cbn [bind_res]. now apply IH.
  - apply (@organize_item_unmatched _ _ _ _ Hitem) in Hm. subst st1. now apply IH.
Qed.

Lemma organize_items_app search js1 : forall st js2,
  organize_items search st (js1 ++ js2)
  = bind_res (organize_items search st js1)
      (fun st' => organize_items search st' js2).
Proof.
  induction js1 as [| j js1 IH]; intros st js2; [reflexivity |].
  cbn [app organize_items].
  destruct (organize_item search st j) as [st1 | e]; [| reflexivity].
  cbn [bind_res]. apply IH.
Qed.

(** The two loops of [_organize] go through the items of the objects one
    after the other. *)
Lemma organize_objects_items search objs : forall st st',
  organize_objects search st objs = Val st' ->
  organize_items search st (flat_map items_of objs) = Val st'.
Proof.
  induction objs as [| i objs IH]; intros st st' H; [exact H |].
  cbn [organize_objects] in H. apply bind_res_Val in H as (st1 & Hobj & H).
  cbn [flat_map]. rewrite organize_items_app.
  unfold organize_object in Hobj.
  apply bind_res_Val in Hobj as (items & Hitems & Hobj).
  apply bind_res_Val in Hobj as (js & Hjs & Hobj).
  unfold items_of. rewrite Hitems, Hjs, Hobj. cbn [bind_res]. now apply IH.
Qed.

(** What the loop over [k] adds to the totals. *)
Lemma count_loop_total ks j sname bname : forall st st',
  count_loop ks j sname bname st = Val st' ->
  forall k',
    nth k' (total_counts st') 0%Z
    = (nth k' (total_counts st) 0
       + fold_right (fun k acc =>
                       ((if Nat.eqb k' k then count_of k j else 0) + acc)%Z)
           0%Z ks)%Z.
Proof.
  induction ks as [| k ks IH]; intros st st' H k'; cbn [count_loop] in H.
  - injection H as <-. cbn. lia.
  - apply bind_res_Val in H as (v & Hv & H).
    apply bind_res_Val in H as (total & Htotal & H).
    apply bind_res_Val in H as (v2 & _ & H).
    apply bind_res_Val in H as (buffers & _ & H).
    apply bind_res_Val in H as (v3 & _ & H).
    apply bind_res_Val in H as (servers & _ & H).
    rewrite (IH _ _ H k'). cbn [total_counts fold_right].
    apply add_at_Val in Htotal as (z & -> & Hk & ->).
    rewrite list_set_nth by assumption.
    unfold count_of. rewrite Hv.
    destruct (Nat.eqb_spec k' k) as [-> | _]; lia.
Qed.

Lemma organize_item_total search st j st' :
  organize_item search st j = Val st' ->
  forall k, (k < 3)%nat ->
    nth k (total_counts st') 0%Z
    = (nth k (total_counts st) 0
       + if matched search j then count_of k j else 0)%Z.
Proof.
  intros H k Hk. destruct (matched search j) eqn:Hm.
  - unfold organize_item in H. unfold matched in Hm.
    apply bind_res_Val in H as (name & Hname & H).
    apply bind_res_Val in H as (matches & Hs & H).
    rewrite Hname in Hm. destruct name; try discriminate.
    injection Hs as <-. destruct (search s) as [[sname bname] |];
      [| discriminate].
    rewrite (@count_loop_total _ _ _ _ _ _ H k). cbn [total_counts fold_right].
    destruct k as [| [| [| k]]]; cbn [Nat.eqb]; lia.
  - apply (@organize_item_unmatched _ _ _ _ H) in Hm. subst st'. lia.
Qed.

Lemma organize_items_total search js : forall st st',
  organize_items search st js = Val st' ->
  forall k, (k < 3)%nat ->
    nth k (total_counts st') 0%Z
    = (nth k (total_counts st) 0
       + counted k (filter (matched search) js))%Z.
Proof.
  induction js as [| j js IH]; intros st st' H k Hk; cbn [organize_items] in H.
  - injection H as <-. cbn. lia.
  - apply bind_res_Val in H as (st1 & Hitem & H).
    rewrite (IH _ _ H k Hk), (@organize_item_total _ _ _ _ Hitem k Hk).
    cbn [filter]. destruct (matched search j);
      [rewrite counted_cons |]; lia.
Qed.

(** X12.  Items whose buffer name the pattern does not match are counted
    nowhere.  Whenever [_organize] returns, its counters, totals, buffers
    and servers, are those that counting the matched items alone, in their
    order, gives; and each of the three totals is the sum, over the matched
    items only, of the count of that priority ([count_00], [count_01],
    [count_02], 0 when the item has none). *)
Theorem organize_skips_unmatched
    (servers : list str) (message : WeechatMessage) (st : organized)
    (search : str -> option (str * str)) :
  re_compile (server_re servers) = Some search ->
  _organize re_compile servers message = inl st ->
  organize_items search no_counts (matching_items search message) = Val st /\
  (forall k, (k < 3)%nat ->
     nth k (total_counts st) 0%Z
     = counted k (matching_items search message)).
Proof.
  intros Hre H. unfold _organize in H. rewrite Hre in H.
  destruct (organize_objects _ _ _) as [st0 | e] eqn:E; [| discriminate].
  injection H as <-. apply organize_objects_items in E.
  fold no_counts in E. unfold matching_items. split.
  - now apply organize_items_filter.
  - intros k Hk. rewrite (@organize_items_total _ _ _ _ E k Hk).
    unfold no_counts. cbn [total_counts].
    destruct k as [| [| [| k]]]; cbn [nth]; lia.
Qed.

Lemma organize_items_countable search js : forall st st',
  organize_items search st js = Val st' ->
  Forall (fun j => exists fields name,
              j = VDict fields /\
              get_method j (u "buffer_name") (VStr (u "unknown"))
              = Val (VStr name)) js.
Proof.
  induction js as [| j js IH]; intros st st' H; cbn in H; [constructor |].
  apply bind_res_Val in H as (st1 & Hitem & H).
  constructor; [| eapply IH; eauto].
  unfold organize_item in Hitem.
  apply bind_res_Val in Hitem as (name & Hname & Hitem).
  apply bind_res_Val in Hitem as (matches & Hm & _).
  destruct name; try discriminate.
  destruct j; try discriminate. eauto.
Qed.

(** X13.  [_organize] returns only for a message all of whose objects are
    dictionaries with an [items] entry made of dictionaries whose
    [buffer_name], when present, is a [str]; for any other message it
    raises. *)
Theorem organize_needs_item_lists
    (servers : list str) (message : WeechatMessage) (st : organized) :
  _organize re_compile servers message = inl st ->
  Forall countable (objects message).
Proof.
  unfold _organize. destruct (re_compile _) as [search |]; [| discriminate].
  destruct (organize_objects _ _ _) as [st0 | e] eqn:E; [| discriminate].
  intros _. revert E. generalize (mkOrganized [0; 0; 0]%Z [] []).
  generalize (objects message).
  induction l as [| i objs IH]; intros st0' E; cbn in E; [constructor |].
  apply bind_res_Val in E as (st1 & Hobj & E).
  constructor; [| eapply IH; eauto].
  unfold organize_object in Hobj.
  apply bind_res_Val in Hobj as (items & Hitems & Hobj).
  apply bind_res_Val in Hobj as (js & Hjs & Hobj).
  destruct (value_of i) as [| | | | | d] eqn:Ev; try discriminate.
  exists d, items, js. repeat apply conj; auto.
  - now rewrite Ev.
  - eapply organize_items_countable; eauto.
Qed.

End OrganizeFacts.

Lemma organize_counts_balance_witness :
  exists st,
    _organize (fun _ => Some first_dot_search) [u "a"; u "b"] hotlist_sample
    = inl st /\
    total_counts st = [0; 1; 3]%Z /\
    well_formed st /\ balanced st.
Proof.
  assert (H : _organize (fun _ => Some first_dot_search) [u "a"; u "b"]
                hotlist_sample
              = inl (mkOrganized [0; 1; 3]%Z
                       [(u "x", [0; 0; 3]%Z); (u "y", [0; 1; 0]%Z)]
                       [(u "a", [0; 0; 3]%Z); (u "b", [0; 1; 0]%Z)]))
    by reflexivity.
  eexists. split; [exact H |]. split; [reflexivity |].
  exact (organize_counts_balance _ _ _ H).
Defined.

Lemma organize_skips_unmatched_witness :
  _organize (fun _ => Some first_dot_search) [u "a"; u "b"]
    mixed_hotlist_sample
  = inl (mkOrganized [0; 1; 3]%Z
           [(u "x", [0; 0; 3]%Z); (u "y", [0; 1; 0]%Z)]
           [(u "a", [0; 0; 3]%Z); (u "b", [0; 1; 0]%Z)]) /\
  length (matching_items first_dot_search mixed_hotlist_sample) = 2%nat /\
  counted 0 (matching_items first_dot_search mixed_hotlist_sample) = 0%Z /\
  nth 0 [0; 1; 3]%Z 0%Z
  = counted 0 (matching_items first_dot_search mixed_hotlist_sample).
Proof.
  assert (H : _organize (fun _ => Some first_dot_search) [u "a"; u "b"]
                mixed_hotlist_sample
              = inl (mkOrganized [0; 1; 3]%Z
                       [(u "x", [0; 0; 3]%Z); (u "y", [0; 1; 0]%Z)]
                       [(u "a", [0; 0; 3]%Z); (u "b", [0; 1; 0]%Z)]))
    by reflexivity.
  split; [exact H |]. split; [reflexivity |]. split; [reflexivity |].
  destruct (@organize_skips_unmatched (fun _ => Some first_dot_search)
              [u "a"; u "b"] mixed_hotlist_sample _ first_dot_search
              eq_refl H) as [_ Htotals].
  apply (Htotals 0%nat). lia.
Defined.

Lemma organize_needs_item_lists_witness :
  Forall countable (objects hotlist_sample).
Proof.
  apply (@organize_needs_item_lists (fun _ => Some first_dot_search)
           [u "a"; u "b"] hotlist_sample
           (mkOrganized [0; 1; 3]%Z
              [(u "x", [0; 0; 3]%Z); (u "y", [0; 1; 0]%Z)]
              [(u "a", [0; 0; 3]%Z); (u "b", [0; 1; 0]%Z)])).
  reflexivity.
Defined.

(* ================================================================== *)
(** * The composite of [_format] *)
(* ================================================================== *)

Section Format.

Lemma bubble_three c : three c -> bubble c = Val (symbol c).
Proof.
  unfold three. intros H.
  destruct c as [| c0 [| c1 [| c2 [| ? ?]]]]; try discriminate.
  unfold bubble, symbol, getitem. cbn [nth_error nth bind_res].
  destruct (negb (c2 =? 0)%Z); [reflexivity |].
  destruct (c1 =? 1)%Z; [reflexivity |].
  destruct (c1 =? 2)%Z; [reflexivity |].
  destruct (2 <? c1)%Z; [reflexivity |].
  destruct (negb (c0 =? 0)%Z); reflexivity.
Qed.

Lemma format_loop_entries server_colors data :
  Forall (fun kv => three (snd kv)) (server_counts data) ->
  forall rest composite,
    (forall s c, In (s, c) rest -> lookup_str server_colors s = Some c) ->
    format_loop server_colors data (map fst rest) composite
    = Val (composite
           ++ flat_map (fun sc => [server_entry data sc; blank]) rest).
Proof.
  intros Hthree. induction rest as [| [s c] rest IH]; intros composite Hcol.
  - cbn. now rewrite app_nil_r.
  - cbn [map fst format_loop flat_map].
    assert (Htext :
      match lookup_str (server_counts data) s with
      | Some cs => bubble cs
      | None => Val SOLID_CIRCLE
      end
      = Val (match lookup_str (server_counts data) s with
             | Some cs => symbol cs
             | None => SOLID_CIRCLE
             end)).
    { destruct (lookup_str (server_counts data) s) as [cs |] eqn:E;
        [| reflexivity].
      apply bubble_three. eapply lookup_str_three; eauto. }
    rewrite Htext. cbn [bind_res]. unfold color_of.
    rewrite (Hcol s c) by now left. cbn [bind_res].
    rewrite IH by (intros; apply Hcol; now right).
    unfold server_entry. cbn [fst snd]. now rewrite <- !app_assoc.
Qed.

Lemma removelast_pairs {A B} (f : A -> B) (sep : B) (l : list A) :
  l <> [] ->
  removelast (flat_map (fun x => [f x; sep]) l) = intersperse sep (map f l).
Proof.
  induction l as [| x l IH]; intros Hne; [contradiction |].
  destruct l as [| y l]; [reflexivity |].
  specialize (IH ltac:(discriminate)).
  cbn [flat_map app map intersperse] in *.
  change (removelast (f x :: sep :: f y :: sep
                      :: flat_map (fun x0 => [f x0; sep]) l))
    with (f x :: sep
          :: removelast (f y :: sep :: flat_map (fun x0 => [f x0; sep]) l)).
  now rewrite IH.
Qed.

Lemma intersperse_length {A} (sep : A) (l : list A) :
  length (intersperse sep l) = (2 * length l - 1)%nat.
Proof.
  induction l as [| x l IH]; [reflexivity |].
  destruct l as [| y l]; [reflexivity |].
  cbn [intersperse length] in *. lia.
Qed.

Lemma format_entries server_colors data :
  server_colors <> [] ->
  NoDup (map fst server_colors) ->
  Forall (fun kv => three (snd kv)) (server_counts data) ->
  _format (post_config_hook server_colors) server_colors data
  = Val (intersperse blank (map (server_entry data) server_colors)).
Proof.
  intros Hne Hnd Hthree. unfold _format, post_config_hook.
  rewrite (@format_loop_entries server_colors data Hthree server_colors [])
    by (intros; now apply lookup_str_NoDup).
  cbn [bind_res app].
  destruct server_colors as [| sc rest]; [contradiction |].
  rewrite <- (removelast_pairs (server_entry data) blank (l := sc :: rest))
    by discriminate.
  reflexivity.
Qed.

(** X14.  With at least one server, colours keyed by distinct names and
    three counts for every counted server, [_format] returns the entries of
    the servers in the order of [server_colors], each the symbol chosen from
    the counts of the server (the solid circle when the server has no
    counts) with the colour of the server, and a blank entry between two
    neighbours and nowhere else: 2n - 1 entries for n servers.  With no
    server it raises [IndexError]. *)
Theorem format_intersperses_servers
    (server_colors : list (str * str)) (data : organized) :
  (server_colors <> [] ->
   NoDup (map fst server_colors) ->
   Forall (fun kv => three (snd kv)) (server_counts data) ->
   _format (post_config_hook server_colors) server_colors data
   = Val (intersperse blank (map (server_entry data) server_colors)) /\
   length (intersperse blank (map (server_entry data) server_colors))
   = (2 * length server_colors - 1)%nat) /\
  _format [] server_colors data = Exn IndexError.
Proof.
  split; [| reflexivity].
  intros Hne Hnd Hthree. split.
  - now apply format_entries.
  - now rewrite intersperse_length, length_map.
Qed.

(** X15.  After [_organize], [_format] cannot fail when there is at least
    one server: on the counters that [_organize] returns, it returns the
    2n - 1 entries of the n servers. *)
Theorem format_after_organize
    (re_compile : str -> option (str -> option (str * str)))
    (server_colors : list (str * str)) (message : WeechatMessage)
    (st : organized) :
  server_colors <> [] ->
  NoDup (map fst server_colors) ->
  _organize re_compile (post_config_hook server_colors) message = inl st ->
  exists composite,
    _format (post_config_hook server_colors) server_colors st
    = Val composite /\
    composite = intersperse blank (map (server_entry st) server_colors) /\
    length composite = (2 * length server_colors - 1)%nat.
Proof.
  intros Hne Hnd H. apply organize_invariant in H as [(_ & _ & Hs & _) _].
  eexists. repeat apply conj.
  - now apply format_entries.
  - reflexivity.
  - now rewrite intersperse_length, length_map.
Qed.

End Format.

Lemma format_intersperses_servers_witness :
  _format [u "a"; u "b"] [(u "a", u "#ff0000"); (u "b", u "#000099")]
    (mkOrganized [0; 1; 3]%Z [] [(u "a", [0; 0; 3]%Z); (u "b", [0; 1; 0]%Z)])
  = Val [colored ANGER_BUBBLE (u "#ff0000"); blank;
         colored SINGLE_SPEECH_BUBBLE (u "#000099")].
Proof.
  apply (proj1 (@format_intersperses_servers
                  [(u "a", u "#ff0000"); (u "b", u "#000099")]
                  (mkOrganized [0; 1; 3]%Z []
                     [(u "a", [0; 0; 3]%Z); (u "b", [0; 1; 0]%Z)]))).
  - discriminate.
  - repeat constructor; cbn; intuition discriminate.
  - repeat constructor.
Defined.

Lemma format_after_organize_witness :
  exists composite,
    _format [u "a"; u "b"] [(u "a", u "#ff0000"); (u "b", u "#000099")]
      (mkOrganized [0; 1; 3]%Z
         [(u "x", [0; 0; 3]%Z); (u "y", [0; 1; 0]%Z)]
         [(u "a", [0; 0; 3]%Z); (u "b", [0; 1; 0]%Z)])
    = Val composite /\
    length composite = 3%nat.
Proof.
  destruct (@format_after_organize (fun _ => Some first_dot_search)
              [(u "a", u "#ff0000"); (u "b", u "#000099")] hotlist_sample
              (mkOrganized [0; 1; 3]%Z
                 [(u "x", [0; 0; 3]%Z); (u "y", [0; 1; 0]%Z)]
                 [(u "a", [0; 0; 3]%Z); (u "b", [0; 1; 0]%Z)]))
    as (composite & Hfmt & _ & Hlen).
  - discriminate.
  - repeat constructor; cbn; intuition discriminate.
  - reflexivity.
  - exists composite. split; [exact Hfmt | exact Hlen].
Defined.

(* ================================================================== *)
(** * The loop and the slice of [_receive] *)
(* ================================================================== *)

Section Receive.

Lemma recv_loop_data chunks : forall buffer,
  recv_loop (map Recv chunks) buffer = None.
Proof.
  induction chunks as [| chunk chunks IH]; intros buffer; cbn;
    [reflexivity | apply IH].
Qed.

Lemma recv_loop_first_error chunks errno later : forall buffer,
  recv_loop (map Recv chunks ++ RecvError errno :: later) buffer
  = Some (if (errno =? EWOULDBLOCK)%Z
          then Val (buffer ++ List.concat chunks)
          else Exn (socket_error errno)).
Proof.
  induction chunks as [| chunk chunks IH]; intros buffer; cbn.
  - rewrite app_nil_r. now destruct (errno =? EWOULDBLOCK)%Z.
  - rewrite IH. now rewrite app_assoc.
Qed.

Lemma slice_drop_last {A} (l : list A) (n : Z) :
  (n < 0)%Z -> slice l 0 n = firstn (length l - Z.to_nat (- n)) l.
Proof.
  intros Hn. unfold slice, clamp.
  destruct (Z.ltb_spec n 0) as [_ | ?]; [| lia].
  destruct (Z.ltb_spec 0 0) as [? | _]; [lia |].
  rewrite Z.min_l by lia. change (Z.to_nat 0) with O. cbn [skipn].
  f_equal. lia.
Qed.

(** X16.  The loop of [_receive] ends only when [recv] raises.  As long as
    [recv] returns, be it empty chunks, the loop goes on; at the first
    exception that is not [EWOULDBLOCK], [_receive] raises it, whatever it
    has buffered and whatever the socket would give later. *)
Theorem receive_stops_on_error_only
    (chunks : list (list byte)) (errno : Z) (later : list recv_event) :
  _receive true (map Recv chunks) = None /\
  (errno <> EWOULDBLOCK ->
   _receive true (map Recv chunks ++ RecvError errno :: later)
   = Some (Exn (socket_error errno))).
Proof.
  split.
  - unfold _receive. now rewrite recv_loop_data.
  - intros Herr. unfold _receive. rewrite recv_loop_first_error.
    destruct (Z.eqb_spec errno EWOULDBLOCK); [contradiction | reflexivity].
Qed.

Lemma receive_stops_on_error_only_witness :
  _receive true [Recv [x00; x00; x00; x05; x00]; Recv []] = None /\
  _receive true [Recv [x00; x00; x00; x05; x00]; Recv []; RecvError 104;
                 Recv [x41]; RecvError EWOULDBLOCK]
  = Some (Exn (socket_error 104)).
Proof.
  destruct (@receive_stops_on_error_only
              [[x00; x00; x00; x05; x00]; []] 104
              [Recv [x41]; RecvError EWOULDBLOCK]) as [Hloop Herr].
  split; [exact Hloop | apply Herr; discriminate].
Defined.

(** X17.  With fewer than four bytes buffered when the socket would block,
    [_receive] raises [struct.error]; so it does when [select] did not
    report the socket, nothing being read then. *)
Theorem receive_needs_four_bytes
    (sock : list recv_event) (buffer : list byte) :
  (recv_loop sock [] = Some (Val buffer) ->
   (length buffer < 4)%nat ->
   _receive true sock = Some (Exn struct_error)) /\
  _receive false sock = Some (Exn struct_error).
Proof.
  split; [| reflexivity].
  intros Hloop Hshort. unfold _receive. rewrite Hloop.
  rewrite slice_prefix by lia. change (Z.to_nat 4) with 4%nat.
  rewrite firstn_all2 by lia.
  unfold unpack_i, unpack.
  destruct (Nat.eqb_spec (length buffer) 4); [lia | reflexivity].
Qed.

Lemma receive_needs_four_bytes_witness :
  _receive true [Recv [x00; x00]; Recv [x00]; RecvError EWOULDBLOCK]
  = Some (Exn struct_error).
Proof.
  apply (proj1 (@receive_needs_four_bytes
                  [Recv [x00; x00]; Recv [x00]; RecvError EWOULDBLOCK]
                  [x00; x00; x00])).
  - reflexivity.
  - cbn. lia.
Defined.

(** X18.  A negative length prefix makes [_receive] cut from the end: it
    returns the buffered bytes without the last [-length] of them, nothing
    when there are no more than that, and raises nothing. *)
Theorem receive_negative_length_cuts_tail
    (sock : list recv_event) (a b c e : byte) (rest : list byte) :
  let buffer := a :: b :: c :: e :: rest in
  let declared := int32 a b c e in
  recv_loop sock [] = Some (Val buffer) ->
  (declared < 0)%Z ->
  exists frame tail,
    _receive true sock = Some (Val frame) /\
    buffer = frame ++ tail /\
    length tail = Nat.min (Z.to_nat (- declared)) (length buffer).
Proof.
  intros buffer declared Hloop Hneg.
  exists (firstn (length buffer - Z.to_nat (- declared)) buffer),
         (skipn (length buffer - Z.to_nat (- declared)) buffer).
  split; [| split].
  - unfold _receive. rewrite Hloop.
    rewrite slice_prefix by lia.
    change (firstn (Z.to_nat 4) buffer) with [a; b; c; e].
    change (unpack_i (PyBytes [a; b; c; e])) with (Val declared).
    cbv iota. now rewrite slice_drop_last.
  - symmetry. apply firstn_skipn.
  - rewrite length_skipn. lia.
Qed.

Lemma receive_negative_length_cuts_tail_witness :
  exists frame tail,
    _receive true [Recv [xff; xff; xff; xfe; x00; x41; x42];
                   RecvError EWOULDBLOCK] = Some (Val frame) /\
    [xff; xff; xff; xfe; x00; x41; x42] = frame ++ tail /\
    length tail = 2%nat.
Proof.
  destruct (@receive_negative_length_cuts_tail
              [Recv [xff; xff; xff; xfe; x00; x41; x42];
               RecvError EWOULDBLOCK]
              xff xff xff xfe [x00; x41; x42])
    as (frame & tail & Hrecv & Hsplit & Hlen).
  - reflexivity.
  - vm_compute. reflexivity.
  - exists frame, tail. split; [exact Hrecv |]. split; [exact Hsplit |].
    exact Hlen.
Defined.

End Receive.

(* ================================================================== *)
(** * The cursor only moves forward *)
(* ================================================================== *)

(** X19.  No decoder of the table puts bytes back: whatever the tag and
    the cursor, when the decoder of the tag returns, the cursor it leaves is
    no longer than the one it was given, and this holds through the nested
    values of hashtables, hdata, infolists and arrays. *)
Theorem decoders_never_grow_cursor
    (fuel : nat) (tag : str) (d : pyseq) (v : value) (d' : pyseq) :
  _obj_cb fuel tag d = Ok v d' -> (len d' <= len d)%nat.
Proof. intros H. exact (@shrinks_obj_cb fuel tag d v d' H). Qed.

Lemma decoders_never_grow_cursor_witness :
  _obj_cb 3 (u "arr") (PyBytes (array_sample ++ [x41]))
  = Ok (VList [VInt 7; VInt 9]) (PyBytes [x41]) /\
  (len (PyBytes [x41]) <= len (PyBytes (array_sample ++ [x41])))%nat.
Proof.
  split; [reflexivity |].
  apply (@decoders_never_grow_cursor 3 (u "arr")
           (PyBytes (array_sample ++ [x41])) (VList [VInt 7; VInt 9])
           (PyBytes [x41])).
  reflexivity.
Defined.
